(** * SEO baseline comparison utilities ([seo_utils.js]): a shallow embedding

    The development follows [seo_utils.js]: the field-level differ
    [findFieldDifferences], the two kind-specific comparisons
    [compareJsonLdWithBaseline] and [compareMetaTagsWithBaseline], the
    orchestrator [compareWithBaseline], [updateBaseline],
    [ensureBaselineDirectory], and the two extractors [extractJsonLdData]
    and [extractMetaTags].

    Modelling conventions.
    - JavaScript values are the JSON values plus [undefined]; numbers are
      exact integers ([Z], rendered in plain decimal, as JavaScript does for
      the integers it represents exactly); strings are sequences of 8-bit
      code units.
    - An object is the list of its own enumerable properties in
      [Object.keys] order.  Property names inherited from the built-in
      prototypes ([toString], [constructor], [__proto__], ...) are not part
      of the model, nor is the engine's reordering of integer-like keys:
      a property that names a key which is not an own key of the object it
      is looked up in assumes that the key is none of the inherited names
      ([inherited_name]).
    - A path is the list of its components; the name of a baseline file is
      one component, which is what [path.join] makes of a short page name
      without separators ([plain_name]).
    - The baseline read from disk and the freshly extracted value never share
      an object, so [===] on two objects is [false].
    - A computation either returns, throws, or is [Unmodelled] (the embedding
      assigns it no behaviour).
    - The built-ins the source calls are modelled by their specification:
      [JSON.stringify] and [JSON.parse] on the values above, and the
      synchronous [fs] calls on a map from paths to files and directories;
      the functions take the file system as an argument and return the one
      they leave behind.  [console.log] is not modelled. *)

From Stdlib Require Import ZArith Ascii String.
From Stdlib Require Import DecimalString DecimalFacts DecimalPos DecimalN.
From stdpp Require Import base option list strings gmap.

Set Warnings "-register-all".
Open Scope string_scope.
Open Scope list_scope.

(** ** Outcomes of a JavaScript computation *)

Inductive js_error :=
| TypeError
| SyntaxError
| Error (message : string)
| SystemError (code : string).

Inductive outcome (A : Type) :=
| Return (a : A)
| Throw (e : js_error)
| Unmodelled.

Arguments Return {A} a.
Arguments Throw {A} e.
Arguments Unmodelled {A}.

#[global] Instance outcome_bind : MBind outcome := fun A B k m =>
  match m with
  | Return a => k a
  | Throw e => Throw e
  | Unmodelled => Unmodelled
  end.

#[global] Instance outcome_ret : MRet outcome := fun A a => Return a.

(** ** Values *)

Inductive value :=
| VUndefined
| VNull
| VBool (b : bool)
| VNum (n : Z)
| VStr (s : string)
| VArr (items : list value)
| VObj (props : list (string * value)).

(** [typeof v] *)
Definition typeof (v : value) : string :=
  match v with
  | VUndefined => "undefined"
  | VNull => "object"
  | VBool _ => "boolean"
  | VNum _ => "number"
  | VStr _ => "string"
  | VArr _ => "object"
  | VObj _ => "object"
  end.

(** ToBoolean *)
Definition truthy (v : value) : bool :=
  match v with
  | VUndefined | VNull => false
  | VBool b => b
  | VNum n => negb (n =? 0)%Z
  | VStr s => negb (String.eqb s "")
  | VArr _ | VObj _ => true
  end.

(** [a === b]; two object operands are distinct references. *)
Definition strict_eq (a b : value) : bool :=
  match a, b with
  | VUndefined, VUndefined => true
  | VNull, VNull => true
  | VBool x, VBool y => Bool.eqb x y
  | VNum x, VNum y => (x =? y)%Z
  | VStr x, VStr y => String.eqb x y
  | _, _ => false
  end.

Definition strict_neq (a b : value) : bool := negb (strict_eq a b).

(** [Array.isArray v] *)
Definition isArray (v : value) : bool :=
  match v with VArr _ => true | _ => false end.

(** [typeof v === 'object' && v !== null] *)
Definition is_nonnull_object (v : value) : bool :=
  String.eqb (typeof v) "object" && strict_neq v VNull.

(** Decimal rendering of an index, as in [`${i}`]. *)
Definition string_of_nat (n : nat) : string :=
  NilZero.string_of_uint (N.to_uint (N.of_nat n)).

Definition index_keys (n : nat) : list string :=
  map string_of_nat (seq 0 n).

Fixpoint chars (s : string) : list value :=
  match s with
  | EmptyString => []
  | String c s' => VStr (String c EmptyString) :: chars s'
  end.

(** The own enumerable properties of a value, in [Object.keys] order. *)
Definition own_props (v : value) : list (string * value) :=
  match v with
  | VObj props => props
  | VArr items => zip (index_keys (length items)) items
  | VStr s => zip (index_keys (String.length s)) (chars s)
  | _ => []
  end.

Fixpoint assoc {A} (key : string) (props : list (string * A)) : option A :=
  match props with
  | [] => None
  | (k, v) :: rest => if String.eqb key k then Some v else assoc key rest
  end.

(** [Object.keys(v)] *)
Definition Object_keys (v : value) : outcome (list string) :=
  match v with
  | VUndefined | VNull => Throw TypeError
  | _ => Return (map fst (own_props v))
  end.

(** [key in v], for the own properties of [v] (and [length] of an array):
    a [TypeError] unless [v] is an object or an array. *)
Definition has_property (key : string) (v : value) : outcome bool :=
  match v with
  | VObj props => Return (bool_decide (is_Some (assoc key props)))
  | VArr _ =>
      Return (String.eqb key "length" || bool_decide (is_Some (assoc key (own_props v))))
  | _ => Throw TypeError
  end.

(** [v[key]], for the own properties of [v] (and [length]). *)
Definition get (v : value) (key : string) : outcome value :=
  match v with
  | VUndefined | VNull => Throw TypeError
  | VArr items =>
      if String.eqb key "length" then Return (VNum (Z.of_nat (length items)))
      else Return (default VUndefined (assoc key (own_props v)))
  | VStr s =>
      if String.eqb key "length" then Return (VNum (Z.of_nat (String.length s)))
      else Return (default VUndefined (assoc key (own_props v)))
  | _ => Return (default VUndefined (assoc key (own_props v)))
  end.

(** [obj[key] = v] on a plain object: an existing property keeps its place. *)
Fixpoint set_prop {A} (key : string) (v : A) (props : list (string * A))
  : list (string * A) :=
  match props with
  | [] => [(key, v)]
  | (k, w) :: rest =>
      if String.eqb key k then (k, v) :: rest else (k, w) :: set_prop key v rest
  end.

(** Iteration order of [new Set(keys)]: first occurrences, in order. *)
Fixpoint set_of (seen keys : list string) : list string :=
  match keys with
  | [] => []
  | k :: rest =>
      if existsb (String.eqb k) seen then set_of seen rest
      else k :: set_of (k :: seen) rest
  end.

(** ** Field-level differ *)

Inductive FieldDifference :=
| Added (path : string) (value : value)
| Removed (path : string) (value : value)
| TypeChanged (path : string) (baseline current : value)
| ValueChanged (path : string) (baseline current : value)
| ArrayLengthChanged (path : string) (baseline current : nat).

Definition diff_path (d : FieldDifference) : string :=
  match d with
  | Added p _ | Removed p _ | TypeChanged p _ _ | ValueChanged p _ _
  | ArrayLengthChanged p _ _ => p
  end.

(** The [type] field of a difference. *)
Definition diff_type (d : FieldDifference) : string :=
  match d with
  | Added _ _ => "added"
  | Removed _ _ => "removed"
  | TypeChanged _ _ _ => "type_changed"
  | ValueChanged _ _ _ => "value_changed"
  | ArrayLengthChanged _ _ _ => "array_length_changed"
  end.

(** [path ? `${path}.${key}` : key] *)
Definition key_path (path key : string) : string :=
  if truthy (VStr path) then path +:+ "." +:+ key else key.

(** [`${currentPath}[${i}]`] *)
Definition item_path (currentPath : string) (i : nat) : string :=
  currentPath +:+ "[" +:+ string_of_nat i +:+ "]".

Section FieldDifferences.

(** The recursive call, as seen from the loop bodies. *)
Variable recur : value -> value -> string -> outcome (list FieldDifference).

(** Body of the loop over array positions ([seo_utils.js] lines 248-259). *)
Definition item_differences (currentPath : string) (i : nat) (bi ci : value)
  : outcome (list FieldDifference) :=
  let itemPath := item_path currentPath i in
  if is_nonnull_object bi && is_nonnull_object ci then recur bi ci itemPath
  else if strict_neq bi ci then Return [ValueChanged itemPath bi ci]
  else Return [].

(** [for (let i = 0; i < minLength; i++)]: the two arrays are walked in
    step from position [i] on, which stops at the shorter one. *)
Fixpoint items_differences (currentPath : string) (i : nat) (bs cs : list value)
  : outcome (list FieldDifference) :=
  match bs, cs with
  | bi :: bs', ci :: cs' =>
      d ← item_differences currentPath i bi ci;
      ds ← items_differences currentPath (S i) bs' cs';
      Return (d ++ ds)
  | _, _ => Return []
  end.

(** Body of [for (const key of allKeys)] ([seo_utils.js] lines 196-272). *)
Definition key_differences (baseline current : value) (path key : string)
  : outcome (list FieldDifference) :=
  let currentPath := key_path path key in
  in_baseline ← has_property key baseline;
  if negb in_baseline then
    v ← get current key; Return [Added currentPath v]
  else
  in_current ← has_property key current;
  if negb in_current then
    v ← get baseline key; Return [Removed currentPath v]
  else
  baselineValue ← get baseline key;
  currentValue ← get current key;
  if negb (String.eqb (typeof baselineValue) (typeof currentValue)) then
    Return [TypeChanged currentPath baselineValue currentValue]
  else if is_nonnull_object baselineValue && is_nonnull_object currentValue then
    match baselineValue, currentValue with
    | VArr bs, VArr cs =>
        let len :=
          if negb (Nat.eqb (length bs) (length cs))
          then [ArrayLengthChanged currentPath (length bs) (length cs)]
          else [] in
        ds ← items_differences currentPath 0 bs cs;
        Return (len ++ ds)
    | _, _ => recur baselineValue currentValue currentPath
    end
  else if strict_neq baselineValue currentValue then
    Return [ValueChanged currentPath baselineValue currentValue]
  else Return [].

Fixpoint keys_differences (baseline current : value) (path : string)
  (keys : list string) : outcome (list FieldDifference) :=
  match keys with
  | [] => Return []
  | key :: rest =>
      d ← key_differences baseline current path key;
      ds ← keys_differences baseline current path rest;
      Return (d ++ ds)
  end.

End FieldDifferences.

(** [baseline || {}] *)
Definition or_empty (v : value) : value :=
  if truthy v then v else VObj [].

(** [new Set([...Object.keys(baseline || {}), ...Object.keys(current || {})])] *)
Definition allKeys (baseline current : value) : list string :=
  set_of [] (map fst (own_props (or_empty baseline))
             ++ map fst (own_props (or_empty current))).

(** [findFieldDifferences] with a bound on the recursion depth. *)
Fixpoint findFieldDifferences_fuel (fuel : nat) (baseline current : value)
  (path : string) : outcome (list FieldDifference) :=
  match fuel with
  | 0 => Unmodelled
  | S fuel' =>
      keys_differences (findFieldDifferences_fuel fuel') baseline current path
        (allKeys baseline current)
  end.

(** Nesting depth of a value. *)
Fixpoint height (v : value) : nat :=
  match v with
  | VArr items => S (foldr (fun x n => max (height x) n) 0 items)
  | VObj props => S (foldr (fun kv n => max (height (snd kv)) n) 0 props)
  | _ => 0
  end.

(** [findFieldDifferences(baseline, current, path)]; the default value of
    [path] is the empty string. *)
Definition findFieldDifferences (baseline current : value) (path : string)
  : outcome (list FieldDifference) :=
  findFieldDifferences_fuel (S (height baseline)) baseline current path.

(** ** [JSON.stringify] and [JSON.parse] *)

Definition dquote : ascii := ascii_of_nat 34.
Definition backslash : ascii := ascii_of_nat 92.

Definition hex_digit (n : nat) : ascii :=
  if Nat.ltb n 10 then ascii_of_nat (48 + n) else ascii_of_nat (87 + n).

(** QuoteJSONString, one code unit. *)
Definition escape_char (c : ascii) : string :=
  let n := nat_of_ascii c in
  if Nat.eqb n 34 then String backslash (String dquote "")
  else if Nat.eqb n 92 then String backslash (String backslash "")
  else if Nat.eqb n 8 then String backslash "b"
  else if Nat.eqb n 9 then String backslash "t"
  else if Nat.eqb n 10 then String backslash "n"
  else if Nat.eqb n 12 then String backslash "f"
  else if Nat.eqb n 13 then String backslash "r"
  else if Nat.ltb n 32 then
    String backslash
      (String "u" (String "0" (String "0"
         (String (hex_digit (n / 16)) (String (hex_digit (n mod 16)) "")))))
  else String c "".

Fixpoint escape (s : string) : string :=
  match s with
  | EmptyString => ""
  | String c s' => escape_char c +:+ escape s'
  end.

Definition quote (s : string) : string :=
  String dquote (escape s +:+ String dquote "").

Definition string_of_Z (n : Z) : string :=
  match n with
  | Z0 => "0"
  | Zpos p => NilZero.string_of_uint (N.to_uint (Npos p))
  | Zneg p => String "-" (NilZero.string_of_uint (N.to_uint (Npos p)))
  end.

Definition newline : string := String (ascii_of_nat 10) "".

Definition join_with (sep : string) (parts : list string) : string :=
  match parts with
  | [] => ""
  | p :: rest => p +:+ foldr (fun x acc => sep +:+ x +:+ acc) "" rest
  end.

(** SerializeJSONArray / SerializeJSONObject: how the serialised members are
    wrapped, for the indentation unit [gap] and the current [indent]. *)
Definition wrap (open close gap indent : string) (partial : list string) : string :=
  match partial with
  | [] => open +:+ close
  | _ =>
      if String.eqb gap "" then open +:+ join_with "," partial +:+ close
      else
        let inner := indent +:+ gap in
        open +:+ newline +:+ inner
          +:+ join_with ("," +:+ newline +:+ inner) partial
          +:+ newline +:+ indent +:+ close
  end.

(** SerializeJSONProperty; [None] stands for the result [undefined]. *)
Fixpoint serialize (gap indent : string) (v : value) : option string :=
  match v with
  | VUndefined => None
  | VNull => Some "null"
  | VBool b => Some (if b then "true" else "false")
  | VNum n => Some (string_of_Z n)
  | VStr s => Some (quote s)
  | VArr items =>
      Some (wrap "[" "]" gap indent
              (map (fun x => default "null" (serialize gap (indent +:+ gap) x)) items))
  | VObj props =>
      Some (wrap "{" "}" gap indent
              (omap (fun kv =>
                       match serialize gap (indent +:+ gap) (snd kv) with
                       | Some text =>
                           Some (quote (fst kv) +:+ ":"
                                 +:+ (if String.eqb gap "" then "" else " ") +:+ text)
                       | None => None
                       end) props))
  end.

Fixpoint spaces (n : nat) : string :=
  match n with 0 => "" | S n' => String " " (spaces n') end.

(** [JSON.stringify(v, null, space)] for a numeric [space]. *)
Definition JSON_stringify (v : value) (space : nat) : option string :=
  serialize (spaces (Nat.min space 10)) "" v.

Definition is_ws (c : ascii) : bool :=
  let n := nat_of_ascii c in
  Nat.eqb n 32 || Nat.eqb n 9 || Nat.eqb n 10 || Nat.eqb n 13.

Fixpoint skip_ws (s : string) : string :=
  match s with
  | EmptyString => ""
  | String c s' => if is_ws c then skip_ws s' else s
  end.

Definition is_digit (c : ascii) : bool :=
  let n := nat_of_ascii c in Nat.leb 48 n && Nat.leb n 57.

Fixpoint span_digits (s : string) : string * string :=
  match s with
  | EmptyString => ("", "")
  | String c s' =>
      if is_digit c then (String c (span_digits s').1, (span_digits s').2)
      else ("", s)
  end.

(** The digits of a JSON number.  A fraction or an exponent is outside the
    integer model of numbers. *)
Definition parse_digits (s : string) : outcome (Z * string) :=
  let digits := (span_digits s).1 in
  let rest := (span_digits s).2 in
  match NilZero.uint_of_string digits with
  | None => Throw SyntaxError
  | Some d =>
      match digits with
      | String "0" (String _ _) => Throw SyntaxError
      | _ =>
          match rest with
          | String c _ =>
              if Ascii.eqb c "." || Ascii.eqb c "e" || Ascii.eqb c "E"
              then Unmodelled
              else Return (Z.of_N (N.of_uint d), rest)
          | EmptyString => Return (Z.of_N (N.of_uint d), rest)
          end
      end
  end.

Definition parse_number (s : string) : outcome (value * string) :=
  match s with
  | String "-" s' => '(n, rest) ← parse_digits s'; Return (VNum (- n), rest)
  | _ => '(n, rest) ← parse_digits s; Return (VNum n, rest)
  end.

Definition hex_value (c : ascii) : option nat :=
  let n := nat_of_ascii c in
  if Nat.leb 48 n && Nat.leb n 57 then Some (n - 48)
  else if Nat.leb 97 n && Nat.leb n 102 then Some (n - 87)
  else if Nat.leb 65 n && Nat.leb n 70 then Some (n - 55)
  else None.

Definition hex4 (a b c d : ascii) : option nat :=
  x ← hex_value a; y ← hex_value b; z ← hex_value c; w ← hex_value d;
  Some (((x * 16 + y) * 16 + z) * 16 + w).

(** The character denoted by a one-letter escape. *)
Definition unescape (e : ascii) : option ascii :=
  if Ascii.eqb e dquote then Some dquote
  else if Ascii.eqb e backslash then Some backslash
  else if Ascii.eqb e "/" then Some "/"%char
  else if Ascii.eqb e "b" then Some (ascii_of_nat 8)
  else if Ascii.eqb e "t" then Some (ascii_of_nat 9)
  else if Ascii.eqb e "n" then Some (ascii_of_nat 10)
  else if Ascii.eqb e "f" then Some (ascii_of_nat 12)
  else if Ascii.eqb e "r" then Some (ascii_of_nat 13)
  else None.

(** The rest of a string literal, after its opening quote.  A code unit
    above 255 is outside the model of strings. *)
Fixpoint parse_chars (s : string) : outcome (string * string) :=
  match s with
  | EmptyString => Throw SyntaxError
  | String c rest =>
      if Ascii.eqb c dquote then Return ("", rest)
      else if Ascii.eqb c backslash then
        match rest with
        | EmptyString => Throw SyntaxError
        | String e rest' =>
            if Ascii.eqb e "u" then
              match rest' with
              | String h1 (String h2 (String h3 (String h4 rest''))) =>
                  match hex4 h1 h2 h3 h4 with
                  | None => Throw SyntaxError
                  | Some n =>
                      if Nat.ltb n 256 then
                        '(text, r) ← parse_chars rest'';
                        Return (String (ascii_of_nat n) text, r)
                      else Unmodelled
                  end
              | _ => Throw SyntaxError
              end
            else
              match unescape e with
              | None => Throw SyntaxError
              | Some ch =>
                  '(text, r) ← parse_chars rest'; Return (String ch text, r)
              end
        end
      else if Nat.ltb (nat_of_ascii c) 32 then Throw SyntaxError
      else '(text, r) ← parse_chars rest; Return (String c text, r)
  end.

(** [s] without its prefix [word], when it starts with [word]. *)
Fixpoint strip_prefix (word s : string) : option string :=
  match word with
  | EmptyString => Some s
  | String c word' =>
      match s with
      | EmptyString => None
      | String d s' => if Ascii.eqb c d then strip_prefix word' s' else None
      end
  end.

Definition parse_literal (word : string) (v : value) (s : string)
  : outcome (value * string) :=
  match strip_prefix word s with
  | Some rest => Return (v, rest)
  | None => Throw SyntaxError
  end.

(** [s] without its first character, when that is [c]. *)
Definition head_is (c : ascii) (s : string) : option string :=
  match s with
  | EmptyString => None
  | String d rest => if Ascii.eqb c d then Some rest else None
  end.

(** Recursive-descent parser; [fuel] bounds the number of calls. *)
Fixpoint parse_value (fuel : nat) (s : string) : outcome (value * string) :=
  match fuel with
  | 0 => Unmodelled
  | S fuel' =>
      match skip_ws s with
      | EmptyString => Throw SyntaxError
      | String c rest =>
          if Ascii.eqb c "{" then
            match head_is "}" (skip_ws rest) with
            | Some rest' => Return (VObj [], rest')
            | None => parse_members fuel' rest []
            end
          else if Ascii.eqb c "[" then
            match head_is "]" (skip_ws rest) with
            | Some rest' => Return (VArr [], rest')
            | None => parse_elements fuel' rest []
            end
          else if Ascii.eqb c dquote then
            '(text, r) ← parse_chars rest; Return (VStr text, r)
          else if Ascii.eqb c "-" || is_digit c then parse_number (String c rest)
          else if Ascii.eqb c "n" then parse_literal "null" VNull (String c rest)
          else if Ascii.eqb c "t" then parse_literal "true" (VBool true) (String c rest)
          else if Ascii.eqb c "f" then parse_literal "false" (VBool false) (String c rest)
          else Throw SyntaxError
      end
  end
with parse_elements (fuel : nat) (s : string) (acc : list value)
  : outcome (value * string) :=
  match fuel with
  | 0 => Unmodelled
  | S fuel' =>
      '(v, rest) ← parse_value fuel' s;
      match head_is "," (skip_ws rest) with
      | Some rest' => parse_elements fuel' rest' (acc ++ [v])
      | None =>
          match head_is "]" (skip_ws rest) with
          | Some rest' => Return (VArr (acc ++ [v]), rest')
          | None => Throw SyntaxError
          end
      end
  end
with parse_members (fuel : nat) (s : string) (acc : list (string * value))
  : outcome (value * string) :=
  match fuel with
  | 0 => Unmodelled
  | S fuel' =>
      match head_is dquote (skip_ws s) with
      | None => Throw SyntaxError
      | Some rest =>
          '(key, rest1) ← parse_chars rest;
          match head_is ":" (skip_ws rest1) with
          | None => Throw SyntaxError
          | Some rest2 =>
              '(v, rest3) ← parse_value fuel' rest2;
              match head_is "," (skip_ws rest3) with
              | Some rest4 => parse_members fuel' rest4 (set_prop key v acc)
              | None =>
                  match head_is "}" (skip_ws rest3) with
                  | Some rest4 => Return (VObj (set_prop key v acc), rest4)
                  | None => Throw SyntaxError
                  end
              end
          end
      end
  end.

(** [JSON.parse(text)] *)
Definition JSON_parse (text : string) : outcome value :=
  '(v, rest) ← parse_value (2 * String.length text + 2) text;
  if String.eqb (skip_ws rest) "" then Return v else Throw SyntaxError.

(** The JSON-compatible values: no [undefined] inside, and the keys of each
    object are pairwise distinct. *)
Fixpoint is_json (v : value) : bool :=
  match v with
  | VUndefined => false
  | VArr items => forallb is_json items
  | VObj props =>
      forallb (fun kv => is_json (snd kv)) props
      && bool_decide (NoDup (map fst props))
  | _ => true
  end.

(** ** The file system ([fs], [path]) *)

(** A path is the list of its components, from the root. *)
Abbreviation file_path := (list string).

Inductive node :=
| File (data : string) (writable : bool)
| Directory (writable : bool).

Abbreviation filesystem := (gmap file_path node).

(** [path.join(dir, name)], for a [name] without separators. *)
Definition path_join (dir : file_path) (name : string) : file_path := dir ++ [name].

Definition dirname (p : file_path) : file_path := removelast p.

(** [fs.existsSync(p)] *)
Definition existsSync (fs : filesystem) (p : file_path) : bool :=
  bool_decide (is_Some (fs !! p)).

(** [fs.readFileSync(p, 'utf8')] *)
Definition readFileSync (fs : filesystem) (p : file_path) : outcome string :=
  match fs !! p with
  | Some (File data _) => Return data
  | Some (Directory _) => Throw (SystemError "EISDIR")
  | None => Throw (SystemError "ENOENT")
  end.

(** [fs.writeFileSync(p, data)]: the whole file is replaced. *)
Definition writeFileSync (fs : filesystem) (p : file_path) (data : string)
  : outcome filesystem :=
  match fs !! p with
  | Some (File _ true) => Return (<[p := File data true]> fs)
  | Some (File _ false) => Throw (SystemError "EACCES")
  | Some (Directory _) => Throw (SystemError "EISDIR")
  | None =>
      match fs !! dirname p with
      | Some (Directory true) => Return (<[p := File data true]> fs)
      | Some (Directory false) => Throw (SystemError "EACCES")
      | Some (File _ _) => Throw (SystemError "ENOTDIR")
      | None => Throw (SystemError "ENOENT")
      end
  end.

(** [fs.mkdirSync(p, { recursive: true })]: the components [rest] below the
    directory [prefix] are created one after the other where missing. *)
Fixpoint mkdir_from (fs : filesystem) (prefix rest : file_path) : outcome filesystem :=
  match rest with
  | [] => Return fs
  | c :: rest' =>
      let p := prefix ++ [c] in
      match fs !! p with
      | Some (Directory _) => mkdir_from fs p rest'
      | Some (File _ _) =>
          Throw (SystemError (if bool_decide (rest' = []) then "EEXIST" else "ENOTDIR"))
      | None =>
          match fs !! prefix with
          | Some (Directory true) => mkdir_from (<[p := Directory true]> fs) p rest'
          | Some (Directory false) => Throw (SystemError "EACCES")
          | Some (File _ _) => Throw (SystemError "ENOTDIR")
          | None => Throw (SystemError "ENOENT")
          end
      end
  end.

Definition mkdirSync_recursive (fs : filesystem) (p : file_path) : outcome filesystem :=
  mkdir_from fs [] p.

(** ** Comparison results *)

(** An entry of [missingData] / [newData]. *)
Record DataEntry := { entry_index : nat; entry_data : value }.

(** An entry of the json-ld [differences]; [fieldDifferences] is absent on
    the parse-error path. *)
Record JsonLdDifference := {
  index : nat;
  baseline : value;
  current : value;
  fieldDifferences : option (list FieldDifference)
}.

Record JsonLdResult := {
  matches : bool;
  differences : list JsonLdDifference;
  missingData : list DataEntry;
  newData : list DataEntry
}.

(** The value of [differences[key]] for the meta-tags kind. *)
Record ContentChange := { baseline_content : value; current_content : value }.

Record MetaTagsResult := {
  tags_match : bool;
  tag_differences : list (string * ContentChange);
  missingTags : list string;
  newTags : list string
}.

Inductive ComparisonResult :=
| JsonLdComparison (r : JsonLdResult)
| MetaTagsComparison (r : MetaTagsResult).

(** ** [compareJsonLdWithBaseline] *)

(** [{ index: i, data: items[i].data }] for the trailing [items], numbered
    from [i] ([seo_utils.js] lines 87-92 and 97-102). *)
Fixpoint trailing_entries (i : nat) (items : list value) : outcome (list DataEntry) :=
  match items with
  | [] => Return []
  | item :: rest =>
      d ← get item "data";
      entries ← trailing_entries (S i) rest;
      Return ({| entry_index := i; entry_data := d |} :: entries)
  end.

(** Body of the loop over the overlapping prefix (lines 108-135).  Both
    [error] fields are read before anything is pushed: when the left operand
    of [||] is truthy the right one is still read by the [!==] that follows. *)
Definition block_differences (i : nat) (baselineItem currentItem : value)
  : outcome (list JsonLdDifference) :=
  baselineError ← get baselineItem "error";
  currentError ← get currentItem "error";
  if truthy baselineError || truthy currentError then
    if strict_neq baselineError currentError then
      Return [{| index := i; baseline := baselineItem; current := currentItem;
                 fieldDifferences := None |}]
    else Return []
  else
    baselineData ← get baselineItem "data";
    currentData ← get currentItem "data";
    let baselineJson := JSON_stringify baselineData 0 in
    let currentJson := JSON_stringify currentData 0 in
    if bool_decide (baselineJson ≠ currentJson) then
      fields ← findFieldDifferences baselineData currentData "";
      Return [{| index := i; baseline := baselineData; current := currentData;
                 fieldDifferences := Some fields |}]
    else Return [].

Fixpoint blocks_differences (i : nat) (baselineJsonLd jsonLdData : list value)
  : outcome (list JsonLdDifference) :=
  match baselineJsonLd, jsonLdData with
  | baselineItem :: bs, currentItem :: cs =>
      d ← block_differences i baselineItem currentItem;
      ds ← blocks_differences (S i) bs cs;
      Return (d ++ ds)
  | _, _ => Return []
  end.

Definition is_nullish (v : value) : bool :=
  match v with VUndefined | VNull => true | _ => false end.

(** [compareJsonLdWithBaseline(jsonLdData, baselineJsonLd)].  Both arguments
    are arrays (their JSDoc type); reading [.length] of [undefined] or [null]
    throws, and array-like values that are not arrays are not modelled. *)
Definition compareJsonLdWithBaseline (jsonLdData baselineJsonLd : value)
  : outcome JsonLdResult :=
  if is_nullish baselineJsonLd || is_nullish jsonLdData then Throw TypeError else
  match baselineJsonLd, jsonLdData with
  | VArr base, VArr cur =>
      missing ←
        (if Nat.ltb (length cur) (length base)
         then trailing_entries (length cur) (drop (length cur) base)
         else Return []);
      new ←
        (if Nat.ltb (length base) (length cur)
         then trailing_entries (length base) (drop (length base) cur)
         else Return []);
      diffs ← blocks_differences 0 base cur;
      let matches :=
        Nat.eqb (length diffs) 0 && Nat.eqb (length missing) 0
        && Nat.eqb (length new) 0 in
      Return {| matches := matches; differences := diffs;
                missingData := missing; newData := new |}
  | _, _ => Unmodelled
  end.

(** ** [compareMetaTagsWithBaseline] *)

(** Body of [Object.keys(baselineMetaTags).forEach] (lines 157-164); the
    state is the pair of [differences] and [missingTags]. *)
Definition baseline_tag_step (metaTags baselineMetaTags : value)
  (acc : list (string * ContentChange) * list string) (key : string)
  : outcome (list (string * ContentChange) * list string) :=
  currentTag ← get metaTags key;
  if negb (truthy currentTag) then Return (acc.1, acc.2 ++ [key])
  else
    baselineTag ← get baselineMetaTags key;
    baselineContent ← get baselineTag "content";
    currentContent ← get currentTag "content";
    if strict_neq baselineContent currentContent then
      Return (set_prop key {| baseline_content := baselineContent;
                              current_content := currentContent |} acc.1, acc.2)
    else Return acc.

(** Body of [Object.keys(metaTags).forEach] (lines 169-171). *)
Definition new_tag_step (baselineMetaTags : value) (acc : list string) (key : string)
  : outcome (list string) :=
  baselineTag ← get baselineMetaTags key;
  if negb (truthy baselineTag) then Return (acc ++ [key]) else Return acc.

(** [keys.forEach(step)] over an accumulator. *)
Fixpoint forEach {S} (step : S -> string -> outcome S) (keys : list string) (acc : S)
  : outcome S :=
  match keys with
  | [] => Return acc
  | key :: rest => acc' ← step acc key; forEach step rest acc'
  end.

Definition compareMetaTagsWithBaseline (metaTags baselineMetaTags : value)
  : outcome MetaTagsResult :=
  baselineKeys ← Object_keys baselineMetaTags;
  '(differences, missing) ←
    forEach (baseline_tag_step metaTags baselineMetaTags) baselineKeys ([], []);
  currentKeys ← Object_keys metaTags;
  new ← forEach (new_tag_step baselineMetaTags) currentKeys [];
  let matches :=
    Nat.eqb (length differences) 0 && Nat.eqb (length missing) 0
    && Nat.eqb (length new) 0 in
  Return {| tags_match := matches; tag_differences := differences;
            missingTags := missing; newTags := new |}.

(** ** [compareWithBaseline], [updateBaseline], [ensureBaselineDirectory] *)

(** [path.join(baselinePath, `${pageName}-baseline.json`)] *)
Definition baselineFile (baselinePath : file_path) (pageName : string) : file_path :=
  path_join baselinePath (pageName +:+ "-baseline.json").

(** [fs.writeFileSync(file, JSON.stringify(data, null, 2))] *)
Definition write_json (fs : filesystem) (file : file_path) (data : value)
  : outcome filesystem :=
  match JSON_stringify data 2 with
  | Some text => writeFileSync fs file text
  | None => Throw TypeError
  end.

(** The baseline document written on the first run (lines 49-51). *)
Definition first_baseline (extractedData : value) (baselineType : string)
  : outcome value :=
  if String.eqb baselineType "json-ld" then
    count ← get extractedData "length";
    Return (VObj [("jsonLdData", extractedData); ("count", count)])
  else
    keys ← Object_keys extractedData;
    Return (VObj [("metaTags", extractedData);
                  ("metaTagCount", VNum (Z.of_nat (length keys)))]).

(** The result returned on the first run (lines 55-57). *)
Definition first_result (baselineType : string) : ComparisonResult :=
  if String.eqb baselineType "json-ld" then
    JsonLdComparison {| matches := true; differences := [];
                        missingData := []; newData := [] |}
  else
    MetaTagsComparison {| tags_match := true; tag_differences := [];
                          missingTags := []; newTags := [] |}.

(** [JSON.parse(fs.readFileSync(file, 'utf8'))] (line 61). *)
Definition loadBaseline (fs : filesystem) (file : file_path) : outcome value :=
  text ← readFileSync fs file;
  JSON_parse text.

(** [compareWithBaseline(extractedData, pageName, baselinePath, baselineType)]
    run on the file system [fs]; the result comes with the file system it
    leaves behind.  [console.log] is not modelled. *)
Definition compareWithBaseline (extractedData : value) (pageName : string)
  (baselinePath : file_path) (baselineType : string) (fs : filesystem)
  : outcome (ComparisonResult * filesystem) :=
  let file := baselineFile baselinePath pageName in
  if negb (existsSync fs file) then
    baselineData ← first_baseline extractedData baselineType;
    fs' ← write_json fs file baselineData;
    Return (first_result baselineType, fs')
  else
    baselineData ← loadBaseline fs file;
    if String.eqb baselineType "json-ld" then
      stored ← get baselineData "jsonLdData";
      r ← compareJsonLdWithBaseline extractedData stored;
      Return (JsonLdComparison r, fs)
    else if String.eqb baselineType "meta-tags" then
      stored ← get baselineData "metaTags";
      r ← compareMetaTagsWithBaseline extractedData stored;
      Return (MetaTagsComparison r, fs)
    else Throw (Error ("Unsupported baseline type: " +:+ baselineType)).

(** [updateBaseline(extractedData, pageName, baselinePath, baselineType)];
    [now] is the value of [new Date().toISOString()]. *)
Definition updateBaseline (now : string) (extractedData : value) (pageName : string)
  (baselinePath : file_path) (baselineType : string) (fs : filesystem)
  : outcome filesystem :=
  let file := baselineFile baselinePath pageName in
  baselineData ←
    (if String.eqb baselineType "json-ld" then
       count ← get extractedData "length";
       Return (VObj [("jsonLdData", extractedData); ("count", count);
                     ("lastUpdated", VStr now)])
     else
       keys ← Object_keys extractedData;
       Return (VObj [("metaTags", extractedData);
                     ("metaTagCount", VNum (Z.of_nat (length keys)));
                     ("lastUpdated", VStr now)]));
  write_json fs file baselineData.

(** [ensureBaselineDirectory(baselinePath)] *)
Definition ensureBaselineDirectory (baselinePath : file_path) (fs : filesystem)
  : outcome filesystem :=
  if negb (existsSync fs baselinePath) then mkdirSync_recursive fs baselinePath
  else Return fs.

(** ** [extractJsonLdData], [extractMetaTags] *)

(** Both functions run their callback in the page.  The part of the document
    they read is given as data: the text of each
    [script[type="application/ld+json"]] element, and for the [head] the
    attributes of each [meta] element, in document order, with the text of
    the [title] element if there is one.  What [page.evaluate] hands back is
    the value the callback returned. *)

(** The callback of [extractJsonLdData] on one script (lines 326-338);
    [message] gives the [error.message] of the [SyntaxError] raised on a
    text. *)
Definition jsonLdBlock (message : string -> string) (index : nat) (text : string)
  : outcome value :=
  match JSON_parse text with
  | Return jsonContent =>
      Return (VObj [("index", VNum (Z.of_nat index)); ("data", jsonContent)])
  | Throw _ =>
      Return (VObj [("index", VNum (Z.of_nat index));
                    ("error", VStr ("Invalid JSON: " +:+ message text));
                    ("rawContent", VStr text)])
  | Unmodelled => Unmodelled
  end.

(** [jsonLdScripts.forEach((script, index) => ...)], from [index] on. *)
Fixpoint jsonLdBlocks (message : string -> string) (index : nat) (scripts : list string)
  : outcome (list value) :=
  match scripts with
  | [] => Return []
  | text :: rest =>
      block ← jsonLdBlock message index text;
      blocks ← jsonLdBlocks message (S index) rest;
      Return (block :: blocks)
  end.

(** [extractJsonLdData(page)] on the texts of the page's JSON-LD scripts. *)
Definition extractJsonLdData (message : string -> string) (scripts : list string)
  : outcome value :=
  blocks ← jsonLdBlocks message 0 scripts;
  Return (VArr blocks).

(** The attributes of an element: names and values, in order. *)
Abbreviation attributes := (list (string * string)).

(** What [extractMetaTags] reads of the document. *)
Record head := {
  head_metas : list attributes;
  head_title : option string
}.

(** [meta.getAttribute(name)], when it is truthy (present and not empty). *)
Definition truthy_attribute (name : string) (meta : attributes) : option string :=
  match assoc name meta with
  | Some text => if String.eqb text "" then None else Some text
  | None => None
  end.

Definition is_word_char (c : ascii) : bool :=
  let n := nat_of_ascii c in
  (Nat.leb 97 n && Nat.leb n 122) || (Nat.leb 65 n && Nat.leb n 90)
  || (Nat.leb 48 n && Nat.leb n 57) || Nat.eqb n 95.

(** [s.replace(/[^a-zA-Z0-9_]/g, '_')] *)
Fixpoint replace_non_word (s : string) : string :=
  match s with
  | EmptyString => ""
  | String c s' => String (if is_word_char c then c else "_"%char) (replace_non_word s')
  end.

(** [s.toLowerCase()], on the letters A-Z. *)
Fixpoint toLowerCase (s : string) : string :=
  match s with
  | EmptyString => ""
  | String c s' =>
      let n := nat_of_ascii c in
      String (if Nat.leb 65 n && Nat.leb n 90 then ascii_of_nat (n + 32) else c)
             (toLowerCase s')
  end.

(** The key under which a [meta] element is stored (lines 360-377). *)
Definition meta_key (index : nat) (meta : attributes) : string :=
  let key :=
    match truthy_attribute "name" meta with
    | Some name => "meta_" +:+ name
    | None =>
        match truthy_attribute "property" meta with
        | Some property => "meta_" +:+ property
        | None =>
            match truthy_attribute "http-equiv" meta with
            | Some equiv => "meta_" +:+ equiv
            | None =>
                match truthy_attribute "charset" meta with
                | Some _ => "meta_charset"
                | None => "meta_" +:+ string_of_nat index
                end
            end
        end
    end in
  toLowerCase (replace_non_word key).

(** [metaInfo]: one property per attribute, then [content] once more when
    it is truthy (lines 380-388). *)
Definition meta_info (meta : attributes) : list (string * value) :=
  let metaInfo :=
    foldl (fun info attr => set_prop attr.1 (VStr attr.2) info) [] meta in
  match truthy_attribute "content" meta with
  | Some content => set_prop "content" (VStr content) metaInfo
  | None => metaInfo
  end.

(** [document.querySelectorAll('head meta').forEach((meta, index) => ...)],
    from [index] on, over the [metaTags] built so far. *)
Fixpoint store_metas (index : nat) (metas : list attributes)
  (metaTags : list (string * value)) : list (string * value) :=
  match metas with
  | [] => metaTags
  | meta :: rest =>
      store_metas (S index) rest
        (set_prop (meta_key index meta) (VObj (meta_info meta)) metaTags)
  end.

(** [extractMetaTags(page)] on the head of the page. *)
Definition extractMetaTags (h : head) : value :=
  let metaTags := store_metas 0 (head_metas h) [] in
  VObj (match head_title h with
        | Some text => set_prop "title" (VObj [("content", VStr text)]) metaTags
        | None => metaTags
        end).

(** * Vocabulary of the properties *)

(** No separator ([/], and the backslash of Windows paths) and no NUL
    character, which [fs] refuses in a path. *)
Fixpoint no_separator (name : string) : bool :=
  match name with
  | EmptyString => true
  | String c rest =>
      negb (Ascii.eqb c "/") && negb (Ascii.eqb c backslash)
      && negb (Ascii.eqb c Ascii.zero) && no_separator rest
  end.

(** A page name that [path.join] keeps inside one component of the path,
    and short enough for that component to be the name of a file (file
    systems take names of up to 255 bytes). *)
Definition plain_name (name : string) : bool :=
  Nat.leb (String.length name) 100 && no_separator name.

(** The names every object inherits from [Object.prototype]: the [in]
    operator and a property read find them although they are no own keys,
    and an assignment to [__proto__] sets the prototype. *)
Definition inherited_name (key : string) : bool :=
  existsb (String.eqb key)
    ["constructor"; "hasOwnProperty"; "isPrototypeOf"; "propertyIsEnumerable";
     "toLocaleString"; "toString"; "valueOf"; "__proto__";
     "__defineGetter__"; "__defineSetter__"; "__lookupGetter__"; "__lookupSetter__"].

(** No own key of the object is one of the inherited names. *)
Definition own_names (props : list (string * value)) : bool :=
  forallb (fun kv => negb (inherited_name kv.1)) props.

(** A name that an assignment [obj[name] = v] stores as an own property at
    the end of the enumeration order: not [__proto__], and not starting with
    a digit, so not integer-like. *)
Definition ordinary_name (name : string) : bool :=
  negb (String.eqb name "__proto__")
  && match name with
     | String c _ => negb (is_digit c)
     | EmptyString => true
     end.

(** Every difference lies strictly below a non-empty [path]. *)
Definition below (path : string) (ds : list FieldDifference) : Prop :=
  Forall (fun d => path <> "" -> String.length path < String.length (diff_path d)) ds.

Definition strictly_below (path : string) (ds : list FieldDifference) : Prop :=
  Forall (fun d => String.length path < String.length (diff_path d)) ds.


Definition result_matches (r : ComparisonResult) : bool :=
  match r with
  | JsonLdComparison r => matches r
  | MetaTagsComparison r => tags_match r
  end.

(** The three difference buckets of a result are all empty. *)
Definition buckets_empty (r : ComparisonResult) : Prop :=
  match r with
  | JsonLdComparison r => differences r = [] /\ missingData r = [] /\ newData r = []
  | MetaTagsComparison r =>
      tag_differences r = [] /\ missingTags r = [] /\ newTags r = []
  end.

(** The meta tags of a page with the given title. *)
Definition demo_tags (title : string) : value :=
  VObj [("meta_description", VObj [("name", VStr "description"); ("content", VStr "Lessons")]);
        ("title", VObj [("content", VStr title)])].

(** An empty baseline directory. *)
Definition demo_dirs : filesystem :=
  {[ [] := Directory true; ["baselines"] := Directory true ]}.

(** The baseline directory holding the meta-tags baseline of page [home]. *)
Definition demo_fs : filesystem :=
  <[ ["baselines"; "home-baseline.json"] :=
       File (default "" (JSON_stringify
                           (VObj [("metaTags", demo_tags "A");
                                  ("metaTagCount", VNum 2)]) 2)) true ]> demo_dirs.

(** The [content] field of a tag ([undefined] when the tag has none). *)
Definition content_of (tag : value) : outcome value := get tag "content".

(** What a comparison reads of a tag: whether it is truthy, and its content. *)
Definition tag_view (tag : value) : bool * outcome value :=
  (truthy tag, content_of tag).

(** Two tag maps with the same keys in the same order whose tags agree on
    what a comparison reads of them. *)
Definition same_contents (tags1 tags2 : list (string * value)) : Prop :=
  Forall2 (fun kt1 kt2 => kt1.1 = kt2.1 /\ tag_view kt1.2 = tag_view kt2.2) tags1 tags2.

(** The entry of [differences] decided for [key] by the first loop. *)
Definition content_entry (metaTags baselineMetaTags : value) (key : string)
  : outcome (option ContentChange) :=
  currentTag ← get metaTags key;
  if negb (truthy currentTag) then Return None
  else
    baselineTag ← get baselineMetaTags key;
    baselineContent ← get baselineTag "content";
    currentContent ← get currentTag "content";
    Return (if strict_neq baselineContent currentContent
            then Some {| baseline_content := baselineContent;
                         current_content := currentContent |}
            else None).


(** [fs'] is [fs] with some missing paths created as writable directories. *)
Definition grown (fs fs' : filesystem) : Prop :=
  forall q, fs' !! q = fs !! q \/ (fs !! q = None /\ fs' !! q = Some (Directory true)).


(** Strings made of JSON whitespace only. *)
Fixpoint all_ws (s : string) : bool :=
  match s with
  | EmptyString => true
  | String c s' => is_ws c && all_ws s'
  end.

(** The first character of a serialised value: not whitespace, and not a
    closing bracket. *)
Definition value_start (s : string) : bool :=
  match s with
  | EmptyString => false
  | String c _ => negb (is_ws c) && negb (Ascii.eqb c "]")
  end.

(** Nothing that could continue a number. *)
Definition number_end (s : string) : bool :=
  match s with
  | EmptyString => true
  | String c _ =>
      negb (is_digit c || Ascii.eqb c "." || Ascii.eqb c "e" || Ascii.eqb c "E")
  end.

Fixpoint all_digits (s : string) : bool :=
  match s with
  | EmptyString => true
  | String c s' => is_digit c && all_digits s'
  end.

(** A decimal numeral without superfluous leading zero. *)
Definition normal (d : Decimal.uint) : Prop :=
  d <> Decimal.Nil /\ forall d', d = Decimal.D0 d' -> d' = Decimal.Nil.

(** The serialised members after the first one, up to the closing bracket:
    [w1] follows each comma and [w2] precedes the bracket. *)
Fixpoint tail_text (w1 w2 : string) (close : ascii) (texts : list string) : string :=
  match texts with
  | [] => w2 +:+ String close ""
  | t :: ts => String "," (w1 +:+ t +:+ tail_text w1 w2 close ts)
  end.

Definition inner_ws (gap indent : string) : string :=
  if String.eqb gap "" then "" else newline +:+ indent +:+ gap.

Definition outer_ws (gap indent : string) : string :=
  if String.eqb gap "" then "" else newline +:+ indent.

(** [t] is a serialisation of [x] that parses back to [x], whatever
    whitespace precedes it and whatever follows the value. *)
Definition parses (x : value) (t : string) : Prop :=
  value_start t = true
  /\ forall w rest fuel,
       all_ws w = true -> number_end rest = true ->
       2 * String.length t + 1 <= fuel ->
       parse_value fuel (w +:+ t +:+ rest) = Return (x, rest).

Definition member_text (gap k t : string) : string :=
  quote k +:+ ":" +:+ (if String.eqb gap "" then "" else " ") +:+ t.

Definition member_parses (gap : string) (kv : string * value) (m : string) : Prop :=
  exists t, m = member_text gap kv.1 t /\ parses kv.2 t.

(** The field of the baseline document that holds the payload. *)
Definition payload_field (baselineType : string) : string :=
  if String.eqb baselineType "json-ld" then "jsonLdData" else "metaTags".

(** [fs.writeFileSync] succeeds on [p]: an existing writable file, or a new
    file in an existing writable directory. *)
Definition can_write (fs : filesystem) (p : file_path) : bool :=
  match fs !! p with
  | Some (File _ w) => w
  | Some (Directory _) => false
  | None =>
      match fs !! dirname p with
      | Some (Directory true) => true
      | _ => false
      end
  end.

(** The JSON-LD blocks of a page. *)
Definition demo_blocks : value :=
  VArr [VObj [("index", VNum 0);
              ("data", VObj [("@type", VStr "Course"); ("name", VStr "Biology")])]].

(** The field of the baseline document that holds the count. *)
Definition count_field (baselineType : string) : string :=
  if String.eqb baselineType "json-ld" then "count" else "metaTagCount".

(** ** Comparable data, and what the extractors build *)

(** [p] is [q] followed by something. *)
Definition starts_with (q p : string) : Prop := exists s, p = q +:+ s.

(** The root call makes the [in] operator throw: the baseline is not an
    object while there is a key to look at, or the baseline has a key and the
    current value is not an object. *)
Definition throws_at_root (baseline current : value) : bool :=
  if is_nonnull_object baseline
  then negb (is_nonnull_object current)
       && negb (bool_decide (own_props baseline = []))
  else negb (bool_decide (allKeys baseline current = [])).

(** A block that can stand on both sides of a comparison: reading its
    fields does not throw, and its [error] is not an object. *)
Definition comparable_block (block : value) : bool :=
  negb (is_nullish block)
  && match get block "error" with
     | Return e => negb (is_nonnull_object e)
     | _ => false
     end.

(** The all-empty result of the json-ld kind. *)
Definition json_ld_match : JsonLdResult :=
  {| matches := true; differences := []; missingData := []; newData := [] |}.

(** [!tags[key]] *)
Definition absent_in (tags : list (string * value)) (key : string) : bool :=
  negb (truthy (default VUndefined (assoc key tags))).

(** A tag that can stand on both sides of a comparison: it is truthy and
    its [content] is not an object. *)
Definition comparable_tag (tag : value) : bool :=
  truthy tag
  && match get tag "content" with
     | Return c => negb (is_nonnull_object c)
     | _ => false
     end.

(** The all-empty result of the meta-tags kind. *)
Definition meta_tags_match : MetaTagsResult :=
  {| tags_match := true; tag_differences := []; missingTags := []; newTags := [] |}.

(** Extracted data of the given kind that compares equal to itself: an
    array of comparable blocks, or an object of comparable tags. *)
Definition comparable (baselineType : string) (data : value) : bool :=
  if String.eqb baselineType "json-ld" then
    match data with
    | VArr blocks => forallb comparable_block blocks
    | _ => false
    end
  else
    match data with
    | VObj tags => forallb (fun kt => comparable_tag kt.2) tags
    | _ => false
    end.

(** The other of the two kinds of baseline. *)
Definition other_kind (baselineType : string) : string :=
  if String.eqb baselineType "json-ld" then "meta-tags" else "json-ld".

(** The block pushed for a script: its position with the parsed [data], or
    with the [error] and the raw text when the text does not parse. *)
Definition block_of (message : string -> string) (index : nat) (text : string)
  (block : value) : Prop :=
  (exists jsonContent,
      JSON_parse text = Return jsonContent
      /\ block = VObj [("index", VNum (Z.of_nat index)); ("data", jsonContent)])
  \/ (exists e,
         JSON_parse text = Throw e
         /\ block = VObj [("index", VNum (Z.of_nat index));
                          ("error", VStr ("Invalid JSON: " +:+ message text));
                          ("rawContent", VStr text)]).

(** A lower-case letter, a digit or an underscore. *)
Definition is_key_char (c : ascii) : bool :=
  let n := nat_of_ascii c in
  (Nat.leb 97 n && Nat.leb n 122) || (Nat.leb 48 n && Nat.leb n 57) || Nat.eqb n 95.

Fixpoint all_chars (f : ascii -> bool) (s : string) : bool :=
  match s with
  | EmptyString => true
  | String c s' => f c && all_chars f s'
  end.

(** The object [{ name: value, ... }] of the attributes of an element. *)
Definition attributes_object (meta : attributes) : list (string * value) :=
  map (fun attr => (attr.1, VStr attr.2)) meta.

(** The object stored under [title]. *)
Definition title_tag (text : string) : value := VObj [("content", VStr text)].

(** A stored tag: an object of strings under pairwise distinct names. *)
Definition string_object (tag : value) : Prop :=
  exists props, tag = VObj props
                /\ Forall (fun p => exists s, p.2 = VStr s) props
                /\ NoDup (map fst props).

(** Two blocks at the same position on which the comparison throws: neither
    has a truthy [error], their [data] serialise differently, and the differ
    throws at the root on them. *)
Definition block_clash (baselineItem currentItem : value) : bool :=
  match get baselineItem "error", get currentItem "error",
        get baselineItem "data", get currentItem "data" with
  | Return baselineError, Return currentError, Return baselineData, Return currentData =>
      negb (truthy baselineError || truthy currentError)
      && bool_decide (JSON_stringify baselineData 0 ≠ JSON_stringify currentData 0)
      && throws_at_root baselineData currentData
  | _, _, _, _ => false
  end.

(** A key of the baseline on which the meta-tags comparison throws: the
    current tag is truthy, and the baseline tag is [null] or [undefined]. *)
Definition tag_clash (metaTags baselineMetaTags : list (string * value)) (key : string)
  : bool :=
  truthy (default VUndefined (assoc key metaTags))
  && is_nullish (default VUndefined (assoc key baselineMetaTags)).

(** The comparison of the given kind, on the data alone. *)
Definition compare_kind (baselineType : string) (extractedData stored : value)
  : outcome ComparisonResult :=
  if String.eqb baselineType "json-ld" then
    r ← compareJsonLdWithBaseline extractedData stored; Return (JsonLdComparison r)
  else
    r ← compareMetaTagsWithBaseline extractedData stored; Return (MetaTagsComparison r).

(** * Properties *)

(** ** The outcome monad *)

Lemma bind_Return {A B} (a : A) (k : A -> outcome B) : (Return a ≫= k) = k a.
Proof. reflexivity. Qed.

Lemma bind_Throw {A B} (e : js_error) (k : A -> outcome B) : (Throw e ≫= k) = Throw e.
Proof. reflexivity. Qed.

Lemma bind_Unmodelled {A B} (k : A -> outcome B) : (Unmodelled ≫= k) = Unmodelled.
Proof. reflexivity. Qed.

Lemma bind_Return_inv {A B} (m : outcome A) (k : A -> outcome B) (b : B) :
  (m ≫= k) = Return b -> exists a, m = Return a /\ k a = Return b.
Proof. destruct m; simpl; intros H; try discriminate. eauto. Qed.

Ltac outcome_simpl :=
  repeat (rewrite ?bind_Return, ?bind_Throw, ?bind_Unmodelled; cbn beta iota).

(** ** Values: depth and property access *)

Lemma height_item (x : value) (items : list value) :
  In x items -> height x < height (VArr items).
Proof.
  simpl. induction items as [|y items IH]; simpl; [tauto|].
  intros [->|Hin]; [lia|]. specialize (IH Hin). lia.
Qed.

Lemma height_prop (k : string) (x : value) (props : list (string * value)) :
  In (k, x) props -> height x < height (VObj props).
Proof.
  simpl. induction props as [|[k' y] props IH]; simpl; [tauto|].
  intros [[= -> ->]|Hin]; [lia|]. specialize (IH Hin). lia.
Qed.

Lemma assoc_In {A} (key : string) (props : list (string * A)) (x : A) :
  assoc key props = Some x -> In (key, x) props.
Proof.
  induction props as [|[k y] props IH]; simpl; [discriminate|].
  destruct (String.eqb_spec key k) as [->|Hne].
  - intros [= ->]. now left.
  - intros H. right. auto.
Qed.

Lemma In_zip_r {A B} (a : A) (b : B) (l1 : list A) (l2 : list B) :
  In (a, b) (zip l1 l2) -> In b l2.
Proof.
  revert l2. induction l1 as [|x l1 IH]; intros [|y l2]; simpl; try tauto.
  intros [[= _ ->]|H]; [now left|right; eauto].
Qed.

Lemma chars_not_object (s : string) (x : value) :
  In x (chars s) -> is_nonnull_object x = false.
Proof.
  induction s as [|c s IH]; simpl; [tauto|]. intros [<-|H]; [reflexivity|auto].
Qed.

(** A property that is itself an object or an array lies strictly deeper. *)
Lemma get_height (v : value) (key : string) (x : value) :
  get v key = Return x -> is_nonnull_object x = true -> height x < height v.
Proof.
  destruct v as [| |b|n|s|items|props]; simpl; try discriminate.
  - intros [= <-]. discriminate.
  - intros [= <-]. discriminate.
  - destruct (String.eqb key "length").
    + intros [= <-]. discriminate.
    + destruct (assoc key _) as [y|] eqn:E; simpl; intros [= <-]; [|discriminate].
      intros Hobj. apply assoc_In, In_zip_r, chars_not_object in E. congruence.
  - destruct (String.eqb key "length").
    + intros [= <-]. discriminate.
    + destruct (assoc key _) as [y|] eqn:E; simpl; intros [= <-]; [|discriminate].
      intros _. apply assoc_In, In_zip_r in E. now apply height_item in E.
  - destruct (assoc key props) as [y|] eqn:E; simpl; intros [= <-]; [|discriminate].
    intros _. apply assoc_In in E. now apply height_prop in E.
Qed.

Lemma is_nonnull_object_height (v : value) :
  is_nonnull_object v = true -> 0 < height v.
Proof. destruct v; simpl; try discriminate; lia. Qed.

(** ** The differ: recursion *)

Section DifferRecursion.

Variables recur1 recur2 : value -> value -> string -> outcome (list FieldDifference).

Lemma items_differences_ext (bound : nat) (currentPath : string) (bs cs : list value) :
  (forall x y q, height x < bound -> recur1 x y q = recur2 x y q) ->
  (forall x, In x bs -> height x < bound) ->
  forall i,
  items_differences recur1 currentPath i bs cs
  = items_differences recur2 currentPath i bs cs.
Proof.
  intros Hrec. revert cs. induction bs as [|b bs IH]; intros cs Hbs i; [reflexivity|].
  destruct cs as [|c cs]; [reflexivity|]. simpl.
  unfold item_differences.
  rewrite (Hrec b c) by (apply Hbs; now left).
  rewrite IH by (intros x Hx; apply Hbs; now right). reflexivity.
Qed.

Lemma key_differences_ext (baseline current : value) (path key : string) :
  (forall x y q, height x < height baseline -> recur1 x y q = recur2 x y q) ->
  key_differences recur1 baseline current path key
  = key_differences recur2 baseline current path key.
Proof.
  intros Hrec. unfold key_differences.
  destruct (has_property key baseline) as [inb| |]; [|reflexivity..]. outcome_simpl.
  destruct (negb inb); [reflexivity|].
  destruct (has_property key current) as [inc| |]; [|reflexivity..]. outcome_simpl.
  destruct (negb inc); [reflexivity|].
  destruct (get baseline key) as [bv| |] eqn:Eb; [|reflexivity..]. outcome_simpl.
  destruct (get current key) as [cv| |] eqn:Ec; [|reflexivity..]. outcome_simpl.
  destruct (negb _); [reflexivity|].
  destruct (is_nonnull_object bv) eqn:Hobj; simpl; [|reflexivity].
  destruct (is_nonnull_object cv) eqn:Hobjc; simpl; [|reflexivity].
  pose proof (get_height _ _ _ Eb Hobj) as Hlt.
  assert (Hcall : recur1 bv cv (key_path path key) = recur2 bv cv (key_path path key))
    by now apply Hrec.
  destruct bv as [| | | | |bs|bp]; try exact Hcall.
  destruct cv as [| | | | |cs|cp]; try exact Hcall.
  rewrite (items_differences_ext (height baseline)); [reflexivity|exact Hrec|].
  intros x Hx. apply height_item in Hx. lia.
Qed.

Lemma keys_differences_ext (baseline current : value) (path : string) (keys : list string) :
  (forall x y q, height x < height baseline -> recur1 x y q = recur2 x y q) ->
  keys_differences recur1 baseline current path keys
  = keys_differences recur2 baseline current path keys.
Proof.
  intros Hrec. induction keys as [|k keys IH]; [reflexivity|]. simpl.
  now rewrite (key_differences_ext _ _ _ _ Hrec), IH.
Qed.

End DifferRecursion.

(** The recursion budget does not matter once it exceeds the depth of the
    baseline. *)
Lemma findFieldDifferences_fuel_irrelevant (f1 f2 : nat) (baseline current : value)
  (path : string) :
  height baseline < f1 -> height baseline < f2 ->
  findFieldDifferences_fuel f1 baseline current path
  = findFieldDifferences_fuel f2 baseline current path.
Proof.
  revert f2 baseline current path.
  induction f1 as [|f1 IH]; intros f2 baseline current path H1 H2; [lia|].
  destruct f2 as [|f2]; [lia|]. simpl.
  apply keys_differences_ext. intros x y q Hx. apply IH; lia.
Qed.

(** The recursive equation of [findFieldDifferences], as in the source. *)
Lemma findFieldDifferences_unfold (baseline current : value) (path : string) :
  findFieldDifferences baseline current path
  = keys_differences findFieldDifferences baseline current path
      (allKeys baseline current).
Proof.
  unfold findFieldDifferences at 1. simpl.
  apply keys_differences_ext. intros x y q Hx.
  unfold findFieldDifferences. apply findFieldDifferences_fuel_irrelevant; lia.
Qed.

(** ** The differ: paths and termination on objects *)

Lemma append_cons (c : ascii) (s t : string) : String c s +:+ t = String c (s +:+ t).
Proof. reflexivity. Qed.

Lemma length_append (s t : string) :
  String.length (s +:+ t) = String.length s + String.length t.
Proof.
  induction s as [|c s IH]; [reflexivity|].
  rewrite append_cons. simpl. now rewrite IH.
Qed.

Lemma key_path_length (path key : string) :
  path <> "" -> String.length path < String.length (key_path path key).
Proof.
  intros Hne. unfold key_path. simpl.
  destruct (String.eqb_spec path ""); [contradiction|]. simpl.
  rewrite length_append. simpl. lia.
Qed.

Lemma key_path_nonempty (path key : string) : path <> "" -> key_path path key <> "".
Proof.
  intros Hne E. pose proof (key_path_length path key Hne) as H.
  rewrite E in H. simpl in H. lia.
Qed.

Lemma item_path_length (currentPath : string) (i : nat) :
  String.length currentPath < String.length (item_path currentPath i).
Proof. unfold item_path. rewrite length_append. simpl. lia. Qed.

Lemma item_path_nonempty (currentPath : string) (i : nat) :
  item_path currentPath i <> "".
Proof.
  intros E. pose proof (item_path_length currentPath i) as H.
  rewrite E in H. simpl in H. lia.
Qed.

Lemma below_strictly (path : string) (ds : list FieldDifference) :
  path <> "" -> below path ds -> strictly_below path ds.
Proof.
  intros Hne H. unfold below, strictly_below in *.
  eapply Forall_impl; [exact H|]. auto.
Qed.

Lemma strictly_below_trans (p q : string) (ds : list FieldDifference) :
  String.length p <= String.length q -> strictly_below q ds -> strictly_below p ds.
Proof.
  intros Hle H. unfold strictly_below in *.
  eapply Forall_impl; [exact H|]. intros d. simpl. lia.
Qed.

Section DifferOnObjects.

Variable recur : value -> value -> string -> outcome (list FieldDifference).
Variable bound : nat.

(** What the recursive call is assumed to do on strictly shallower objects. *)
Hypothesis recur_objects : forall x y q,
  height x < bound -> is_nonnull_object x = true -> is_nonnull_object y = true ->
  exists ds, recur x y q = Return ds /\ below q ds.

Lemma items_differences_return (currentPath : string) (bs cs : list value) :
  (forall x, In x bs -> height x < bound) ->
  forall i, exists ds,
    items_differences recur currentPath i bs cs = Return ds
    /\ strictly_below currentPath ds.
Proof.
  revert cs. induction bs as [|b bs IH]; intros cs Hbs i.
  { exists []. split; [reflexivity|constructor]. }
  destruct cs as [|c cs].
  { exists []. split; [reflexivity|constructor]. }
  simpl.
  destruct (IH cs (fun x Hx => Hbs x (or_intror Hx)) (S i)) as (ds & -> & Hds).
  assert (Hitem : exists d, item_differences recur currentPath i b c = Return d
                            /\ strictly_below currentPath d).
  { unfold item_differences.
    destruct (is_nonnull_object b) eqn:Hb; simpl.
    - destruct (is_nonnull_object c) eqn:Hc; simpl.
      + pose proof (recur_objects b c (item_path currentPath i)
                      (Hbs b (or_introl eq_refl)) Hb Hc) as (d & -> & Hd).
        exists d. split; [reflexivity|].
        apply strictly_below_trans with (q := item_path currentPath i).
        * pose proof (item_path_length currentPath i). lia.
        * apply below_strictly; [apply item_path_nonempty|exact Hd].
      + destruct (strict_neq b c); eexists; (split; [reflexivity|]).
        * repeat constructor. simpl. apply item_path_length.
        * constructor.
    - destruct (strict_neq b c); eexists; (split; [reflexivity|]).
      + repeat constructor. simpl. apply item_path_length.
      + constructor. }
  destruct Hitem as (d & -> & Hd). outcome_simpl.
  exists (d ++ ds). split; [reflexivity|]. now apply Forall_app.
Qed.

Lemma key_differences_return (baseline current : value) (path key : string) :
  height baseline <= bound ->
  is_nonnull_object baseline = true -> is_nonnull_object current = true ->
  exists ds, key_differences recur baseline current path key = Return ds
             /\ below path ds.
Proof.
  intros Hh Hb Hc. unfold key_differences.
  assert (Hone : forall d, diff_path d = key_path path key -> below path [d]).
  { intros d Hd. constructor; [|constructor]. rewrite Hd. apply key_path_length. }
  assert (Hinb : exists inb, has_property key baseline = Return inb)
    by (destruct baseline; try discriminate; simpl; eauto).
  assert (Hinc : exists inc, has_property key current = Return inc)
    by (destruct current; try discriminate; simpl; eauto).
  assert (Hgb : exists bv, get baseline key = Return bv)
    by (destruct baseline; try discriminate; simpl; [destruct (String.eqb _ _)|]; eauto).
  assert (Hgc : exists cv, get current key = Return cv)
    by (destruct current; try discriminate; simpl; [destruct (String.eqb _ _)|]; eauto).
  destruct Hinb as [inb ->], Hinc as [inc ->], Hgb as [bv Eb], Hgc as [cv Ec].
  rewrite Eb, Ec. outcome_simpl.
  destruct inb; simpl; [|eexists; split; [reflexivity|now apply Hone]].
  destruct inc; simpl; [|eexists; split; [reflexivity|now apply Hone]].
  destruct (negb _); [eexists; split; [reflexivity|now apply Hone]|].
  destruct (is_nonnull_object bv) eqn:Hbv; simpl;
    [|destruct (strict_neq bv cv); eexists; (split; [reflexivity|]);
      [now apply Hone|constructor]].
  destruct (is_nonnull_object cv) eqn:Hcv; simpl;
    [|destruct (strict_neq bv cv); eexists; (split; [reflexivity|]);
      [now apply Hone|constructor]].
  pose proof (get_height _ _ _ Eb Hbv) as Hlt.
  assert (Hcall : exists ds, recur bv cv (key_path path key) = Return ds /\ below path ds).
  { assert (Hlt' : height bv < bound) by lia.
    pose proof (recur_objects bv cv (key_path path key) Hlt' Hbv Hcv) as (ds & -> & Hds).
    exists ds. split; [reflexivity|].
    unfold below in *. eapply Forall_impl; [exact Hds|]. intros d Hd Hne.
    specialize (Hd (key_path_nonempty _ key Hne)).
    pose proof (key_path_length path key Hne). lia. }
  destruct bv as [| | | | |bs|bp]; try exact Hcall.
  destruct cv as [| | | | |cs|cp]; try exact Hcall.
  assert (Hbs : forall x, In x bs -> height x < bound).
  { intros x Hx. apply height_item in Hx. lia. }
  pose proof (items_differences_return (key_path path key) bs cs Hbs 0) as (ds & -> & Hds).
  outcome_simpl. eexists. split; [reflexivity|].
  apply Forall_app. split.
  - destruct (negb _); [now apply Hone|constructor].
  - unfold below. eapply Forall_impl; [exact Hds|]. intros d Hd Hne.
    cbv beta in Hd. pose proof (key_path_length path key Hne). lia.
Qed.

Lemma keys_differences_return (baseline current : value) (path : string)
  (keys : list string) :
  height baseline <= bound ->
  is_nonnull_object baseline = true -> is_nonnull_object current = true ->
  exists ds, keys_differences recur baseline current path keys = Return ds
             /\ below path ds.
Proof.
  intros Hh Hb Hc. induction keys as [|k keys (ds & IH & Hds)].
  { exists []. split; [reflexivity|constructor]. }
  simpl. destruct (key_differences_return baseline current path k Hh Hb Hc)
    as (d & -> & Hd).
  rewrite IH. outcome_simpl. exists (d ++ ds). split; [reflexivity|].
  now apply Forall_app.
Qed.

End DifferOnObjects.

(** On two objects (or arrays) the differ returns, and every reported path
    extends the path it was started from. *)
Lemma findFieldDifferences_objects (baseline current : value) (path : string) :
  is_nonnull_object baseline = true -> is_nonnull_object current = true ->
  exists ds, findFieldDifferences baseline current path = Return ds /\ below path ds.
Proof.
  remember (height baseline) as n eqn:Hn.
  revert baseline current path Hn.
  induction n as [n IH] using lt_wf_ind. intros baseline current path -> Hb Hc.
  rewrite findFieldDifferences_unfold.
  apply keys_differences_return with (bound := height baseline); auto.
  intros x y q Hx Hox Hoy. eapply IH; eauto.
Qed.

(** The differ assigns a behaviour to every pair of arguments. *)
Lemma findFieldDifferences_modelled (baseline current : value) (path : string) :
  findFieldDifferences baseline current path <> Unmodelled.
Proof.
  rewrite findFieldDifferences_unfold.
  induction (allKeys baseline current) as [|k keys IH]; [discriminate|]. simpl.
  assert (Hk : key_differences findFieldDifferences baseline current path k <> Unmodelled).
  { destruct (is_nonnull_object baseline) eqn:Hb.
    - destruct (is_nonnull_object current) eqn:Hc.
      + assert (Hrec : forall x y q, height x < height baseline ->
                  is_nonnull_object x = true -> is_nonnull_object y = true ->
                  exists ds, findFieldDifferences x y q = Return ds /\ below q ds)
          by (intros x y q _; apply findFieldDifferences_objects).
        pose proof (key_differences_return findFieldDifferences (height baseline) Hrec
                      baseline current path k (le_n _) Hb Hc) as (ds & -> & _).
        discriminate.
      + unfold key_differences.
        destruct (has_property k baseline) as [[]| |] eqn:Eb; outcome_simpl; simpl.
        * destruct current; discriminate.
        * destruct current; simpl; try discriminate;
            destruct (String.eqb _ _); discriminate.
        * discriminate.
        * destruct baseline; discriminate.
    - unfold key_differences. destruct baseline; discriminate. }
  destruct (key_differences _ _ _ _ _) as [d| |]; [|discriminate|contradiction].
  outcome_simpl.
  destruct (keys_differences _ _ _ _ _) as [ds| |]; [discriminate|discriminate|contradiction].
Qed.

(** Each key contributes its own differences to the result. *)
Lemma keys_differences_incl
  (recur : value -> value -> string -> outcome (list FieldDifference))
  (baseline current : value) (path key : string) (keys : list string)
  (d ds : list FieldDifference) :
  In key keys ->
  keys_differences recur baseline current path keys = Return ds ->
  key_differences recur baseline current path key = Return d ->
  incl d ds.
Proof.
  revert ds. induction keys as [|k keys IH]; intros ds Hin; [destruct Hin|].
  simpl. intros H Hd.
  apply bind_Return_inv in H as (d1 & Hd1 & H).
  apply bind_Return_inv in H as (ds1 & Hds1 & [= <-]).
  destruct Hin as [->|Hin].
  - rewrite Hd in Hd1. injection Hd1 as ->. now apply incl_appl.
  - apply incl_appr. eauto.
Qed.

Lemma findFieldDifferences_incl (baseline current : value) (path key : string)
  (d ds : list FieldDifference) :
  In key (allKeys baseline current) ->
  findFieldDifferences baseline current path = Return ds ->
  key_differences findFieldDifferences baseline current path key = Return d ->
  incl d ds.
Proof.
  rewrite findFieldDifferences_unfold. apply keys_differences_incl.
Qed.

(** ** The differ: what is reported under a key *)





Lemma typeof_object_inv (v : value) :
  typeof v = "object" -> v = VNull \/ is_nonnull_object v = true.
Proof. destruct v; try discriminate; auto. Qed.

(** With root arguments of different [typeof], a key never passes both
    membership tests: whatever is reported is an [added] entry. *)
Lemma key_differences_root_mismatch
  (recur : value -> value -> string -> outcome (list FieldDifference))
  (a b : value) (path key : string) (d : list FieldDifference) :
  typeof a <> typeof b ->
  key_differences recur a b path key = Return d ->
  Forall (fun x => diff_type x = "added") d.
Proof.
  intros Ht. unfold key_differences.
  destruct (has_property key a) as [inb| |] eqn:Ea; try discriminate. outcome_simpl.
  destruct inb; simpl.
  - destruct (has_property key b) as [inc| |] eqn:Eb; try discriminate.
    exfalso. apply Ht.
    destruct a; try discriminate; destruct b; try discriminate; reflexivity.
  - destruct (get b key); try discriminate. outcome_simpl.
    intros [= <-]. repeat constructor.
Qed.

(** C3 (as amended): for every key held by both compared values whose two
    values have different [typeof], the differ reports for that key exactly
    one difference, a [type_changed] at the key's path (the key itself when
    started from the empty root path) carrying both values, without
    recursing; the two root arguments themselves are not type-compared: roots
    of different [typeof] yield nothing but [added] entries when the call
    returns. *)
Theorem type_mismatch_under_key (baseline current : value) (path key : string)
  (bv cv : value) :
  has_property key baseline = Return true ->
  has_property key current = Return true ->
  get baseline key = Return bv -> get current key = Return cv ->
  typeof bv <> typeof cv ->
  (forall recur,
      key_differences recur baseline current path key
      = Return [TypeChanged (key_path path key) bv cv])
  /\ key_path "" key = key
  /\ (In key (allKeys baseline current) ->
      forall ds, findFieldDifferences baseline current path = Return ds ->
                 In (TypeChanged (key_path path key) bv cv) ds)
  /\ (forall a b p ds,
         typeof a <> typeof b -> findFieldDifferences a b p = Return ds ->
         Forall (fun d => diff_type d = "added") ds).
Proof.
  intros Hb Hc Gb Gc Ht.
  assert (Hkey : forall recur,
      key_differences recur baseline current path key
      = Return [TypeChanged (key_path path key) bv cv]).
  { intros recur. unfold key_differences. rewrite Hb, Hc, Gb, Gc. outcome_simpl. simpl.
    destruct (String.eqb_spec (typeof bv) (typeof cv)); [contradiction|reflexivity]. }
  split; [exact Hkey|]. split; [reflexivity|]. split.
  - intros Hin ds Hds.
    eapply (findFieldDifferences_incl _ _ _ _ _ _ Hin Hds); [apply Hkey|now left].
  - intros a b p ds Hab. rewrite findFieldDifferences_unfold.
    generalize (allKeys a b) as keys. intros keys. revert ds.
    induction keys as [|k keys IH]; intros ds; simpl.
    + intros [= <-]. constructor.
    + intros H. apply bind_Return_inv in H as (d & Hd & H).
      apply bind_Return_inv in H as (ds' & Hds' & [= <-]).
      apply Forall_app. split; [|now apply IH].
      eapply key_differences_root_mismatch; eauto.
Qed.

Lemma type_mismatch_under_key_witness :
  findFieldDifferences (VObj [("name", VStr "7")]) (VObj [("name", VNum 7)]) ""
  = Return [TypeChanged "name" (VStr "7") (VNum 7)].
Proof.
  pose proof (type_mismatch_under_key
                (VObj [("name", VStr "7")]) (VObj [("name", VNum 7)]) "" "name"
                (VStr "7") (VNum 7) eq_refl eq_refl eq_refl eq_refl
                ltac:(discriminate)) as (Hkey & _).
  rewrite findFieldDifferences_unfold.
  change (allKeys (VObj [("name", VStr "7")]) (VObj [("name", VNum 7)])) with ["name"].
  unfold keys_differences. rewrite Hkey. reflexivity.
Defined.

(** C3, as stated, fails: a number against a boolean at the root yields the
    empty list, a string against a number throws, and an object against an
    array holding it yields a [removed] and an [added] entry. *)
Lemma root_type_mismatch_counterexample :
  typeof (VNum 5) <> typeof (VBool true)
  /\ findFieldDifferences (VNum 5) (VBool true) "" = Return []
  /\ typeof (VStr "a") <> typeof (VNum 1)
  /\ findFieldDifferences (VStr "a") (VNum 1) "" = Throw TypeError
  /\ isArray (VObj [("@type", VStr "Course")]) <> isArray (VArr [VObj [("@type", VStr "Course")]])
  /\ findFieldDifferences (VObj [("@type", VStr "Course")])
       (VArr [VObj [("@type", VStr "Course")]]) ""
     = Return [Removed "@type" (VStr "Course");
               Added "0" (VObj [("@type", VStr "Course")])].
Proof. repeat split; (discriminate || reflexivity). Qed.

(** ** The differ: arrays *)





(** ** Comparison results: [matches] *)

Lemma length_zero_iff {A B C} (l1 : list A) (l2 : list B) (l3 : list C) :
  Nat.eqb (length l1) 0 && Nat.eqb (length l2) 0 && Nat.eqb (length l3) 0 = true
  <-> l1 = [] /\ l2 = [] /\ l3 = [].
Proof.
  destruct l1, l2, l3; simpl; split; try discriminate; try tauto;
    intros (? & ? & ?); discriminate.
Qed.

Lemma compareJsonLdWithBaseline_matches (jsonLdData baselineJsonLd : value)
  (r : JsonLdResult) :
  compareJsonLdWithBaseline jsonLdData baselineJsonLd = Return r ->
  matches r = true <-> buckets_empty (JsonLdComparison r).
Proof.
  unfold compareJsonLdWithBaseline.
  destruct (is_nullish baselineJsonLd || is_nullish jsonLdData); [discriminate|].
  destruct baselineJsonLd as [| | | | |base|]; try discriminate.
  destruct jsonLdData as [| | | | |cur|]; try discriminate.
  intros H.
  apply bind_Return_inv in H as (missing & _ & H).
  apply bind_Return_inv in H as (new & _ & H).
  apply bind_Return_inv in H as (diffs & _ & [= <-]).
  simpl. apply length_zero_iff.
Qed.

Lemma compareMetaTagsWithBaseline_matches (metaTags baselineMetaTags : value)
  (r : MetaTagsResult) :
  compareMetaTagsWithBaseline metaTags baselineMetaTags = Return r ->
  tags_match r = true <-> buckets_empty (MetaTagsComparison r).
Proof.
  unfold compareMetaTagsWithBaseline. intros H.
  apply bind_Return_inv in H as (baselineKeys & _ & H).
  apply bind_Return_inv in H as ([diffs missing] & _ & H).
  apply bind_Return_inv in H as (currentKeys & _ & H).
  apply bind_Return_inv in H as (new & _ & [= <-]).
  simpl. apply length_zero_iff.
Qed.

(** C1: whenever [compareWithBaseline] returns a result -- on the first run
    or against an existing baseline of either kind -- its [matches] flag is
    [true] exactly when the three difference buckets are empty. *)
Theorem matches_iff_buckets_empty (extractedData : value) (pageName : string)
  (baselinePath : file_path) (baselineType : string) (fs fs' : filesystem)
  (r : ComparisonResult) :
  compareWithBaseline extractedData pageName baselinePath baselineType fs
  = Return (r, fs') ->
  result_matches r = true <-> buckets_empty r.
Proof.
  unfold compareWithBaseline.
  destruct (negb (existsSync fs _)).
  - intros H.
    apply bind_Return_inv in H as (doc & _ & H).
    apply bind_Return_inv in H as (fs1 & _ & [= <- _]).
    unfold first_result. destruct (String.eqb baselineType "json-ld"); simpl; tauto.
  - intros H. apply bind_Return_inv in H as (doc & _ & H).
    destruct (String.eqb baselineType "json-ld").
    + apply bind_Return_inv in H as (stored & _ & H).
      apply bind_Return_inv in H as (res & Hres & [= <- _]).
      now apply compareJsonLdWithBaseline_matches in Hres.
    + destruct (String.eqb baselineType "meta-tags"); [|discriminate].
      apply bind_Return_inv in H as (stored & _ & H).
      apply bind_Return_inv in H as (res & Hres & [= <- _]).
      now apply compareMetaTagsWithBaseline_matches in Hres.
Qed.

Lemma matches_iff_buckets_empty_witness :
  exists r fs',
    compareWithBaseline (demo_tags "B") "home" ["baselines"] "meta-tags" demo_fs
    = Return (r, fs')
    /\ (result_matches r = true <-> buckets_empty r).
Proof.
  eexists. eexists.
  assert (H : compareWithBaseline (demo_tags "B") "home" ["baselines"] "meta-tags" demo_fs
              = Return (MetaTagsComparison
                          {| tags_match := false;
                             tag_differences :=
                               [("title", {| baseline_content := VStr "A";
                                             current_content := VStr "B" |})];
                             missingTags := []; newTags := [] |}, demo_fs))
    by (vm_compute; reflexivity).
  split; [exact H|]. exact (matches_iff_buckets_empty _ _ _ _ _ _ _ H).
Defined.

(** ** Meta tags: content-only comparison *)

Lemma assoc_set_prop {A} (k key : string) (v : A) (props : list (string * A)) :
  assoc k (set_prop key v props) = if String.eqb k key then Some v else assoc k props.
Proof.
  induction props as [|[k' w] props IH]; simpl.
  - destruct (String.eqb_spec k key); reflexivity.
  - destruct (String.eqb_spec key k') as [->|Hne]; simpl.
    + destruct (String.eqb_spec k k'); reflexivity.
    + rewrite IH. destruct (String.eqb_spec k k') as [->|Hne'].
      * destruct (String.eqb_spec k' key); [congruence|reflexivity].
      * reflexivity.
Qed.

Lemma same_contents_keys (tags1 tags2 : list (string * value)) :
  same_contents tags1 tags2 -> map fst tags1 = map fst tags2.
Proof.
  induction 1 as [|[k1 t1] [k2 t2] l1 l2 [Hk _] _ IH]; [reflexivity|].
  simpl in *. now rewrite Hk, IH.
Qed.

Lemma same_contents_lookup (tags1 tags2 : list (string * value)) (key : string) :
  same_contents tags1 tags2 ->
  tag_view (default VUndefined (assoc key tags1))
  = tag_view (default VUndefined (assoc key tags2)).
Proof.
  induction 1 as [|[k1 t1] [k2 t2] l1 l2 [Hk Hv] _ IH]; [reflexivity|].
  simpl in *. subst k2. destruct (String.eqb key k1); [exact Hv|exact IH].
Qed.

(** Changing attributes other than [content] of a tag keeps its view. *)
Lemma tag_view_attributes (attrs1 attrs2 : list (string * value)) :
  assoc "content" attrs1 = assoc "content" attrs2 ->
  tag_view (VObj attrs1) = tag_view (VObj attrs2).
Proof. intros H. unfold tag_view, content_of. simpl. now rewrite H. Qed.

Lemma baseline_tag_step_same (cur1 cur2 base1 base2 : list (string * value))
  (acc : list (string * ContentChange) * list string) (key : string) :
  same_contents cur1 cur2 -> same_contents base1 base2 ->
  baseline_tag_step (VObj cur1) (VObj base1) acc key
  = baseline_tag_step (VObj cur2) (VObj base2) acc key.
Proof.
  intros Hc Hb. unfold baseline_tag_step. simpl. outcome_simpl.
  pose proof (same_contents_lookup _ _ key Hc) as Hvc.
  pose proof (same_contents_lookup _ _ key Hb) as Hvb.
  unfold tag_view, content_of in *.
  injection Hvc as Htc Hcc. injection Hvb as Htb Hcb.
  now rewrite Htc, Hcc, Hcb.
Qed.

Lemma new_tag_step_same (base1 base2 : list (string * value))
  (acc : list string) (key : string) :
  same_contents base1 base2 ->
  new_tag_step (VObj base1) acc key = new_tag_step (VObj base2) acc key.
Proof.
  intros Hb. unfold new_tag_step. simpl. outcome_simpl.
  pose proof (same_contents_lookup _ _ key Hb) as Hvb.
  unfold tag_view in Hvb. injection Hvb as Htb _. now rewrite Htb.
Qed.

Lemma forEach_ext {S} (step1 step2 : S -> string -> outcome S) (keys : list string) :
  (forall acc key, step1 acc key = step2 acc key) ->
  forall acc, forEach step1 keys acc = forEach step2 keys acc.
Proof.
  intros H. induction keys as [|k keys IH]; intros acc; [reflexivity|].
  simpl. rewrite H. destruct (step2 acc k); simpl; auto.
Qed.

(** Two-run noninterference of the meta-tags comparison. *)
Lemma compareMetaTagsWithBaseline_same_contents
  (cur1 cur2 base1 base2 : list (string * value)) :
  same_contents cur1 cur2 -> same_contents base1 base2 ->
  compareMetaTagsWithBaseline (VObj cur1) (VObj base1)
  = compareMetaTagsWithBaseline (VObj cur2) (VObj base2).
Proof.
  intros Hc Hb. unfold compareMetaTagsWithBaseline. simpl. outcome_simpl.
  rewrite (same_contents_keys _ _ Hc), (same_contents_keys _ _ Hb).
  rewrite (forEach_ext _ (baseline_tag_step (VObj cur2) (VObj base2)))
    by (intros; now apply baseline_tag_step_same).
  destruct (forEach (baseline_tag_step _ _) _ _) as [[diffs missing]| |];
    [|reflexivity..]. outcome_simpl.
  rewrite (forEach_ext _ (new_tag_step (VObj base2)))
    by (intros; now apply new_tag_step_same).
  reflexivity.
Qed.

Lemma baseline_tag_step_entry (metaTags baselineMetaTags : value)
  (acc acc' : list (string * ContentChange) * list string) (key k : string) :
  baseline_tag_step metaTags baselineMetaTags acc key = Return acc' ->
  exists e, content_entry metaTags baselineMetaTags key = Return e
    /\ assoc k acc'.1
       = if String.eqb k key then from_option Some (assoc k acc.1) e
         else assoc k acc.1.
Proof.
  unfold baseline_tag_step, content_entry.
  destruct (get metaTags key) as [ct| |]; try discriminate. outcome_simpl.
  destruct (negb (truthy ct)).
  { intros [= <-]. eexists. split; [reflexivity|]. simpl.
    destruct (String.eqb k key); reflexivity. }
  destruct (get baselineMetaTags key) as [bt| |]; try discriminate. outcome_simpl.
  destruct (get bt "content") as [bc| |]; try discriminate. outcome_simpl.
  destruct (get ct "content") as [cc| |]; try discriminate. outcome_simpl.
  destruct (strict_neq bc cc); intros [= <-]; (eexists; split; [reflexivity|]); simpl.
  - apply assoc_set_prop.
  - destruct (String.eqb k key); reflexivity.
Qed.

Lemma forEach_baseline_entry (metaTags baselineMetaTags : value) (k : string)
  (e : option ContentChange) (keys : list string) :
  content_entry metaTags baselineMetaTags k = Return e ->
  forall acc acc',
  forEach (baseline_tag_step metaTags baselineMetaTags) keys acc = Return acc' ->
  assoc k acc'.1
  = if bool_decide (k ∈ keys) then from_option Some (assoc k acc.1) e
    else assoc k acc.1.
Proof.
  intros He. induction keys as [|key keys IH]; intros acc acc'; simpl.
  { intros [= <-]. reflexivity. }
  intros H. apply bind_Return_inv in H as (acc1 & Hstep & Hrest).
  apply (baseline_tag_step_entry _ _ _ _ _ k) in Hstep as (e' & He' & Hacc1).
  rewrite (IH _ _ Hrest), Hacc1.
  destruct (String.eqb_spec k key) as [<-|Hne].
  - rewrite He in He'. injection He' as <-.
    rewrite (bool_decide_eq_true_2 (k ∈ k :: keys)) by apply list_elem_of_here.
    destruct (bool_decide (k ∈ keys)); destruct e; reflexivity.
  - destruct (bool_decide (k ∈ keys)) eqn:E.
    + apply bool_decide_eq_true in E.
      now rewrite (bool_decide_eq_true_2 (k ∈ key :: keys))
        by now apply list_elem_of_further.
    + apply bool_decide_eq_false in E.
      rewrite (bool_decide_eq_false_2 (k ∈ key :: keys)); [reflexivity|].
      intros [?|?]%elem_of_cons; congruence.
Qed.

Lemma assoc_elem_of_keys {A} (key : string) (props : list (string * A)) (x : A) :
  assoc key props = Some x -> key ∈ map fst props.
Proof.
  intros H. apply assoc_In in H. apply list_elem_of_In.
  change key with (fst (key, x)). now apply in_map.
Qed.

(** C6: against an existing meta-tags baseline whose keys, like those of
    the current tags, are none of the names inherited from
    [Object.prototype], a tag held by both sides
    gets a [differences] entry -- the baseline and the current [content] --
    exactly when the two [content] fields are strictly unequal (for strings:
    when they are different strings); and replacing tags by tags with the
    same [content] on either side, as any change of the other attributes of
    a tag does, leaves the whole result unchanged. *)
Theorem meta_tags_content_only (metaTags baselineMetaTags : list (string * value))
  (r : MetaTagsResult) :
  compareMetaTagsWithBaseline (VObj metaTags) (VObj baselineMetaTags) = Return r ->
  (own_names metaTags = true -> own_names baselineMetaTags = true ->
   forall key baselineTag currentTag,
      assoc key baselineMetaTags = Some (VObj baselineTag) ->
      assoc key metaTags = Some (VObj currentTag) ->
      let baselineContent := default VUndefined (assoc "content" baselineTag) in
      let currentContent := default VUndefined (assoc "content" currentTag) in
      assoc key (tag_differences r)
      = (if strict_neq baselineContent currentContent
         then Some {| baseline_content := baselineContent;
                      current_content := currentContent |}
         else None)
      /\ (forall a b, baselineContent = VStr a -> currentContent = VStr b ->
                      is_Some (assoc key (tag_differences r)) <-> a <> b))
  /\ (forall metaTags' baselineMetaTags',
         same_contents metaTags metaTags' ->
         same_contents baselineMetaTags baselineMetaTags' ->
         compareMetaTagsWithBaseline (VObj metaTags') (VObj baselineMetaTags')
         = Return r)
  /\ (forall attributes attributes',
         assoc "content" attributes = assoc "content" attributes' ->
         tag_view (VObj attributes) = tag_view (VObj attributes')).
Proof.
  intros Hr. split; [|split; [|apply tag_view_attributes]].
  - intros _ _ key bt ct Hb Hc bc cc.
    assert (Hentry : assoc key (tag_differences r)
                     = if strict_neq bc cc
                       then Some {| baseline_content := bc; current_content := cc |}
                       else None).
    { unfold compareMetaTagsWithBaseline in Hr. simpl in Hr.
      apply bind_Return_inv in Hr as ([diffs missing] & Hloop & Hr).
      apply bind_Return_inv in Hr as (new & _ & [= <-]). simpl.
      assert (He : content_entry (VObj metaTags) (VObj baselineMetaTags) key
                   = Return (if strict_neq bc cc
                             then Some {| baseline_content := bc; current_content := cc |}
                             else None)).
      { unfold content_entry. simpl. now rewrite Hb, Hc. }
      pose proof (forEach_baseline_entry _ _ _ _ _ He _ _ Hloop) as Hk.
      simpl in Hk. rewrite Hk.
      rewrite bool_decide_eq_true_2 by (eapply assoc_elem_of_keys; eauto).
      destruct (strict_neq bc cc); reflexivity. }
    split; [exact Hentry|].
    intros a b Ha Hb'. rewrite Hentry, Ha, Hb'. unfold strict_neq. simpl.
    destruct (String.eqb_spec a b) as [->|Hne]; simpl.
    + split; [intros [x [=]]|congruence].
    + split; [auto|eauto].
  - intros metaTags' baselineMetaTags' Hc Hb.
    now rewrite <- (compareMetaTagsWithBaseline_same_contents _ _ _ _ Hc Hb).
Qed.

Lemma meta_tags_content_only_witness :
  exists r,
    compareMetaTagsWithBaseline (demo_tags "B") (demo_tags "A") = Return r
    /\ assoc "title" (tag_differences r)
       = Some {| baseline_content := VStr "A"; current_content := VStr "B" |}
    /\ compareMetaTagsWithBaseline
         (VObj [("meta_description",
                 VObj [("content", VStr "Lessons"); ("lang", VStr "bg")]);
                ("title", VObj [("content", VStr "B")])])
         (demo_tags "A") = Return r.
Proof.
  eexists.
  assert (H : compareMetaTagsWithBaseline (demo_tags "B") (demo_tags "A")
              = Return {| tags_match := false;
                          tag_differences :=
                            [("title", {| baseline_content := VStr "A";
                                          current_content := VStr "B" |})];
                          missingTags := []; newTags := [] |})
    by (vm_compute; reflexivity).
  split; [exact H|].
  destruct (meta_tags_content_only _ _ _ H) as (Hentry & Hsame & _). split.
  - exact (proj1 (Hentry eq_refl eq_refl
                    "title" [("content", VStr "A")] [("content", VStr "B")]
                    eq_refl eq_refl)).
  - apply Hsame.
    + repeat constructor.
    + repeat constructor.
Defined.

(** ** [ensureBaselineDirectory] *)

Lemma grown_refl (fs : filesystem) : grown fs fs.
Proof. intros q. now left. Qed.


Lemma mkdir_from_Return (rest prefix : file_path) (fs fs' : filesystem) :
  mkdir_from fs prefix rest = Return fs' ->
  grown fs fs'
  /\ (rest <> [] -> exists w, fs' !! (prefix ++ rest) = Some (Directory w)).
Proof.
  revert prefix fs. induction rest as [|c rest IH]; intros prefix fs; simpl.
  { intros [= <-]. split; [apply grown_refl|congruence]. }
  destruct (fs !! (prefix ++ [c])) as [[d w|w]|] eqn:E; try discriminate.
  - intros H. destruct (IH _ _ H) as [Hg Hdir]. split; [exact Hg|]. intros _.
    destruct rest as [|c' rest'].
    + simpl in H. injection H as <-. rewrite E. eauto.
    + rewrite <- app_assoc in Hdir. apply Hdir. discriminate.
  - destruct (fs !! prefix) as [[d w|[|]]|]; try discriminate.
    intros H. destruct (IH _ _ H) as [Hg Hdir]. split.
    + intros q. destruct (Hg q) as [Eq|[Eq1 Eq2]].
      * destruct (decide (prefix ++ [c] = q)) as [<-|Hne].
        -- rewrite lookup_insert_eq in Eq. right. now rewrite E.
        -- rewrite lookup_insert_ne in Eq by exact Hne. now left.
      * destruct (decide (prefix ++ [c] = q)) as [<-|Hne].
        -- rewrite lookup_insert_eq in Eq1. discriminate.
        -- rewrite lookup_insert_ne in Eq1 by exact Hne. now right.
    + intros _. destruct rest as [|c' rest'].
      * simpl in H. injection H as <-. rewrite lookup_insert_eq. eauto.
      * rewrite <- app_assoc in Hdir. apply Hdir. discriminate.
Qed.





(** ** [compareWithBaseline]: the first run *)

Lemma dirname_baselineFile (baselinePath : file_path) (pageName : string) :
  dirname (baselineFile baselinePath pageName) = baselinePath.
Proof. apply removelast_last. Qed.

Lemma JSON_stringify_object (props : list (string * value)) (space : nat) :
  exists text, JSON_stringify (VObj props) space = Some text.
Proof. unfold JSON_stringify. simpl. eauto. Qed.

Lemma first_baseline_Return (extractedData : value) (baselineType : string) :
  is_nullish extractedData = false ->
  exists payload count,
    first_baseline extractedData baselineType
    = Return (VObj [(payload, extractedData); count])
    /\ payload = (if String.eqb baselineType "json-ld" then "jsonLdData" else "metaTags").
Proof.
  intros Hn. unfold first_baseline. destruct (String.eqb baselineType "json-ld").
  - destruct extractedData; try discriminate; simpl;
      try destruct (String.eqb _ _); eauto.
  - destruct extractedData; try discriminate; simpl; eauto.
Qed.

Lemma first_baseline_not_Error (extractedData : value) (baselineType msg : string) :
  first_baseline extractedData baselineType <> Throw (Error msg).
Proof.
  unfold first_baseline. destruct (String.eqb baselineType "json-ld").
  - destruct extractedData; simpl; try discriminate; destruct (String.eqb _ _); discriminate.
  - destruct extractedData; simpl; discriminate.
Qed.

Lemma write_json_not_Error (fs : filesystem) (file : file_path) (doc : value) (msg : string) :
  write_json fs file doc <> Throw (Error msg).
Proof.
  unfold write_json, writeFileSync. destruct (JSON_stringify doc 2); [|discriminate].
  destruct (fs !! file) as [[d [|]|w]|]; try discriminate.
  destruct (fs !! dirname file) as [[d w|[|]]|]; discriminate.
Qed.

Lemma write_json_new_file (fs : filesystem) (dir : file_path) (name : string) (doc : value)
  (text : string) :
  existsSync fs (path_join dir name) = false ->
  fs !! dir = Some (Directory true) ->
  JSON_stringify doc 2 = Some text ->
  write_json fs (path_join dir name) doc
  = Return (<[path_join dir name := File text true]> fs).
Proof.
  intros Hex Hdir Htext. unfold write_json, writeFileSync. rewrite Htext.
  unfold existsSync in Hex. apply bool_decide_eq_false in Hex.
  destruct (fs !! path_join dir name) eqn:E; [exfalso; apply Hex; eauto|].
  unfold dirname, path_join. now rewrite removelast_last, Hdir.
Qed.

(** ** [JSON.parse] after [JSON.stringify] *)

Lemma append_nil_r (s : string) : s +:+ "" = s.
Proof. induction s as [|c s IH]; [reflexivity|]. now rewrite append_cons, IH. Qed.

Lemma append_assoc (a b c : string) : (a +:+ b) +:+ c = a +:+ b +:+ c.
Proof. induction a as [|x a IH]; [reflexivity|]. now rewrite !append_cons, IH. Qed.

Lemma append_nil_l (s : string) : "" +:+ s = s.
Proof. reflexivity. Qed.

Ltac str_norm :=
  repeat (rewrite append_cons || rewrite append_assoc || rewrite append_nil_l).

Lemma all_ws_append (a b : string) : all_ws a = true -> all_ws b = true -> all_ws (a +:+ b) = true.
Proof.
  induction a as [|c a IH]; [auto|]. rewrite append_cons. simpl.
  intros [-> Ha]%andb_true_iff Hb. simpl. auto.
Qed.

Lemma all_ws_spaces (n : nat) : all_ws (spaces n) = true.
Proof. induction n; simpl; auto. Qed.

Lemma skip_ws_append (w s : string) : all_ws w = true -> skip_ws (w +:+ s) = skip_ws s.
Proof.
  induction w as [|c w IH]; [reflexivity|]. rewrite append_cons. simpl.
  intros [-> Hw]%andb_true_iff. auto.
Qed.

Lemma number_end_ws (w s : string) :
  all_ws w = true -> number_end s = true -> number_end (w +:+ s) = true.
Proof.
  destruct w as [|c w]; [auto|]. rewrite append_cons. simpl.
  intros [Hc _]%andb_true_iff _.
  destruct c as [[] [] [] [] [] [] [] []]; try discriminate; reflexivity.
Qed.

(** *** Strings *)

Lemma parse_chars_escape_char (c : ascii) (s : string) :
  parse_chars (escape_char c +:+ s)
  = ('(text, r) ← parse_chars s; Return (String c text, r)).
Proof.
  destruct c as [[] [] [] [] [] [] [] []]; reflexivity.
Qed.

Lemma parse_chars_escape (s rest : string) :
  parse_chars (escape s +:+ String dquote rest) = Return (s, rest).
Proof.
  induction s as [|c s IH]; [reflexivity|].
  simpl. rewrite append_assoc, parse_chars_escape_char, IH. reflexivity.
Qed.

Lemma parse_chars_quote (s rest : string) :
  exists body, quote s +:+ rest = String dquote body
               /\ parse_chars body = Return (s, rest).
Proof.
  exists (escape s +:+ String dquote rest). split.
  - unfold quote. now rewrite append_cons, append_assoc, append_cons.
  - apply parse_chars_escape.
Qed.

Lemma quote_length (s : string) : 2 <= String.length (quote s).
Proof. unfold quote. simpl. rewrite length_append. simpl. lia. Qed.

(** *** Numbers *)

Lemma all_digits_string_of_uint (d : Decimal.uint) :
  all_digits (NilEmpty.string_of_uint d) = true.
Proof. induction d; simpl; auto. Qed.

Lemma span_digits_append (ds rest : string) :
  all_digits ds = true -> number_end rest = true ->
  span_digits (ds +:+ rest) = (ds, rest).
Proof.
  intros Hds Hrest. induction ds as [|c ds IH].
  - change ("" +:+ rest) with rest. destruct rest as [|c rest]; [reflexivity|].
    simpl in *. destruct (is_digit c); [discriminate|reflexivity].
  - rewrite append_cons. simpl in *. apply andb_true_iff in Hds as [-> Hds].
    now rewrite (IH Hds).
Qed.

Lemma normal_to_uint (n : N) : normal (N.to_uint n).
Proof.
  destruct n as [|p]; [split; [discriminate|now intros d' [= <-]]|].
  simpl. split; [apply DecimalPos.Unsigned.to_uint_nonnil|].
  intros d' E.
  assert (Hn : Decimal.unorm (Pos.to_uint p) = Pos.to_uint p).
  { rewrite <- DecimalPos.Unsigned.to_of, DecimalPos.Unsigned.of_to. reflexivity. }
  rewrite E in Hn. change (Decimal.unorm d' = Decimal.D0 d') in Hn.
  destruct (Decimal.uint_eq_dec d' Decimal.Nil) as [Hd|Hd]; [exact Hd|].
  pose proof (nb_digits_unorm d' Hd) as Hle.
  rewrite Hn in Hle. simpl in Hle. lia.
Qed.

Lemma parse_digits_string_of_uint (d : Decimal.uint) (rest : string) :
  normal d -> number_end rest = true ->
  parse_digits (NilZero.string_of_uint d +:+ rest) = Return (Z.of_N (N.of_uint d), rest).
Proof.
  intros [Hnil Hzero] Hrest. unfold parse_digits.
  assert (Hs : NilZero.string_of_uint d = NilEmpty.string_of_uint d)
    by (destruct d; [contradiction|reflexivity..]).
  rewrite span_digits_append
    by (rewrite ?Hs; auto using all_digits_string_of_uint).
  simpl fst. simpl snd. rewrite (NilZero.usu d Hnil).
  assert (Hlead : match NilZero.string_of_uint d with
                  | String "0" (String _ _) => true
                  | _ => false
                  end = false).
  { rewrite Hs. destruct d; try reflexivity.
    rewrite (Hzero d eq_refl). reflexivity. }
  destruct (NilZero.string_of_uint d) as [|c [|c' ds]] eqn:E.
  - destruct rest as [|r rest]; [reflexivity|]. simpl in Hrest.
    destruct (is_digit r), (Ascii.eqb r "."), (Ascii.eqb r "e"), (Ascii.eqb r "E");
      try discriminate; reflexivity.
  - assert (Hend : match rest with
                   | String r _ =>
                       if Ascii.eqb r "." || Ascii.eqb r "e" || Ascii.eqb r "E"
                       then @Unmodelled (Z * string)
                       else Return (Z.of_N (N.of_uint d), rest)
                   | EmptyString => Return (Z.of_N (N.of_uint d), rest)
                   end = Return (Z.of_N (N.of_uint d), rest)).
    { destruct rest as [|r rest]; [reflexivity|]. simpl in Hrest.
      destruct (is_digit r), (Ascii.eqb r "."), (Ascii.eqb r "e"), (Ascii.eqb r "E");
        try discriminate; reflexivity. }
    destruct c as [[] [] [] [] [] [] [] []]; exact Hend.
  - assert (Hend : match rest with
                   | String r _ =>
                       if Ascii.eqb r "." || Ascii.eqb r "e" || Ascii.eqb r "E"
                       then @Unmodelled (Z * string)
                       else Return (Z.of_N (N.of_uint d), rest)
                   | EmptyString => Return (Z.of_N (N.of_uint d), rest)
                   end = Return (Z.of_N (N.of_uint d), rest)).
    { destruct rest as [|r rest]; [reflexivity|]. simpl in Hrest.
      destruct (is_digit r), (Ascii.eqb r "."), (Ascii.eqb r "e"), (Ascii.eqb r "E");
        try discriminate; reflexivity. }
    destruct c as [[] [] [] [] [] [] [] []]; try exact Hend. discriminate.
Qed.

Lemma string_of_uint_digit (d : Decimal.uint) :
  d <> Decimal.Nil ->
  exists c s, NilZero.string_of_uint d = String c s /\ is_digit c = true.
Proof. destruct d; [contradiction|intros _; simpl; eauto..]. Qed.

Lemma parse_number_digit (c : ascii) (s : string) :
  is_digit c = true ->
  parse_number (String c s)
  = ('(n, rest) ← parse_digits (String c s); Return (VNum n, rest)).
Proof. destruct c as [[] [] [] [] [] [] [] []]; try discriminate; reflexivity. Qed.

Lemma parse_number_string_of_N (n : N) (rest : string) :
  number_end rest = true ->
  parse_number (NilZero.string_of_uint (N.to_uint n) +:+ rest)
  = Return (VNum (Z.of_N n), rest).
Proof.
  intros Hrest.
  destruct (string_of_uint_digit (N.to_uint n)) as (c & s & E & Hc);
    [apply normal_to_uint|].
  pose proof (parse_digits_string_of_uint _ rest (normal_to_uint n) Hrest) as H.
  rewrite DecimalN.Unsigned.of_to in H.
  rewrite E in *. rewrite append_cons in *.
  now rewrite (parse_number_digit c _ Hc), H.
Qed.

Lemma parse_number_string_of_Z (n : Z) (rest : string) :
  number_end rest = true ->
  parse_number (string_of_Z n +:+ rest) = Return (VNum n, rest).
Proof.
  intros Hrest. destruct n as [|p|p]; unfold string_of_Z.
  - apply (parse_number_string_of_N 0 rest Hrest).
  - apply (parse_number_string_of_N (N.pos p) rest Hrest).
  - rewrite append_cons. unfold parse_number.
    rewrite (parse_digits_string_of_uint _ rest (normal_to_uint (N.pos p)) Hrest).
    now rewrite DecimalN.Unsigned.of_to.
Qed.

Lemma string_of_Z_start (n : Z) :
  exists c s, string_of_Z n = String c s
              /\ (Ascii.eqb c "-" || is_digit c) = true.
Proof.
  destruct n as [|p|p]; simpl; eauto.
  destruct (string_of_uint_digit (N.to_uint (N.pos p))) as (c & s & E & Hc);
    [apply normal_to_uint|].
  exists c, s. split; [exact E|]. rewrite Hc. apply orb_true_r.
Qed.

(** *** Arrays and objects *)

Lemma inner_ws_all_ws (gap indent : string) :
  all_ws gap = true -> all_ws indent = true -> all_ws (inner_ws gap indent) = true.
Proof.
  intros Hg Hi. unfold inner_ws. destruct (String.eqb gap ""); [reflexivity|].
  apply all_ws_append; [reflexivity|]. now apply all_ws_append.
Qed.

Lemma outer_ws_all_ws (gap indent : string) :
  all_ws indent = true -> all_ws (outer_ws gap indent) = true.
Proof.
  intros Hi. unfold outer_ws. destruct (String.eqb gap ""); [reflexivity|].
  now apply all_ws_append.
Qed.

Lemma foldr_tail_text (w1 w2 : string) (close : ascii) (ts : list string) :
  foldr (fun x acc => String "," w1 +:+ x +:+ acc) "" ts +:+ w2 +:+ String close ""
  = tail_text w1 w2 close ts.
Proof.
  induction ts as [|t ts IH]; [reflexivity|]. simpl.
  str_norm. now rewrite IH.
Qed.

Lemma wrap_cons (open close : ascii) (gap indent t : string) (ts : list string) :
  wrap (String open "") (String close "") gap indent (t :: ts)
  = String open (inner_ws gap indent +:+ t
                 +:+ tail_text (inner_ws gap indent) (outer_ws gap indent) close ts).
Proof.
  unfold wrap, inner_ws, outer_ws, join_with.
  destruct (String.eqb gap "").
  - rewrite <- foldr_tail_text. str_norm. reflexivity.
  - rewrite <- foldr_tail_text. unfold newline. str_norm. reflexivity.
Qed.

Lemma value_start_length (t : string) : value_start t = true -> 1 <= String.length t.
Proof. destruct t; [discriminate|simpl; lia]. Qed.

Lemma skip_ws_value (t s : string) : value_start t = true -> skip_ws (t +:+ s) = t +:+ s.
Proof.
  destruct t as [|c t]; [discriminate|]. rewrite append_cons. simpl.
  destruct (is_ws c); [discriminate|reflexivity].
Qed.

Lemma head_is_value (t s : string) :
  value_start t = true -> head_is "]" (t +:+ s) = None.
Proof.
  destruct t as [|c t]; [discriminate|]. rewrite append_cons.
  unfold head_is, value_start. rewrite (Ascii.eqb_sym "]" c).
  destruct (Ascii.eqb c "]"); [rewrite andb_false_r; discriminate|reflexivity].
Qed.

Lemma tail_text_number_end (w1 w2 : string) (close : ascii) (ts : list string) (rest : string) :
  all_ws w2 = true -> number_end (String close rest) = true ->
  number_end (tail_text w1 w2 close ts +:+ rest) = true.
Proof.
  intros Hw Hc. destruct ts as [|t ts]; simpl.
  - rewrite append_assoc. now apply number_end_ws.
  - reflexivity.
Qed.

Lemma tail_text_close (w1 w2 : string) (close : ascii) (rest : string) :
  all_ws w2 = true -> is_ws close = false ->
  skip_ws (tail_text w1 w2 close [] +:+ rest) = String close rest.
Proof.
  intros Hw Hc. simpl. rewrite append_assoc, skip_ws_append by exact Hw.
  rewrite append_cons. simpl. now rewrite Hc.
Qed.

Lemma skip_ws_nonws (c : ascii) (s : string) :
  is_ws c = false -> skip_ws (String c s) = String c s.
Proof. intros H. simpl. now rewrite H. Qed.

Lemma head_is_same (c : ascii) (s : string) : head_is c (String c s) = Some s.
Proof. unfold head_is. now rewrite Ascii.eqb_refl. Qed.

Lemma parse_elements_S (fuel : nat) (s : string) (acc : list value) :
  parse_elements (S fuel) s acc
  = ('(v, rest) ← parse_value fuel s;
     match head_is "," (skip_ws rest) with
     | Some rest' => parse_elements fuel rest' (acc ++ [v])
     | None =>
         match head_is "]" (skip_ws rest) with
         | Some rest' => Return (VArr (acc ++ [v]), rest')
         | None => Throw SyntaxError
         end
     end).
Proof. reflexivity. Qed.

Lemma parse_elements_texts (w1 w2 : string) :
  all_ws w1 = true -> all_ws w2 = true ->
  forall items texts, Forall2 parses items texts ->
  forall x t acc rest fuel,
    parses x t ->
    2 * String.length (t +:+ tail_text w1 w2 "]" texts) + 2 <= fuel ->
    parse_elements fuel (w1 +:+ t +:+ tail_text w1 w2 "]" texts +:+ rest) acc
    = Return (VArr (acc ++ x :: items), rest).
Proof.
  intros Hw1 Hw2. induction 1 as [|x' t' items texts Hx' _ IH];
    intros x t acc rest fuel [Hstart Hx] Hfuel;
    (destruct fuel as [|fuel]; [lia|]);
    rewrite length_append in Hfuel; rewrite parse_elements_S;
    (rewrite (Hx w1 _ fuel Hw1);
     [|now apply tail_text_number_end|lia]); outcome_simpl.
  - rewrite (tail_text_close w1 w2 "]" rest Hw2 eq_refl). reflexivity.
  - change (tail_text w1 w2 "]" (t' :: texts))
      with (String "," (w1 +:+ t' +:+ tail_text w1 w2 "]" texts)) in *.
    rewrite append_cons, skip_ws_nonws, head_is_same by reflexivity.
    rewrite !append_assoc.
    rewrite (IH x' t' (acc ++ [x]) rest fuel Hx').
    + now rewrite <- app_assoc.
    + simpl in Hfuel. rewrite length_append in Hfuel.
      pose proof (value_start_length t Hstart). lia.
Qed.

Lemma set_prop_fresh {A} (k : string) (v : A) (acc : list (string * A)) :
  k ∉ map fst acc -> set_prop k v acc = acc ++ [(k, v)].
Proof.
  induction acc as [|[k' w] acc IH]; [reflexivity|]. simpl.
  intros Hk. apply not_elem_of_cons in Hk as [Hne Hk].
  destruct (String.eqb_spec k k'); [contradiction|]. now rewrite IH.
Qed.

Lemma parse_members_S (fuel : nat) (s : string) (acc : list (string * value)) :
  parse_members (S fuel) s acc
  = match head_is dquote (skip_ws s) with
    | None => Throw SyntaxError
    | Some rest =>
        '(key, rest1) ← parse_chars rest;
        match head_is ":" (skip_ws rest1) with
        | None => Throw SyntaxError
        | Some rest2 =>
            '(v, rest3) ← parse_value fuel rest2;
            match head_is "," (skip_ws rest3) with
            | Some rest4 => parse_members fuel rest4 (set_prop key v acc)
            | None =>
                match head_is "}" (skip_ws rest3) with
                | Some rest4 => Return (VObj (set_prop key v acc), rest4)
                | None => Throw SyntaxError
                end
            end
        end
    end.
Proof. reflexivity. Qed.

Lemma member_text_length (gap k t : string) :
  String.length t + 3 <= String.length (member_text gap k t).
Proof.
  unfold member_text. rewrite !length_append. pose proof (quote_length k).
  change (String.length ":") with 1. lia.
Qed.

Lemma parse_members_texts (gap w1 w2 : string) :
  all_ws w1 = true -> all_ws w2 = true ->
  forall props mtexts, Forall2 (member_parses gap) props mtexts ->
  forall k x t acc rest fuel,
    parses x t ->
    NoDup (map fst acc ++ k :: map fst props) ->
    2 * String.length (member_text gap k t +:+ tail_text w1 w2 "}" mtexts) + 2 <= fuel ->
    parse_members fuel
      (w1 +:+ member_text gap k t +:+ tail_text w1 w2 "}" mtexts +:+ rest) acc
    = Return (VObj (acc ++ (k, x) :: props), rest).
Proof.
  intros Hw1 Hw2.
  assert (Hsp : all_ws (if String.eqb gap "" then "" else " ") = true)
    by (destruct (String.eqb gap ""); reflexivity).
  assert (Hhead : forall k x t acc mtexts rest fuel,
    parses x t ->
    k ∉ map fst acc ->
    2 * String.length (member_text gap k t +:+ tail_text w1 w2 "}" mtexts) + 2 <= S fuel ->
    parse_members (S fuel)
      (w1 +:+ member_text gap k t +:+ tail_text w1 w2 "}" mtexts +:+ rest) acc
    = match head_is "," (skip_ws (tail_text w1 w2 "}" mtexts +:+ rest)) with
      | Some rest4 => parse_members fuel rest4 (acc ++ [(k, x)])
      | None =>
          match head_is "}" (skip_ws (tail_text w1 w2 "}" mtexts +:+ rest)) with
          | Some rest4 => Return (VObj (acc ++ [(k, x)]), rest4)
          | None => Throw SyntaxError
          end
      end).
  { intros k x t acc mtexts rest fuel [Hstart Hx] Hk Hfuel.
    rewrite parse_members_S, skip_ws_append by exact Hw1.
    unfold member_text at 1, quote. str_norm.
    rewrite skip_ws_nonws, head_is_same by reflexivity.
    rewrite parse_chars_escape. outcome_simpl.
    rewrite skip_ws_nonws, head_is_same by reflexivity.
    rewrite (Hx _ _ fuel Hsp).
    - outcome_simpl. now rewrite (set_prop_fresh k x acc Hk).
    - now apply tail_text_number_end.
    - rewrite length_append in Hfuel. pose proof (member_text_length gap k t). lia. }
  induction 1 as [|[k' x'] m' props mtexts (t' & -> & Hx') _ IH];
    intros k x t acc rest fuel Hx Hnd Hfuel;
    (destruct fuel as [|fuel]; [lia|]);
    (rewrite (Hhead k x t acc _ rest fuel Hx); [| |exact Hfuel]).
  - rewrite (tail_text_close w1 w2 "}" rest Hw2 eq_refl). reflexivity.
  - apply NoDup_app in Hnd as (_ & Hnd & _). intros Hin. apply (Hnd k Hin). left.
  - cbn [fst snd] in *.
    change (tail_text w1 w2 "}" (member_text gap k' t' :: mtexts))
      with (String "," (w1 +:+ member_text gap k' t' +:+ tail_text w1 w2 "}" mtexts)) in *.
    rewrite append_cons, skip_ws_nonws, head_is_same by reflexivity.
    rewrite !append_assoc.
    rewrite (IH k' x' t' (acc ++ [(k, x)]) rest fuel Hx').
    + now rewrite <- app_assoc.
    + rewrite map_app. simpl. now rewrite <- app_assoc.
    + assert (Hlen : String.length
                (member_text gap k t
                 +:+ String "," (w1 +:+ member_text gap k' t' +:+ tail_text w1 w2 "}" mtexts))
              = String.length (member_text gap k t)
                + S (String.length w1
                     + String.length (member_text gap k' t' +:+ tail_text w1 w2 "}" mtexts)))
        by (rewrite length_append; cbn [String.length]; now rewrite length_append).
      rewrite Hlen in Hfuel. lia.
  - apply NoDup_app in Hnd as (_ & Hnd & _). intros Hin. apply (Hnd k Hin). left.
Qed.

(** *** Values *)

Lemma parse_value_skip (fuel : nat) (w s : string) :
  all_ws w = true -> parse_value fuel (w +:+ s) = parse_value fuel s.
Proof.
  intros Hw. destruct fuel as [|fuel]; [reflexivity|].
  simpl. now rewrite skip_ws_append.
Qed.

Lemma parse_value_number (fuel : nat) (c : ascii) (s : string) :
  (Ascii.eqb c "-" || is_digit c) = true ->
  parse_value (S fuel) (String c s) = parse_number (String c s).
Proof. destruct c as [[] [] [] [] [] [] [] []]; try discriminate; reflexivity. Qed.

Lemma parse_value_string (fuel : nat) (body : string) :
  parse_value (S fuel) (String dquote body)
  = ('(text, r) ← parse_chars body; Return (VStr text, r)).
Proof. reflexivity. Qed.

Lemma parse_value_array (fuel : nat) (rest : string) :
  parse_value (S fuel) (String "[" rest)
  = match head_is "]" (skip_ws rest) with
    | Some rest' => Return (VArr [], rest')
    | None => parse_elements fuel rest []
    end.
Proof. reflexivity. Qed.

Lemma parse_value_object (fuel : nat) (rest : string) :
  parse_value (S fuel) (String "{" rest)
  = match head_is "}" (skip_ws rest) with
    | Some rest' => Return (VObj [], rest')
    | None => parse_members fuel rest []
    end.
Proof. reflexivity. Qed.

Lemma parses_literal (v : value) (word : string) :
  value_start word = true ->
  (forall fuel rest, parse_value (S fuel) (word +:+ rest) = Return (v, rest)) ->
  parses v word.
Proof.
  intros Hstart H. split; [exact Hstart|].
  intros w rest fuel Hw _ Hfuel. destruct fuel as [|fuel]; [lia|].
  rewrite parse_value_skip by exact Hw. apply H.
Qed.

Lemma parses_number (n : Z) : parses (VNum n) (string_of_Z n).
Proof.
  destruct (string_of_Z_start n) as (c & s & E & Hc). split.
  - rewrite E. simpl.
    destruct c as [[] [] [] [] [] [] [] []]; try discriminate; reflexivity.
  - intros w rest fuel Hw Hrest Hfuel. destruct fuel as [|fuel]; [lia|].
    rewrite parse_value_skip by exact Hw.
    rewrite <- (parse_number_string_of_Z n rest Hrest).
    rewrite E, append_cons. now apply parse_value_number.
Qed.

Lemma parses_string (s : string) : parses (VStr s) (quote s).
Proof.
  split; [reflexivity|].
  intros w rest fuel Hw _ Hfuel. destruct fuel as [|fuel]; [lia|].
  rewrite parse_value_skip by exact Hw.
  destruct (parse_chars_quote s rest) as (body & -> & Hbody).
  now rewrite parse_value_string, Hbody.
Qed.

Lemma parses_array (gap indent : string) (items : list value) (texts : list string) :
  all_ws gap = true -> all_ws indent = true ->
  Forall2 parses items texts ->
  parses (VArr items) (wrap "[" "]" gap indent texts).
Proof.
  intros Hg Hi [|x t items' texts' Hx Hrest].
  { apply parses_literal; reflexivity. }
  rewrite wrap_cons. split; [reflexivity|].
  intros w rest fuel Hw _ Hfuel. destruct fuel as [|fuel]; [lia|].
  rewrite parse_value_skip by exact Hw.
  rewrite append_cons, parse_value_array, !append_assoc.
  rewrite skip_ws_append by now apply inner_ws_all_ws.
  rewrite skip_ws_value, head_is_value by apply Hx.
  rewrite (parse_elements_texts _ _ (inner_ws_all_ws _ _ Hg Hi)
             (outer_ws_all_ws gap _ Hi) _ _ Hrest x t [] rest fuel Hx); [reflexivity|].
  cbn [String.length] in Hfuel. rewrite length_append in Hfuel. lia.
Qed.

Lemma parses_object (gap indent : string) (props : list (string * value))
  (mtexts : list string) :
  all_ws gap = true -> all_ws indent = true ->
  NoDup (map fst props) ->
  Forall2 (member_parses gap) props mtexts ->
  parses (VObj props) (wrap "{" "}" gap indent mtexts).
Proof.
  intros Hg Hi Hnd H. revert Hnd.
  destruct H as [|[k x] m props' mtexts' (t & -> & Hx) Hrest]; intros Hnd.
  { apply parses_literal; reflexivity. }
  cbn [fst snd] in *.
  rewrite wrap_cons. split; [reflexivity|].
  intros w rest fuel Hw _ Hfuel. destruct fuel as [|fuel]; [lia|].
  rewrite parse_value_skip by exact Hw.
  rewrite append_cons, parse_value_object, !append_assoc.
  rewrite skip_ws_append by now apply inner_ws_all_ws.
  assert (Hhead : forall s, head_is "}" (skip_ws (member_text gap k t +:+ s)) = None).
  { intros s. unfold member_text, quote. str_norm. reflexivity. }
  rewrite Hhead.
  rewrite (parse_members_texts gap _ _ (inner_ws_all_ws _ _ Hg Hi)
             (outer_ws_all_ws gap _ Hi) _ _ Hrest k x t [] rest fuel Hx); [reflexivity| |].
  - exact Hnd.
  - cbn [String.length] in Hfuel. rewrite length_append in Hfuel. lia.
Qed.

(** Every JSON-compatible value serialises to a text that parses back to
    it. *)
Lemma serialize_parses (gap : string) :
  all_ws gap = true ->
  forall n v indent,
    height v <= n -> is_json v = true -> all_ws indent = true ->
    exists t, serialize gap indent v = Some t /\ parses v t.
Proof.
  intros Hg. induction n as [|n IH]; intros v indent Hh Hj Hi.
  - destruct v as [| |[|]|z|s|items|props]; simpl in Hh; try lia; try discriminate;
      eexists; (split; [reflexivity|]).
    + apply parses_literal; reflexivity.
    + apply parses_literal; reflexivity.
    + apply parses_literal; reflexivity.
    + apply parses_number.
    + apply parses_string.
  - destruct v as [| |[|]|z|s|items|props]; try discriminate;
      try (eexists; (split; [reflexivity|]);
           first [apply parses_number | apply parses_string
                 | apply parses_literal; reflexivity]).
    + assert (Htexts : Forall2 parses items
                (map (fun x => default "null" (serialize gap (indent +:+ gap) x)) items)).
      { assert (Hitems : forall x, In x items -> height x <= n)
          by (intros x Hx; apply height_item in Hx; lia).
        simpl in Hj. clear Hh. induction items as [|x items IHitems]; [constructor|].
        simpl in Hj. apply andb_true_iff in Hj as [Hjx Hj].
        destruct (IH x (indent +:+ gap) (Hitems x (or_introl eq_refl)) Hjx
                    (all_ws_append _ _ Hi Hg)) as (t & Ht & Hp).
        simpl. rewrite Ht. constructor; [exact Hp|].
        apply IHitems; [exact Hj|intros y Hy; apply Hitems; now right]. }
      eexists. split; [reflexivity|]. now apply parses_array.
    + simpl in Hj. apply andb_true_iff in Hj as [Hj Hnd].
      apply bool_decide_eq_true in Hnd.
      assert (Htexts : Forall2 (member_parses gap) props
                (omap (fun kv =>
                         match serialize gap (indent +:+ gap) (snd kv) with
                         | Some text =>
                             Some (quote (fst kv) +:+ ":"
                                   +:+ (if String.eqb gap "" then "" else " ") +:+ text)
                         | None => None
                         end) props)).
      { assert (Hprops : forall k x, In (k, x) props -> height x <= n)
          by (intros k x Hx; apply height_prop in Hx; lia).
        clear Hh Hnd. induction props as [|[k x] props IHprops]; [constructor|].
        simpl in Hj. apply andb_true_iff in Hj as [Hjx Hj].
        destruct (IH x (indent +:+ gap) (Hprops k x (or_introl eq_refl)) Hjx
                    (all_ws_append _ _ Hi Hg)) as (t & Ht & Hp).
        simpl. rewrite Ht. simpl. constructor; [exists t; split; [reflexivity|exact Hp]|].
        apply IHprops; [exact Hj|intros k' y Hy; apply (Hprops k'); now right]. }
      eexists. split; [reflexivity|]. now apply parses_object.
Qed.

(** [JSON.parse(JSON.stringify(v, null, space))] is [v] for every
    JSON-compatible [v]. *)
Lemma JSON_parse_stringify (v : value) (space : nat) :
  is_json v = true ->
  exists text, JSON_stringify v space = Some text /\ JSON_parse text = Return v.
Proof.
  intros Hj. unfold JSON_stringify.
  destruct (serialize_parses _ (all_ws_spaces (Nat.min space 10)) (height v) v ""
              (le_n _) Hj eq_refl) as (t & Ht & _ & Hp).
  exists t. split; [exact Ht|]. unfold JSON_parse.
  specialize (Hp "" "" (2 * String.length t + 2) eq_refl eq_refl).
  rewrite append_nil_l, append_nil_r in Hp. rewrite Hp by lia. reflexivity.
Qed.

(** ** Saving and loading a baseline *)

Lemma writeFileSync_Return (fs : filesystem) (p : file_path) (data : string) :
  can_write fs p = true ->
  writeFileSync fs p data = Return (<[p := File data true]> fs).
Proof.
  unfold can_write, writeFileSync.
  destruct (fs !! p) as [[d [|]|w]|]; try discriminate; [reflexivity|].
  destruct (fs !! dirname p) as [[d w|[|]]|]; try discriminate. reflexivity.
Qed.

Lemma can_write_new_file (fs : filesystem) (baselinePath : file_path) (pageName : string) :
  existsSync fs (baselineFile baselinePath pageName) = false ->
  fs !! baselinePath = Some (Directory true) ->
  can_write fs (baselineFile baselinePath pageName) = true.
Proof.
  intros Hex Hdir. unfold can_write.
  unfold existsSync in Hex. apply bool_decide_eq_false in Hex.
  destruct (fs !! baselineFile baselinePath pageName) eqn:E; [exfalso; apply Hex; eauto|].
  now rewrite dirname_baselineFile, Hdir.
Qed.

(** Writing a JSON-compatible document and loading the file again. *)
Lemma write_json_then_load (fs : filesystem) (file : file_path) (doc : value) :
  is_json doc = true -> can_write fs file = true ->
  exists text,
    JSON_stringify doc 2 = Some text
    /\ write_json fs file doc = Return (<[file := File text true]> fs)
    /\ loadBaseline (<[file := File text true]> fs) file = Return doc.
Proof.
  intros Hj Hw. destruct (JSON_parse_stringify doc 2 Hj) as (text & Ht & Hp).
  exists text. split; [exact Ht|]. split.
  - unfold write_json. rewrite Ht. now apply writeFileSync_Return.
  - unfold loadBaseline, readFileSync. rewrite lookup_insert_eq. exact Hp.
Qed.

(** C10: for a [baselineType] other than ['json-ld'] and ['meta-tags'], the
    'Unsupported baseline type' error is raised only when the baseline file
    exists (and it is raised as soon as that file can be read and parsed);
    when the file does not exist (the page name being a plain one -- short,
    without separators -- and the baseline directory one that can take the
    file) the
    call returns the meta-tags-shaped result with [matches: true], having
    written a file that, for a JSON-compatible value, loads back as the
    meta-tags-shaped document holding the extracted value. *)
Theorem unsupported_type_needs_baseline (extractedData : value) (pageName : string)
  (baselinePath : file_path) (baselineType : string) (fs : filesystem) :
  baselineType <> "json-ld" -> baselineType <> "meta-tags" ->
  (forall msg,
      compareWithBaseline extractedData pageName baselinePath baselineType fs
      = Throw (Error msg) ->
      existsSync fs (baselineFile baselinePath pageName) = true)
  /\ (forall doc,
         existsSync fs (baselineFile baselinePath pageName) = true ->
         loadBaseline fs (baselineFile baselinePath pageName) = Return doc ->
         compareWithBaseline extractedData pageName baselinePath baselineType fs
         = Throw (Error ("Unsupported baseline type: " +:+ baselineType)))
  /\ (plain_name pageName = true ->
      existsSync fs (baselineFile baselinePath pageName) = false ->
      is_nullish extractedData = false ->
      fs !! baselinePath = Some (Directory true) ->
      exists keys text,
        Object_keys extractedData = Return keys
        /\ compareWithBaseline extractedData pageName baselinePath baselineType fs
           = Return (MetaTagsComparison
                       {| tags_match := true; tag_differences := [];
                          missingTags := []; newTags := [] |},
                     <[baselineFile baselinePath pageName := File text true]> fs)
        /\ (is_json extractedData = true ->
            loadBaseline (<[baselineFile baselinePath pageName := File text true]> fs)
              (baselineFile baselinePath pageName)
            = Return (VObj [("metaTags", extractedData);
                            ("metaTagCount", VNum (Z.of_nat (length keys)))]))).
Proof.
  intros Hj Hm.
  apply String.eqb_neq in Hj. apply String.eqb_neq in Hm.
  unfold compareWithBaseline. split; [|split].
  - intros msg. destruct (existsSync fs _); [reflexivity|]. simpl.
    pose proof (first_baseline_not_Error extractedData baselineType msg) as Hf.
    destruct (first_baseline extractedData baselineType) as [doc| |];
      [|simpl; congruence|discriminate].
    outcome_simpl.
    pose proof (write_json_not_Error fs (baselineFile baselinePath pageName) doc msg) as Hw.
    destruct (write_json fs _ doc) as [fs'| |]; simpl; [discriminate|congruence|discriminate].
  - intros doc -> ->. simpl. now rewrite Hj, Hm.
  - intros _ Hex Hn Hdir. rewrite Hex. simpl.
    unfold first_baseline, first_result. rewrite Hj.
    assert (Hkeys : exists keys, Object_keys extractedData = Return keys)
      by (destruct extractedData; try discriminate; simpl; eauto).
    destruct Hkeys as [keys Hkeys]. rewrite Hkeys. outcome_simpl.
    destruct (JSON_stringify_object
                [("metaTags", extractedData);
                 ("metaTagCount", VNum (Z.of_nat (length keys)))] 2) as [text Htext].
    exists keys, text. split; [reflexivity|]. split.
    + unfold baselineFile in *.
      now rewrite (write_json_new_file _ _ _ _ text Hex Hdir Htext).
    + intros Hjson.
      assert (Hjdoc : is_json (VObj [("metaTags", extractedData);
                                     ("metaTagCount", VNum (Z.of_nat (length keys)))])
                      = true)
        by (simpl; now rewrite Hjson).
      destruct (write_json_then_load fs (baselineFile baselinePath pageName) _ Hjdoc
                  (can_write_new_file _ _ _ Hex Hdir)) as (text' & Ht' & _ & Hload).
      rewrite Htext in Ht'. injection Ht' as <-. exact Hload.
Qed.

Lemma unsupported_type_needs_baseline_witness :
  "open-graph" <> "json-ld" /\ "open-graph" <> "meta-tags"
  /\ compareWithBaseline (demo_tags "B") "home" ["baselines"] "open-graph" demo_fs
     = Throw (Error "Unsupported baseline type: open-graph")
  /\ exists keys text,
       Object_keys (demo_tags "B") = Return keys
       /\ compareWithBaseline (demo_tags "B") "home" ["baselines"] "open-graph" demo_dirs
          = Return (MetaTagsComparison
                      {| tags_match := true; tag_differences := [];
                         missingTags := []; newTags := [] |},
                    <[baselineFile ["baselines"] "home" := File text true]> demo_dirs)
       /\ loadBaseline (<[baselineFile ["baselines"] "home" := File text true]> demo_dirs)
            (baselineFile ["baselines"] "home")
          = Return (VObj [("metaTags", demo_tags "B");
                          ("metaTagCount", VNum (Z.of_nat (length keys)))]).
Proof.
  assert (Hj : "open-graph" <> "json-ld") by discriminate.
  assert (Hm : "open-graph" <> "meta-tags") by discriminate.
  split; [exact Hj|]. split; [exact Hm|]. split.
  - destruct (unsupported_type_needs_baseline (demo_tags "B") "home" ["baselines"]
                "open-graph" demo_fs Hj Hm) as (_ & Hthrow & _).
    apply (Hthrow (VObj [("metaTags", demo_tags "A"); ("metaTagCount", VNum 2)])).
    + reflexivity.
    + vm_compute. reflexivity.
  - destruct (unsupported_type_needs_baseline (demo_tags "B") "home" ["baselines"]
                "open-graph" demo_dirs Hj Hm) as (_ & _ & Hfirst).
    destruct (Hfirst eq_refl eq_refl eq_refl eq_refl)
      as (keys & text & Hkeys & Hrun & Hload).
    exists keys, text. split; [exact Hkeys|]. split; [exact Hrun|].
    apply Hload. reflexivity.
Defined.

(** C4: when no baseline file exists (and the baseline directory can take
    one), [compareWithBaseline] on any value other than [undefined] and
    [null], for any plain page name (short, without separators) and any
    kind, returns
    normally with [matches: true] and three empty buckets, having written
    the baseline file; for a JSON-compatible value (a list for the json-ld
    kind) the file written loads back to the baseline document built from
    the extracted value, whose payload is the extracted value. *)
Theorem first_run_creates_baseline (extractedData : value) (pageName : string)
  (baselinePath : file_path) (baselineType : string) (fs : filesystem) :
  plain_name pageName = true ->
  existsSync fs (baselineFile baselinePath pageName) = false ->
  fs !! baselinePath = Some (Directory true) ->
  is_nullish extractedData = false ->
  exists doc text,
    first_baseline extractedData baselineType = Return doc
    /\ compareWithBaseline extractedData pageName baselinePath baselineType fs
       = Return (first_result baselineType,
                 <[baselineFile baselinePath pageName := File text true]> fs)
    /\ result_matches (first_result baselineType) = true
    /\ buckets_empty (first_result baselineType)
    /\ (is_json extractedData = true ->
        (baselineType = "json-ld" -> isArray extractedData = true) ->
        loadBaseline (<[baselineFile baselinePath pageName := File text true]> fs)
          (baselineFile baselinePath pageName) = Return doc
        /\ get doc (payload_field baselineType) = Return extractedData).
Proof.
  intros _ Hex Hdir Hn.
  destruct (first_baseline_Return extractedData baselineType Hn)
    as (payload & count & Hdoc & Hpayload).
  destruct (JSON_stringify_object [(payload, extractedData); count] 2) as [text Htext].
  exists (VObj [(payload, extractedData); count]), text.
  split; [exact Hdoc|]. split; [|split; [|split]].
  - unfold compareWithBaseline. rewrite Hex, Hdoc. simpl. outcome_simpl.
    unfold baselineFile in *.
    now rewrite (write_json_new_file _ _ _ _ text Hex Hdir Htext).
  - unfold first_result. now destruct (String.eqb baselineType "json-ld").
  - unfold first_result. destruct (String.eqb baselineType "json-ld"); simpl; auto.
  - intros Hj Harr. split.
    + assert (Hjdoc : is_json (VObj [(payload, extractedData); count]) = true).
      { unfold first_baseline in Hdoc. subst payload.
        destruct (String.eqb_spec baselineType "json-ld") as [E|E].
        - specialize (Harr E). destruct extractedData; try discriminate.
          simpl in Hdoc. injection Hdoc as <-. simpl in *. rewrite Hj. reflexivity.
        - destruct (Object_keys extractedData) as [keys| |]; try discriminate.
          simpl in Hdoc. injection Hdoc as <-. simpl in *. rewrite Hj. reflexivity. }
      destruct (write_json_then_load fs (baselineFile baselinePath pageName) _ Hjdoc
                  (can_write_new_file _ _ _ Hex Hdir)) as (text' & Ht' & _ & Hload).
      rewrite Htext in Ht'. injection Ht' as <-. exact Hload.
    + subst payload. unfold payload_field. simpl.
      destruct (String.eqb baselineType "json-ld"); simpl; reflexivity.
Qed.

Lemma first_run_creates_baseline_witness :
  exists doc text,
    first_baseline demo_blocks "json-ld" = Return doc
    /\ compareWithBaseline demo_blocks "home" ["baselines"] "json-ld" demo_dirs
       = Return (first_result "json-ld",
                 <[baselineFile ["baselines"] "home" := File text true]> demo_dirs)
    /\ loadBaseline (<[baselineFile ["baselines"] "home" := File text true]> demo_dirs)
         (baselineFile ["baselines"] "home") = Return doc
    /\ get doc "jsonLdData" = Return demo_blocks.
Proof.
  destruct (first_run_creates_baseline demo_blocks "home" ["baselines"] "json-ld"
              demo_dirs eq_refl eq_refl eq_refl eq_refl)
    as (doc & text & Hdoc & Hrun & _ & _ & Hload).
  exists doc, text. split; [exact Hdoc|]. split; [exact Hrun|].
  apply Hload; reflexivity.
Defined.

Lemma own_props_array_length (items : list value) :
  length (own_props (VArr items)) = length items.
Proof.
  simpl. unfold index_keys.
  rewrite length_zip_with, length_map, length_seq. lia.
Qed.

(** C7: saving a JSON-compatible value with [updateBaseline] (a list for the
    json-ld kind, anything but [null] for the meta-tags kind) under a plain
    page name (short, without separators) and loading the
    baseline of the same page and kind yields the document made of the value
    itself under the payload field, the number of its entries under the count
    field, and [lastUpdated]; the payload read from it is the value saved. *)
Theorem updateBaseline_then_load (now : string) (extractedData : value)
  (pageName : string) (baselinePath : file_path) (baselineType : string)
  (fs : filesystem) :
  plain_name pageName = true ->
  (baselineType = "json-ld" /\ isArray extractedData = true)
  \/ (baselineType = "meta-tags" /\ is_nullish extractedData = false) ->
  is_json extractedData = true ->
  can_write fs (baselineFile baselinePath pageName) = true ->
  exists fs',
    updateBaseline now extractedData pageName baselinePath baselineType fs = Return fs'
    /\ loadBaseline fs' (baselineFile baselinePath pageName)
       = Return (VObj [(payload_field baselineType, extractedData);
                       (count_field baselineType,
                        VNum (Z.of_nat (length (own_props extractedData))));
                       ("lastUpdated", VStr now)])
    /\ (baselineData ← loadBaseline fs' (baselineFile baselinePath pageName);
        get baselineData (payload_field baselineType)) = Return extractedData.
Proof.
  intros _ Hkind Hj Hw. unfold updateBaseline.
  set (doc := VObj [(payload_field baselineType, extractedData);
                    (count_field baselineType,
                     VNum (Z.of_nat (length (own_props extractedData))));
                    ("lastUpdated", VStr now)]).
  assert (Hdoc :
    (if String.eqb baselineType "json-ld"
     then count ← get extractedData "length";
          Return (VObj [("jsonLdData", extractedData); ("count", count);
                        ("lastUpdated", VStr now)])
     else keys ← Object_keys extractedData;
          Return (VObj [("metaTags", extractedData);
                        ("metaTagCount", VNum (Z.of_nat (length keys)));
                        ("lastUpdated", VStr now)]))
    = Return doc /\ is_json doc = true).
  { subst doc. unfold payload_field, count_field.
    destruct Hkind as [[-> Harr]|[-> Hn]]; simpl String.eqb; cbv iota.
    - destruct extractedData as [| | | | |items|]; try discriminate.
      rewrite own_props_array_length. split; [reflexivity|].
      simpl in *. now rewrite Hj.
    - assert (Hkeys : Object_keys extractedData
                      = Return (map fst (own_props extractedData)))
        by (destruct extractedData; (discriminate || reflexivity)).
      rewrite Hkeys. outcome_simpl. rewrite length_map. split; [reflexivity|].
      simpl. now rewrite Hj. }
  destruct Hdoc as [-> Hjdoc]. outcome_simpl.
  destruct (write_json_then_load fs (baselineFile baselinePath pageName) _ Hjdoc Hw)
    as (text & _ & Hwrite & Hload).
  exists (<[baselineFile baselinePath pageName := File text true]> fs).
  split; [exact Hwrite|]. split; [exact Hload|].
  rewrite Hload. outcome_simpl. subst doc. simpl.
  now rewrite String.eqb_refl.
Qed.

Lemma updateBaseline_then_load_witness :
  exists fs',
    updateBaseline "2024-05-01T10:00:00.000Z" (demo_tags "B") "home" ["baselines"]
      "meta-tags" demo_fs = Return fs'
    /\ loadBaseline fs' (baselineFile ["baselines"] "home")
       = Return (VObj [("metaTags", demo_tags "B"); ("metaTagCount", VNum 2);
                       ("lastUpdated", VStr "2024-05-01T10:00:00.000Z")]).
Proof.
  destruct (updateBaseline_then_load "2024-05-01T10:00:00.000Z" (demo_tags "B") "home"
              ["baselines"] "meta-tags" demo_fs eq_refl
              (or_intror (conj eq_refl eq_refl)) eq_refl eq_refl)
    as (fs' & Hsave & Hload & _).
  exists fs'. split; [exact Hsave|exact Hload].
Defined.

(** * Further properties *)

(** ** The differ on equal and nearly equal values *)

Lemma strict_neq_same (x : value) :
  is_nonnull_object x = false -> strict_neq x x = false.
Proof.
  unfold strict_neq. destruct x; simpl; try discriminate; intros _;
    rewrite ?Bool.eqb_reflx, ?Z.eqb_refl, ?String.eqb_refl; reflexivity.
Qed.

Lemma is_Some_assoc {A} (key : string) (props : list (string * A)) :
  In key (map fst props) -> is_Some (assoc key props).
Proof.
  induction props as [|[k v] props IH]; simpl; [tauto|].
  destruct (String.eqb_spec key k); [eauto|]. intros [?|?]; [congruence|auto].
Qed.

Lemma has_property_own (key : string) (v : value) :
  is_nonnull_object v = true -> In key (map fst (own_props v)) ->
  has_property key v = Return true.
Proof.
  intros Hv Hin. apply is_Some_assoc in Hin.
  destruct v; try discriminate; simpl.
  - rewrite (bool_decide_eq_true_2 _ Hin). now rewrite orb_true_r.
  - now rewrite (bool_decide_eq_true_2 _ Hin).
Qed.

Lemma get_object_Return (v : value) (key : string) :
  is_nullish v = false -> exists x, get v key = Return x.
Proof.
  destruct v; try discriminate; intros _; simpl;
    try destruct (String.eqb key "length"); eauto.
Qed.

Lemma is_nonnull_object_not_nullish (v : value) :
  is_nonnull_object v = true -> is_nullish v = false.
Proof. destruct v; (discriminate || reflexivity). Qed.

Lemma set_of_In (seen keys : list string) (k : string) :
  In k (set_of seen keys) -> In k keys.
Proof.
  revert seen. induction keys as [|x keys IH]; intros seen; simpl; [tauto|].
  destruct (existsb _ seen); [eauto|]. intros [?|?]; eauto.
Qed.

Lemma set_of_complete (seen keys : list string) (k : string) :
  In k keys -> In k seen \/ In k (set_of seen keys).
Proof.
  revert seen. induction keys as [|x keys IH]; intros seen; simpl; [tauto|].
  intros [->|Hin].
  - destruct (existsb (String.eqb k) seen) eqn:E.
    + left. apply existsb_exists in E as (y & Hy & Heq).
      now apply String.eqb_eq in Heq as ->.
    + right. now left.
  - destruct (existsb (String.eqb x) seen).
    + now apply IH.
    + destruct (IH (x :: seen) Hin) as [[->|H]|H]; [right; now left|now left|].
      right. now right.
Qed.

Lemma set_of_NoDup (seen keys : list string) :
  NoDup (set_of seen keys) /\ forall k, In k (set_of seen keys) -> ~ In k seen.
Proof.
  revert seen. induction keys as [|x keys IH]; intros seen; simpl.
  { split; [constructor|tauto]. }
  destruct (existsb (String.eqb x) seen) eqn:E; [apply IH|].
  destruct (IH (x :: seen)) as [Hnd Hseen]. split.
  - constructor; [|exact Hnd]. rewrite list_elem_of_In. intros Hin.
    apply (Hseen x Hin). now left.
  - intros k [<-|Hin] Hk.
    + assert (existsb (String.eqb x) seen = true); [|congruence].
      apply existsb_exists. exists x. split; [exact Hk|apply String.eqb_refl].
    + apply (Hseen k Hin). now right.
Qed.

Section SameValue.

Variable recur : value -> value -> string -> outcome (list FieldDifference).
Variable bound : nat.

Hypothesis recur_same : forall x q,
  height x < bound -> is_nonnull_object x = true -> recur x x q = Return [].

Lemma items_differences_same (currentPath : string) (bs : list value) :
  (forall x, In x bs -> height x < bound) ->
  forall i, items_differences recur currentPath i bs bs = Return [].
Proof.
  induction bs as [|b bs IH]; intros Hbs i; [reflexivity|]. simpl.
  rewrite IH by (intros x Hx; apply Hbs; now right).
  unfold item_differences. destruct (is_nonnull_object b) eqn:Hb; simpl.
  - rewrite recur_same; [reflexivity|apply Hbs; now left|exact Hb].
  - now rewrite (strict_neq_same b Hb).
Qed.

(** A key under which both sides hold the same value contributes nothing. *)
Lemma key_differences_same_value (baseline current : value) (path key : string)
  (x : value) :
  height baseline <= bound ->
  has_property key baseline = Return true ->
  has_property key current = Return true ->
  get baseline key = Return x -> get current key = Return x ->
  key_differences recur baseline current path key = Return [].
Proof.
  intros Hh Hb Hc Gb Gc. unfold key_differences.
  rewrite Hb, Hc, Gb, Gc. outcome_simpl. simpl.
  rewrite String.eqb_refl. simpl.
  destruct (is_nonnull_object x) eqn:Hx; simpl.
  - pose proof (get_height _ _ _ Gb Hx) as Hlt.
    assert (Hcall : recur x x (key_path path key) = Return [])
      by (apply recur_same; [lia|exact Hx]).
    destruct x as [| | | | |bs|props]; try exact Hcall.
    rewrite Nat.eqb_refl. simpl.
    rewrite items_differences_same; [reflexivity|].
    intros y Hy. apply height_item in Hy. lia.
  - now rewrite (strict_neq_same x Hx).
Qed.

End SameValue.

Lemma keys_differences_nil
  (recur : value -> value -> string -> outcome (list FieldDifference))
  (baseline current : value) (path : string) (keys : list string) :
  (forall k, In k keys -> key_differences recur baseline current path k = Return []) ->
  keys_differences recur baseline current path keys = Return [].
Proof.
  induction keys as [|k keys IH]; intros H; [reflexivity|]. simpl.
  rewrite (H k) by now left. rewrite IH by (intros k' Hk'; apply H; now right).
  reflexivity.
Qed.

Lemma allKeys_In (baseline current : value) (k : string) :
  In k (allKeys baseline current) ->
  In k (map fst (own_props (or_empty baseline)))
  \/ In k (map fst (own_props (or_empty current))).
Proof. unfold allKeys. intros H. apply set_of_In in H. now apply in_app_or. Qed.

Lemma or_empty_object (v : value) : is_nonnull_object v = true -> or_empty v = v.
Proof. destruct v; (discriminate || reflexivity). Qed.

Lemma findFieldDifferences_same (v : value) (path : string) :
  is_nonnull_object v = true -> findFieldDifferences v v path = Return [].
Proof.
  remember (height v) as n eqn:Hn. revert v path Hn.
  induction n as [n IH] using lt_wf_ind. intros v path -> Hv.
  rewrite findFieldDifferences_unfold. apply keys_differences_nil.
  intros k Hk. apply allKeys_In in Hk. rewrite (or_empty_object v Hv) in Hk.
  assert (Hin : In k (map fst (own_props v))) by tauto.
  destruct (get_object_Return v k (is_nonnull_object_not_nullish v Hv)) as [x Hx].
  apply key_differences_same_value with (bound := height v) (x := x);
    auto using has_property_own.
  intros y q Hy Hobj. eapply IH; eauto.
Qed.

Lemma assoc_None {A} (key : string) (props : list (string * A)) :
  ~ In key (map fst props) -> assoc key props = None.
Proof.
  induction props as [|[k v] props IH]; simpl; [reflexivity|].
  intros H. destruct (String.eqb_spec key k) as [->|Hne]; [exfalso; apply H; now left|].
  apply IH. intros Hin. apply H. now right.
Qed.

Lemma assoc_insert_ne {A} (key k : string) (v : A) (l1 l2 : list (string * A)) :
  key <> k -> assoc key (l1 ++ (k, v) :: l2) = assoc key (l1 ++ l2).
Proof.
  intros Hne. induction l1 as [|[k1 v1] l1 IH]; simpl.
  - destruct (String.eqb_spec key k); [contradiction|reflexivity].
  - now rewrite IH.
Qed.

Lemma assoc_insert_eq {A} (k : string) (v : A) (l1 l2 : list (string * A)) :
  ~ In k (map fst l1) -> assoc k (l1 ++ (k, v) :: l2) = Some v.
Proof.
  induction l1 as [|[k1 v1] l1 IH]; simpl; intros H.
  - now rewrite String.eqb_refl.
  - destruct (String.eqb_spec k k1) as [->|Hne]; [exfalso; apply H; now left|].
    apply IH. intros Hin. apply H. now right.
Qed.

Lemma has_property_object_true (key : string) (props : list (string * value)) :
  In key (map fst props) -> has_property key (VObj props) = Return true.
Proof.
  intros Hin. simpl. now rewrite (bool_decide_eq_true_2 _ (is_Some_assoc _ _ Hin)).
Qed.

Lemma has_property_object_false (key : string) (props : list (string * value)) :
  ~ In key (map fst props) -> has_property key (VObj props) = Return false.
Proof.
  intros Hin. simpl. rewrite bool_decide_eq_false_2; [reflexivity|].
  rewrite (assoc_None _ _ Hin). now intros [x [=]].
Qed.

(** When all keys but one contribute nothing, the result is what that key
    contributes. *)
Lemma keys_differences_single
  (recur : value -> value -> string -> outcome (list FieldDifference))
  (baseline current : value) (path k : string) (d : list FieldDifference)
  (keys : list string) :
  NoDup keys -> In k keys ->
  (forall x, In x keys -> x <> k ->
             key_differences recur baseline current path x = Return []) ->
  key_differences recur baseline current path k = Return d ->
  keys_differences recur baseline current path keys = Return d.
Proof.
  intros Hnd Hin Hothers Hk. induction keys as [|x keys IH]; [destruct Hin|].
  apply NoDup_cons in Hnd as [Hx Hnd]. rewrite list_elem_of_In in Hx. simpl.
  destruct (String.eqb_spec x k) as [->|Hne].
  - rewrite Hk. outcome_simpl.
    rewrite keys_differences_nil; [simpl; now rewrite app_nil_r|].
    intros y Hy. apply Hothers; [now right|]. intros ->. contradiction.
  - rewrite (Hothers x) by (auto; now left). outcome_simpl.
    destruct Hin as [?|Hin]; [contradiction|].
    rewrite IH; auto. intros y Hy. apply Hothers. now right.
Qed.

Lemma allKeys_NoDup (baseline current : value) : NoDup (allKeys baseline current).
Proof. apply set_of_NoDup. Qed.

Lemma allKeys_complete (baseline current : value) (k : string) :
  In k (map fst (own_props (or_empty baseline)))
  \/ In k (map fst (own_props (or_empty current))) ->
  In k (allKeys baseline current).
Proof.
  intros H. unfold allKeys.
  destruct (set_of_complete [] _ k (in_or_app _ _ _ H)) as [[]|Hin]. exact Hin.
Qed.

Lemma findFieldDifferences_recur_same (n : nat) (x : value) (q : string) :
  height x < n -> is_nonnull_object x = true -> findFieldDifferences x x q = Return [].
Proof. intros _. apply findFieldDifferences_same. Qed.

(** Two objects that agree on a key contribute nothing under it. *)
Lemma key_differences_agree (b c : list (string * value)) (path key : string) :
  In key (map fst b) -> assoc key b = assoc key c ->
  key_differences findFieldDifferences (VObj b) (VObj c) path key = Return [].
Proof.
  intros Hin Heq. pose proof (is_Some_assoc key b Hin) as [x Hx].
  apply key_differences_same_value with (bound := height (VObj b)) (x := x).
  - apply findFieldDifferences_recur_same.
  - lia.
  - simpl. rewrite bool_decide_eq_true_2; eauto.
  - simpl. rewrite <- Heq. rewrite bool_decide_eq_true_2; eauto.
  - simpl. now rewrite Hx.
  - simpl. now rewrite <- Heq, Hx.
Qed.

(** X1: an object against the same object with one more key, none of the
    names inherited from [Object.prototype], yields exactly
    one [added] entry, at the path of the new key and carrying its value. *)
Theorem one_added_key (l1 l2 : list (string * value)) (k : string) (v : value)
  (path : string) :
  inherited_name k = false ->
  ~ In k (map fst (l1 ++ l2)) ->
  findFieldDifferences (VObj (l1 ++ l2)) (VObj (l1 ++ (k, v) :: l2)) path
  = Return [Added (key_path path k) v].
Proof.
  intros _ Hk. rewrite findFieldDifferences_unfold.
  assert (Hkeys : forall x, In x (map fst (l1 ++ (k, v) :: l2)) ->
                            x = k \/ In x (map fst (l1 ++ l2))).
  { intros x. rewrite !map_app. simpl. rewrite !in_app_iff. simpl.
    intuition auto. }
  apply keys_differences_single with (k := k).
  - apply allKeys_NoDup.
  - apply allKeys_complete. right. simpl.
    rewrite map_app. simpl. apply in_or_app. right. now left.
  - intros x Hx Hne. apply allKeys_In in Hx. simpl in Hx.
    assert (Hin : In x (map fst (l1 ++ l2)))
      by (destruct Hx as [Hx|Hx]; [exact Hx|]; apply Hkeys in Hx; tauto).
    apply key_differences_agree; [exact Hin|]. now rewrite assoc_insert_ne.
  - unfold key_differences.
    rewrite (has_property_object_false _ _ Hk). outcome_simpl. simpl.
    rewrite assoc_insert_eq; [reflexivity|].
    intros Hin. apply Hk. rewrite map_app. apply in_or_app. now left.
Qed.

Lemma one_added_key_witness :
  findFieldDifferences (VObj [("name", VStr "Biology")])
    (VObj [("name", VStr "Biology"); ("provider", VStr "BGO")]) "data"
  = Return [Added "data.provider" (VStr "BGO")].
Proof.
  apply (one_added_key [("name", VStr "Biology")] [] "provider" (VStr "BGO") "data").
  - reflexivity.
  - simpl. intros [E|[]]. discriminate.
Defined.

(** X2: an object against the same object with one key less, none of the
    names inherited from [Object.prototype], yields exactly
    one [removed] entry, at the path of the lost key and carrying the
    baseline value. *)
Theorem one_removed_key (l1 l2 : list (string * value)) (k : string) (v : value)
  (path : string) :
  inherited_name k = false ->
  ~ In k (map fst (l1 ++ l2)) ->
  findFieldDifferences (VObj (l1 ++ (k, v) :: l2)) (VObj (l1 ++ l2)) path
  = Return [Removed (key_path path k) v].
Proof.
  intros _ Hk. rewrite findFieldDifferences_unfold.
  assert (Hkeys : forall x, In x (map fst (l1 ++ (k, v) :: l2)) ->
                            x = k \/ In x (map fst (l1 ++ l2))).
  { intros x. rewrite !map_app. simpl. rewrite !in_app_iff. simpl.
    intuition auto. }
  assert (Hkin : In k (map fst (l1 ++ (k, v) :: l2))).
  { rewrite map_app. simpl. apply in_or_app. right. now left. }
  apply keys_differences_single with (k := k).
  - apply allKeys_NoDup.
  - apply allKeys_complete. left. exact Hkin.
  - intros x Hx Hne. apply allKeys_In in Hx. simpl in Hx.
    assert (Hin : In x (map fst (l1 ++ (k, v) :: l2))).
    { destruct Hx as [Hx|Hx]; [exact Hx|].
      rewrite !map_app in *. simpl. rewrite in_app_iff in *. simpl. tauto. }
    apply key_differences_agree; [exact Hin|]. now rewrite assoc_insert_ne.
  - unfold key_differences.
    rewrite (has_property_object_true _ _ Hkin), (has_property_object_false _ _ Hk).
    outcome_simpl. simpl.
    rewrite assoc_insert_eq; [reflexivity|].
    intros Hin. apply Hk. rewrite map_app. apply in_or_app. now left.
Qed.

Lemma one_removed_key_witness :
  findFieldDifferences (VObj [("provider", VStr "BGO"); ("name", VStr "Biology")])
    (VObj [("name", VStr "Biology")]) ""
  = Return [Removed "provider" (VStr "BGO")].
Proof.
  apply (one_removed_key [] [("name", VStr "Biology")] "provider" (VStr "BGO") "").
  - reflexivity.
  - simpl. intros [E|[]]. discriminate.
Defined.

Lemma assoc_Some_iff {A} (k : string) (v : A) (props : list (string * A)) :
  NoDup (map fst props) -> assoc k props = Some v <-> In (k, v) props.
Proof.
  intros Hnd. split; [apply assoc_In|].
  induction props as [|[k' w] props IH]; simpl; [tauto|].
  simpl in Hnd. apply NoDup_cons in Hnd as [Hk' Hnd]. rewrite list_elem_of_In in Hk'.
  intros [[= -> ->]|Hin].
  - now rewrite String.eqb_refl.
  - destruct (String.eqb_spec k k') as [->|Hne]; [|auto].
    exfalso. apply Hk'. change k' with (fst (k', v)). now apply in_map.
Qed.

Lemma assoc_Permutation {A} (k : string) (b c : list (string * A)) :
  NoDup (map fst b) -> Permutation b c -> assoc k b = assoc k c.
Proof.
  intros Hnd Hp.
  assert (Hndc : NoDup (map fst c)) by (now rewrite <- Hp).
  destruct (assoc k b) as [x|] eqn:Eb.
  - apply assoc_Some_iff in Eb; [|exact Hnd]. symmetry.
    apply assoc_Some_iff; [exact Hndc|]. now rewrite <- Hp.
  - destruct (assoc k c) as [y|] eqn:Ec; [|reflexivity].
    apply assoc_Some_iff in Ec; [|exact Hndc]. rewrite <- Hp in Ec.
    apply assoc_Some_iff in Ec; [|exact Hnd]. congruence.
Qed.

Lemma findFieldDifferences_Permutation (b c : list (string * value)) (path : string) :
  NoDup (map fst b) -> Permutation b c ->
  findFieldDifferences (VObj b) (VObj c) path = Return [].
Proof.
  intros Hnd Hp. rewrite findFieldDifferences_unfold. apply keys_differences_nil.
  intros k Hk. apply allKeys_In in Hk. simpl in Hk.
  apply key_differences_agree; [|now apply assoc_Permutation].
  destruct Hk as [Hk|Hk]; [exact Hk|].
  rewrite <- list_elem_of_In in *. now rewrite Hp.
Qed.

(** X3: the differ does not see the order of the keys: an object against a
    reordering of itself yields no difference. *)
Theorem reordered_keys_no_difference (b c : list (string * value)) (path : string) :
  NoDup (map fst b) -> Permutation b c ->
  findFieldDifferences (VObj b) (VObj c) path = Return []
  /\ findFieldDifferences (VObj c) (VObj b) path = Return [].
Proof.
  intros Hnodup Hperm. split.
  - now apply findFieldDifferences_Permutation.
  - apply findFieldDifferences_Permutation; [|now symmetry].
    now rewrite <- Hperm.
Qed.

Lemma reordered_keys_no_difference_witness :
  findFieldDifferences (VObj [("@type", VStr "Course"); ("name", VStr "Biology")])
    (VObj [("name", VStr "Biology"); ("@type", VStr "Course")]) ""
  = Return [].
Proof.
  refine (proj1 (reordered_keys_no_difference
                   [("@type", VStr "Course"); ("name", VStr "Biology")]
                   [("name", VStr "Biology"); ("@type", VStr "Course")] "" _ _)).
  - compute_done.
  - apply perm_swap.
Defined.

(** ** The differ: a value against itself, paths, and errors *)

(** X4: a value against itself.  The differ reports nothing for an object
    or an array against itself, whatever it contains, and nothing for
    [undefined], [null], a boolean, a number or the empty string; a
    non-empty string against itself makes the [in] operator throw. *)
Theorem same_value_no_difference (v : value) (path : string) :
  findFieldDifferences v v path
  = match v with
    | VStr (String _ _) => Throw TypeError
    | _ => Return []
    end.
Proof.
  destruct v as [| |[]|[| |]|[|c s]|items|props];
    try (apply findFieldDifferences_same; reflexivity);
    reflexivity.
Qed.

Lemma starts_with_refl (q : string) : starts_with q q.
Proof. exists "". now rewrite append_nil_r. Qed.

Lemma starts_with_append (q p s : string) : starts_with (q +:+ s) p -> starts_with q p.
Proof. intros [t ->]. exists (s +:+ t). apply append_assoc. Qed.

Lemma starts_with_key_path (q key p : string) :
  starts_with (key_path q key) p -> starts_with q p.
Proof.
  unfold key_path. simpl. destruct (String.eqb_spec q "") as [->|Hne]; simpl.
  - intros _. exists p. reflexivity.
  - apply starts_with_append.
Qed.

Section DifferPaths.

Variable recur : value -> value -> string -> outcome (list FieldDifference).
Variable bound : nat.

Hypothesis recur_paths : forall x y q ds,
  height x < bound -> recur x y q = Return ds ->
  Forall (fun d => starts_with q (diff_path d)) ds.

Lemma items_differences_paths (currentPath : string) (bs cs : list value) :
  (forall x, In x bs -> height x < bound) ->
  forall i ds,
    items_differences recur currentPath i bs cs = Return ds ->
    Forall (fun d => starts_with currentPath (diff_path d)) ds.
Proof.
  revert cs. induction bs as [|b bs IH]; intros cs Hbs i ds; simpl.
  { intros [= <-]. constructor. }
  destruct cs as [|c cs]; [intros [= <-]; constructor|].
  intros H. apply bind_Return_inv in H as (d & Hd & H).
  apply bind_Return_inv in H as (ds' & Hds' & [= <-]).
  apply Forall_app. split.
  - unfold item_differences in Hd.
    destruct (is_nonnull_object b && is_nonnull_object c).
    + apply recur_paths in Hd; [|apply Hbs; now left].
      eapply Forall_impl; [exact Hd|]. intros x. apply starts_with_append.
    + destruct (strict_neq b c); injection Hd as <-; repeat constructor.
      simpl. eapply starts_with_append. apply starts_with_refl.
  - eapply IH; [|exact Hds']. intros x Hx. apply Hbs. now right.
Qed.

Lemma key_differences_paths (baseline current : value) (path key : string)
  (ds : list FieldDifference) :
  height baseline <= bound ->
  key_differences recur baseline current path key = Return ds ->
  Forall (fun d => starts_with (key_path path key) (diff_path d)) ds.
Proof.
  intros Hh. unfold key_differences. intros H.
  assert (Hone : forall d, diff_path d = key_path path key ->
                           Forall (fun d => starts_with (key_path path key) (diff_path d)) [d]).
  { intros d Hd. repeat constructor. rewrite Hd. apply starts_with_refl. }
  apply bind_Return_inv in H as (inb & _ & H).
  destruct inb; simpl in H.
  2:{ apply bind_Return_inv in H as (v & _ & [= <-]). now apply Hone. }
  apply bind_Return_inv in H as (inc & _ & H).
  destruct inc; simpl in H.
  2:{ apply bind_Return_inv in H as (v & _ & [= <-]). now apply Hone. }
  apply bind_Return_inv in H as (bv & Hbv & H).
  apply bind_Return_inv in H as (cv & Hcv & H).
  destruct (negb _); [injection H as <-; now apply Hone|].
  destruct (is_nonnull_object bv) eqn:Hob; simpl in H.
  2:{ destruct (strict_neq bv cv); injection H as <-; [now apply Hone|constructor]. }
  destruct (is_nonnull_object cv) eqn:Hoc; simpl in H.
  2:{ destruct (strict_neq bv cv); injection H as <-; [now apply Hone|constructor]. }
  pose proof (get_height _ _ _ Hbv Hob) as Hlt.
  assert (Hcall : recur bv cv (key_path path key) = Return ds ->
                  Forall (fun d => starts_with (key_path path key) (diff_path d)) ds).
  { apply recur_paths. lia. }
  destruct bv as [| | | | |bs|bp]; try (now apply Hcall).
  destruct cv as [| | | | |cs|cp]; try (now apply Hcall).
  apply bind_Return_inv in H as (ds' & Hds' & [= <-]).
  apply Forall_app. split.
  - destruct (negb _); [now apply Hone|constructor].
  - eapply items_differences_paths; [|exact Hds'].
    intros x Hx. apply height_item in Hx. lia.
Qed.

Lemma keys_differences_paths (baseline current : value) (path : string)
  (keys : list string) (ds : list FieldDifference) :
  height baseline <= bound ->
  keys_differences recur baseline current path keys = Return ds ->
  Forall (fun d => exists key, In key keys
                     /\ starts_with (key_path path key) (diff_path d)) ds.
Proof.
  intros Hh. revert ds. induction keys as [|k keys IH]; intros ds; simpl.
  { intros [= <-]. constructor. }
  intros H. apply bind_Return_inv in H as (d & Hd & H).
  apply bind_Return_inv in H as (ds' & Hds' & [= <-]).
  apply Forall_app. split.
  - apply key_differences_paths in Hd; [|exact Hh].
    eapply Forall_impl; [exact Hd|]. intros x Hx. exists k. split; [now left|exact Hx].
  - eapply Forall_impl; [exact (IH _ Hds')|].
    intros x (key & Hin & Hx). exists key. split; [now right|exact Hx].
Qed.

End DifferPaths.

Lemma findFieldDifferences_paths (baseline current : value) (path : string)
  (ds : list FieldDifference) :
  findFieldDifferences baseline current path = Return ds ->
  Forall (fun d => exists key, In key (allKeys baseline current)
                     /\ starts_with (key_path path key) (diff_path d)) ds.
Proof.
  remember (height baseline) as n eqn:Hn.
  revert baseline current path ds Hn.
  induction n as [n IH] using lt_wf_ind. intros baseline current path ds ->.
  rewrite findFieldDifferences_unfold.
  apply keys_differences_paths with (bound := height baseline); [|lia].
  intros x y q ds' Hx Hds'.
  eapply Forall_impl; [exact (IH _ Hx x y q ds' eq_refl Hds')|].
  intros d (key & _ & Hd). cbv beta. eapply starts_with_key_path. exact Hd.
Qed.

(** X5: where the differ reports.  Every path in the result starts with
    the path of a key of the baseline or the current value, that is with
    the start path, a dot when the start path is not empty, and the key;
    in particular every path starts with the start path. *)
Theorem differences_lie_under_keys (baseline current : value) (path : string)
  (ds : list FieldDifference) :
  findFieldDifferences baseline current path = Return ds ->
  Forall (fun d =>
            (exists key,
                (In key (map fst (own_props (or_empty baseline)))
                 \/ In key (map fst (own_props (or_empty current))))
                /\ starts_with (key_path path key) (diff_path d))
            /\ starts_with path (diff_path d)) ds.
Proof.
  intros H. apply findFieldDifferences_paths in H.
  eapply Forall_impl; [exact H|]. intros d (key & Hin & Hd). cbv beta. split.
  - exists key. split; [now apply allKeys_In|exact Hd].
  - eapply starts_with_key_path. exact Hd.
Qed.

Lemma differences_lie_under_keys_witness :
  Forall (fun d =>
            (exists key,
                (In key ["offers"] \/ In key ["offers"])
                /\ starts_with (key_path "course" key) (diff_path d))
            /\ starts_with "course" (diff_path d))
    [ValueChanged "course.offers[0].price" (VNum 10) (VNum 12)].
Proof.
  apply (differences_lie_under_keys
           (VObj [("offers", VArr [VObj [("price", VNum 10)]])])
           (VObj [("offers", VArr [VObj [("price", VNum 12)]])]) "course").
  vm_compute. reflexivity.
Defined.

Lemma string_of_nat_not_length (i : nat) : String.eqb (string_of_nat i) "length" = false.
Proof.
  unfold string_of_nat.
  destruct (string_of_uint_digit (N.to_uint (N.of_nat i))) as (c & s & -> & Hc);
    [apply normal_to_uint|].
  simpl. destruct (Ascii.eqb_spec c "l") as [->|]; [discriminate|reflexivity].
Qed.

Lemma has_property_empty (baseline : value) (key : string) :
  is_nonnull_object baseline = true -> own_props baseline = [] ->
  String.eqb key "length" = false ->
  has_property key baseline = Return false.
Proof.
  destruct baseline as [| | | | |items|props]; try discriminate; simpl.
  - intros _ H ->. now rewrite H.
  - now intros _ -> _.
Qed.

Lemma keys_differences_added
  (recur : value -> value -> string -> outcome (list FieldDifference))
  (baseline : value) (s path : string) (keys : list string) :
  (forall k, In k keys -> has_property k baseline = Return false) ->
  exists ds, keys_differences recur baseline (VStr s) path keys = Return ds
             /\ Forall (fun d => diff_type d = "added") ds.
Proof.
  induction keys as [|k keys IH]; intros Hkeys; simpl.
  { exists []. split; [reflexivity|constructor]. }
  destruct IH as (ds & -> & Hds); [intros x Hx; apply Hkeys; now right|].
  unfold key_differences. rewrite (Hkeys k) by now left. rewrite bind_Return. simpl.
  destruct (String.eqb k "length"); rewrite !bind_Return;
    eexists; (split; [reflexivity|]); constructor; auto.
Qed.

Lemma In_index_keys (k : string) (n : nat) :
  In k (index_keys n) -> String.eqb k "length" = false.
Proof.
  unfold index_keys. rewrite in_map_iff. intros (i & <- & _).
  apply string_of_nat_not_length.
Qed.

Lemma map_fst_zip_In {A B} (a : A) (l1 : list A) (l2 : list B) :
  In a (map fst (zip l1 l2)) -> In a l1.
Proof.
  revert l2. induction l1 as [|x l1 IH]; intros [|y l2]; simpl; try tauto.
  intros [->|H]; [now left|right; eauto].
Qed.

Lemma findFieldDifferences_at_root (baseline current : value) (path : string) :
  if throws_at_root baseline current
  then findFieldDifferences baseline current path = Throw TypeError
  else exists ds, findFieldDifferences baseline current path = Return ds.
Proof.
  unfold throws_at_root.
  destruct (is_nonnull_object baseline) eqn:Hb.
  - destruct (is_nonnull_object current) eqn:Hc; simpl.
    { destruct (findFieldDifferences_objects baseline current path Hb Hc) as (ds & -> & _).
      eauto. }
    destruct (own_props baseline) as [|[k v] props] eqn:Hprops; simpl.
    + rewrite findFieldDifferences_unfold. unfold allKeys.
      rewrite (or_empty_object _ Hb), Hprops. simpl.
      destruct current as [| |[]|[| |]|s| |]; try discriminate;
        try (exists []; reflexivity).
      destruct (String.eqb_spec s "") as [->|Hne]; [exists []; reflexivity|].
      assert (Hor : or_empty (VStr s) = VStr s).
      { unfold or_empty. simpl. now destruct (String.eqb_spec s ""). }
      rewrite Hor.
      destruct (keys_differences_added findFieldDifferences baseline s path
                  (set_of [] (map fst (own_props (VStr s))))) as (ds & -> & _); [|eauto].
      intros k Hk. apply has_property_empty; [exact Hb|exact Hprops|].
      apply set_of_In in Hk. simpl in Hk. apply map_fst_zip_In in Hk.
      eapply In_index_keys. exact Hk.
    + rewrite findFieldDifferences_unfold. unfold allKeys.
      rewrite (or_empty_object _ Hb), Hprops. simpl.
      unfold key_differences.
      rewrite (has_property_own k baseline Hb) by (rewrite Hprops; now left).
      rewrite bind_Return. simpl.
      destruct current; try discriminate; reflexivity.
  - rewrite findFieldDifferences_unfold.
    destruct (allKeys baseline current) as [|k keys]; simpl; [eauto|].
    unfold key_differences. destruct baseline; try discriminate; reflexivity.
Qed.

(** X6: when the differ throws.  A call of the differ returns or throws a
    [TypeError], and it throws exactly at the root call: when the baseline
    is not an object or array while one of the two values has a key, or when
    the baseline has a key and the current value is not an object or
    array. *)
Theorem differ_throws_at_root_only (baseline current : value) (path : string) :
  (if throws_at_root baseline current
   then findFieldDifferences baseline current path = Throw TypeError
   else exists ds, findFieldDifferences baseline current path = Return ds)
  /\ (forall e, findFieldDifferences baseline current path = Throw e ->
                e = TypeError /\ throws_at_root baseline current = true).
Proof.
  pose proof (findFieldDifferences_at_root baseline current path) as H.
  split; [exact H|]. intros e He.
  destruct (throws_at_root baseline current).
  - rewrite H in He. injection He as <-. now split.
  - destruct H as [ds H]. rewrite H in He. discriminate.
Qed.

(** ** JSON-LD blocks *)

Lemma trailing_entries_Return (i : nat) (items : list value) (entries : list DataEntry) :
  trailing_entries i items = Return entries ->
  map entry_index entries = seq i (length items)
  /\ Forall2 (fun item e => get item "data" = Return (entry_data e)) items entries.
Proof.
  revert i entries. induction items as [|item items IH]; intros i entries; simpl.
  { intros [= <-]. split; [reflexivity|constructor]. }
  intros H. apply bind_Return_inv in H as (d & Hd & H).
  apply bind_Return_inv in H as (es & Hes & [= <-]).
  destruct (IH _ _ Hes) as [Hidx Hdata]. simpl. split; [now rewrite Hidx|].
  constructor; [exact Hd|exact Hdata].
Qed.

Lemma block_differences_index (i : nat) (b c : value) (ds : list JsonLdDifference) :
  block_differences i b c = Return ds -> ds = [] \/ exists d, ds = [d] /\ index d = i.
Proof.
  unfold block_differences. intros H.
  apply bind_Return_inv in H as (be & _ & H).
  apply bind_Return_inv in H as (ce & _ & H).
  destruct (truthy be || truthy ce).
  - destruct (strict_neq be ce); injection H as <-; eauto.
  - apply bind_Return_inv in H as (bd & _ & H).
    apply bind_Return_inv in H as (cd & _ & H).
    destruct (bool_decide _); [|injection H as <-; eauto].
    apply bind_Return_inv in H as (fs & _ & [= <-]). eauto.
Qed.

Lemma blocks_differences_indices (i : nat) (bs cs : list value)
  (ds : list JsonLdDifference) :
  blocks_differences i bs cs = Return ds ->
  sublist (map index ds) (seq i (Nat.min (length bs) (length cs))).
Proof.
  revert i cs ds. induction bs as [|b bs IH]; intros i [|c cs] ds; simpl;
    try (intros [= <-]; constructor).
  intros H. apply bind_Return_inv in H as (d & Hd & H).
  apply bind_Return_inv in H as (ds' & Hds' & [= <-]).
  specialize (IH _ _ _ Hds').
  destruct (block_differences_index _ _ _ _ Hd) as [->|(x & -> & Hx)]; simpl.
  - now apply sublist_cons.
  - rewrite Hx. now apply sublist_skip.
Qed.

(** X7: what [compareJsonLdWithBaseline] reports about the number of blocks:
    the missing entries are the baseline blocks beyond the current ones and
    the new entries the current blocks beyond the baseline ones, each under
    its own position and with its [data]; the two are never both present;
    the positions of the differences are some of the common positions, in
    increasing order;
    and the result can only match when both sides have as many blocks. *)
Theorem json_ld_block_counts (cur base : list value) (r : JsonLdResult) :
  compareJsonLdWithBaseline (VArr cur) (VArr base) = Return r ->
  map entry_index (missingData r) = seq (length cur) (length base - length cur)
  /\ Forall2 (fun item e => get item "data" = Return (entry_data e))
       (drop (length cur) base) (missingData r)
  /\ map entry_index (newData r) = seq (length base) (length cur - length base)
  /\ Forall2 (fun item e => get item "data" = Return (entry_data e))
       (drop (length base) cur) (newData r)
  /\ (missingData r = [] \/ newData r = [])
  /\ sublist (map index (differences r))
       (seq 0 (Nat.min (length base) (length cur)))
  /\ (matches r = true -> length base = length cur).
Proof.
  unfold compareJsonLdWithBaseline. simpl. intros H.
  apply bind_Return_inv in H as (missing & Hm & H).
  apply bind_Return_inv in H as (new & Hn & H).
  apply bind_Return_inv in H as (diffs & Hd & [= <-]). simpl.
  assert (Hmiss : map entry_index missing = seq (length cur) (length base - length cur)
                  /\ Forall2 (fun item e => get item "data" = Return (entry_data e))
                       (drop (length cur) base) missing).
  { destruct (Nat.ltb_spec (length cur) (length base)) as [Hlt|Hle].
    - apply trailing_entries_Return in Hm as [Hidx Hdata].
      rewrite length_drop in Hidx. split; assumption.
    - injection Hm as <-. replace (length base - length cur) with 0 by lia.
      rewrite drop_ge by lia. split; [reflexivity|constructor]. }
  assert (Hnew : map entry_index new = seq (length base) (length cur - length base)
                 /\ Forall2 (fun item e => get item "data" = Return (entry_data e))
                      (drop (length base) cur) new).
  { destruct (Nat.ltb_spec (length base) (length cur)) as [Hlt|Hle].
    - apply trailing_entries_Return in Hn as [Hidx Hdata].
      rewrite length_drop in Hidx. split; assumption.
    - injection Hn as <-. replace (length cur - length base) with 0 by lia.
      rewrite drop_ge by lia. split; [reflexivity|constructor]. }
  destruct Hmiss as [Hmi Hmd], Hnew as [Hni Hnd].
  apply blocks_differences_indices in Hd.
  repeat split; try assumption.
  - destruct (Nat.le_gt_cases (length base) (length cur)) as [Hle|Hgt].
    + left. replace (length base - length cur) with 0 in Hmi by lia.
      now destruct missing.
    + right. replace (length cur - length base) with 0 in Hni by lia.
      now destruct new.
  - intros Hmatch. apply andb_true_iff in Hmatch as [Hmatch Hn0].
    apply andb_true_iff in Hmatch as [_ Hm0].
    apply Nat.eqb_eq in Hm0, Hn0.
    apply (f_equal (@length nat)) in Hmi, Hni.
    rewrite length_map, length_seq in Hmi, Hni. lia.
Qed.

Lemma json_ld_block_counts_witness :
  exists r,
    compareJsonLdWithBaseline demo_blocks
      (VArr [VObj [("index", VNum 0); ("data", VObj [("@type", VStr "Course")])];
             VObj [("index", VNum 1); ("data", VObj [("@type", VStr "Person")])]])
    = Return r
    /\ map entry_index (missingData r) = [1].
Proof.
  eexists. split; [vm_compute; reflexivity|].
  match goal with
  | |- map entry_index (missingData ?r) = _ =>
      refine (proj1 (json_ld_block_counts
                       [VObj [("index", VNum 0);
                              ("data", VObj [("@type", VStr "Course");
                                             ("name", VStr "Biology")])]]
                       [VObj [("index", VNum 0); ("data", VObj [("@type", VStr "Course")])];
                        VObj [("index", VNum 1); ("data", VObj [("@type", VStr "Person")])]]
                       r eq_refl))
  end.
Defined.

Lemma block_differences_same (i : nat) (block : value) :
  comparable_block block = true -> block_differences i block block = Return [].
Proof.
  unfold comparable_block, block_differences. intros H.
  apply andb_true_iff in H as [Hnull Herr].
  apply negb_true_iff in Hnull.
  destruct (get block "error") as [e| |] eqn:He; try discriminate.
  apply negb_true_iff in Herr. rewrite !bind_Return.
  rewrite (strict_neq_same _ Herr).
  destruct (truthy e || truthy e); [reflexivity|].
  destruct (get_object_Return block "data" Hnull) as [d ->].
  rewrite !bind_Return. rewrite bool_decide_eq_false_2; [reflexivity|].
  intros Hne. now apply Hne.
Qed.

Lemma blocks_differences_same (blocks : list value) :
  Forall (fun b => comparable_block b = true) blocks ->
  forall i, blocks_differences i blocks blocks = Return [].
Proof.
  induction 1 as [|b bs Hb _ IH]; intros i; simpl; [reflexivity|].
  rewrite (block_differences_same _ _ Hb), bind_Return, IH. reflexivity.
Qed.

Lemma blocks_differences_one (pre post : list value) (b c : value) :
  Forall (fun x => comparable_block x = true) pre ->
  Forall (fun x => comparable_block x = true) post ->
  forall i,
  blocks_differences i (pre ++ b :: post) (pre ++ c :: post)
  = block_differences (i + length pre) b c.
Proof.
  intros Hpre Hpost. induction Hpre as [|x pre Hx _ IH]; intros i; simpl.
  - rewrite Nat.add_0_r, (blocks_differences_same _ Hpost).
    destruct (block_differences i b c) as [d| |]; try reflexivity.
    rewrite !bind_Return. now rewrite app_nil_r.
  - rewrite (block_differences_same _ _ Hx), bind_Return, IH.
    replace (S i + length pre) with (i + S (length pre)) by lia.
    destruct (block_differences _ b c) as [d| |]; reflexivity.
Qed.

Lemma compareJsonLdWithBaseline_one (pre post : list value) (b c : value) :
  Forall (fun x => comparable_block x = true) pre ->
  Forall (fun x => comparable_block x = true) post ->
  compareJsonLdWithBaseline (VArr (pre ++ c :: post)) (VArr (pre ++ b :: post))
  = (ds ← block_differences (length pre) b c;
     Return {| matches := Nat.eqb (length ds) 0; differences := ds;
               missingData := []; newData := [] |}).
Proof.
  intros Hpre Hpost. unfold compareJsonLdWithBaseline. simpl.
  rewrite !length_app. simpl. rewrite Nat.ltb_irrefl, !bind_Return.
  rewrite (blocks_differences_one _ _ _ _ Hpre Hpost 0). simpl.
  destruct (block_differences _ b c) as [d| |]; try reflexivity.
  rewrite !bind_Return. simpl. now rewrite !andb_true_r.
Qed.

(** X8: comparing JSON-LD blocks with themselves.  When every block can be
    read and carries no object as its [error], the comparison of the blocks
    with the same blocks returns the matching result with three empty
    buckets. *)
Theorem json_ld_same_blocks_match (blocks : list value) :
  Forall (fun b => comparable_block b = true) blocks ->
  compareJsonLdWithBaseline (VArr blocks) (VArr blocks) = Return json_ld_match.
Proof.
  intros H. unfold compareJsonLdWithBaseline. simpl.
  rewrite Nat.ltb_irrefl, !bind_Return, (blocks_differences_same _ H).
  reflexivity.
Qed.

Lemma json_ld_same_blocks_match_witness :
  compareJsonLdWithBaseline demo_blocks demo_blocks = Return json_ld_match.
Proof.
  apply (json_ld_same_blocks_match
           [VObj [("index", VNum 0);
                  ("data", VObj [("@type", VStr "Course"); ("name", VStr "Biology")])]]).
  repeat constructor.
Defined.

Lemma JSON_stringify_inj (a b : value) (space : nat) :
  is_json a = true -> is_json b = true ->
  JSON_stringify a space = JSON_stringify b space -> a = b.
Proof.
  intros Ha Hb H.
  destruct (JSON_parse_stringify a space Ha) as (ta & Hta & Hpa).
  destruct (JSON_parse_stringify b space Hb) as (tb & Htb & Hpb).
  rewrite Hta, Htb in H. injection H as ->. rewrite Hpa in Hpb. now injection Hpb.
Qed.

(** X9: a block whose [data] has the same members in another order.  With
    all other blocks equal, the comparison reports that block in
    [differences], with both [data] values and an empty list of field
    differences, and the result does not match. *)
Theorem json_ld_reordered_data_reported (pre post : list value)
  (baselineItem currentItem : value) (b c : list (string * value)) :
  Forall (fun x => comparable_block x = true) pre ->
  Forall (fun x => comparable_block x = true) post ->
  get baselineItem "error" = Return VUndefined ->
  get currentItem "error" = Return VUndefined ->
  get baselineItem "data" = Return (VObj b) ->
  get currentItem "data" = Return (VObj c) ->
  is_json (VObj b) = true -> Permutation b c -> b <> c ->
  compareJsonLdWithBaseline (VArr (pre ++ currentItem :: post))
    (VArr (pre ++ baselineItem :: post))
  = Return {| matches := false;
              differences := [{| index := length pre; baseline := VObj b;
                                 current := VObj c; fieldDifferences := Some [] |}];
              missingData := []; newData := [] |}.
Proof.
  intros Hpre Hpost Hbe Hce Hbd Hcd Hjson Hperm Hne.
  rewrite (compareJsonLdWithBaseline_one _ _ _ _ Hpre Hpost).
  unfold block_differences. rewrite Hbe, Hce, !bind_Return. simpl.
  rewrite Hbd, Hcd, !bind_Return.
  assert (Hnodup : NoDup (map fst b)).
  { simpl in Hjson. apply andb_true_iff in Hjson as [_ Hn].
    now apply bool_decide_eq_true in Hn. }
  assert (Hjson' : is_json (VObj c) = true).
  { simpl in *. apply andb_true_iff in Hjson as [Hall _].
    apply andb_true_iff. split.
    - rewrite forallb_forall in *. intros x Hx. apply Hall.
      apply list_elem_of_In. rewrite Hperm. now apply list_elem_of_In.
    - apply bool_decide_eq_true. rewrite <- Hperm. exact Hnodup. }
  rewrite bool_decide_eq_true_2.
  - rewrite (findFieldDifferences_Permutation _ _ "" Hnodup Hperm), bind_Return.
    reflexivity.
  - intros Heq. apply Hne.
    pose proof (JSON_stringify_inj _ _ 0 Hjson Hjson' Heq) as E. now injection E.
Qed.

Lemma json_ld_reordered_data_reported_witness :
  compareJsonLdWithBaseline
    (VArr [VObj [("index", VNum 0);
                 ("data", VObj [("name", VStr "Biology"); ("@type", VStr "Course")])]])
    (VArr [VObj [("index", VNum 0);
                 ("data", VObj [("@type", VStr "Course"); ("name", VStr "Biology")])]])
  = Return {| matches := false;
              differences :=
                [{| index := 0;
                    baseline := VObj [("@type", VStr "Course"); ("name", VStr "Biology")];
                    current := VObj [("name", VStr "Biology"); ("@type", VStr "Course")];
                    fieldDifferences := Some [] |}];
              missingData := []; newData := [] |}.
Proof.
  apply (json_ld_reordered_data_reported [] []
           (VObj [("index", VNum 0);
                  ("data", VObj [("@type", VStr "Course"); ("name", VStr "Biology")])])
           (VObj [("index", VNum 0);
                  ("data", VObj [("name", VStr "Biology"); ("@type", VStr "Course")])])).
  - constructor.
  - constructor.
  - reflexivity.
  - reflexivity.
  - reflexivity.
  - reflexivity.
  - reflexivity.
  - apply perm_swap.
  - discriminate.
Defined.

(** ** Meta tags: missing, new, and unchanged tags *)

Lemma get_object (props : list (string * value)) (key : string) :
  get (VObj props) key = Return (default VUndefined (assoc key props)).
Proof. reflexivity. Qed.

Lemma new_tag_step_object (base : list (string * value)) (acc : list string)
  (key : string) :
  new_tag_step (VObj base) acc key
  = Return (if absent_in base key then acc ++ [key] else acc).
Proof.
  unfold new_tag_step, absent_in. rewrite get_object, bind_Return.
  now destruct (negb _).
Qed.

Lemma forEach_new_tags (base : list (string * value)) (keys : list string) :
  forall acc,
  forEach (new_tag_step (VObj base)) keys acc
  = Return (acc ++ filter (fun k => absent_in base k = true) keys).
Proof.
  induction keys as [|k keys IH]; intros acc.
  { simpl. now rewrite app_nil_r. }
  cbn [forEach]. rewrite new_tag_step_object, bind_Return, IH, filter_cons.
  destruct (absent_in base k) eqn:E.
  - rewrite decide_True by reflexivity. now rewrite <- app_assoc.
  - rewrite decide_False by discriminate. reflexivity.
Qed.

Lemma forEach_baseline_tags (cur : list (string * value)) (baselineMetaTags : value)
  (keys : list string) :
  forall acc acc',
  forEach (baseline_tag_step (VObj cur) baselineMetaTags) keys acc = Return acc' ->
  acc'.2 = acc.2 ++ filter (fun k => absent_in cur k = true) keys
  /\ forall k, is_Some (assoc k acc'.1) ->
               is_Some (assoc k acc.1) \/ (In k keys /\ absent_in cur k = false).
Proof.
  induction keys as [|k keys IH]; intros acc acc'.
  { simpl. intros [= <-]. rewrite app_nil_r. auto. }
  cbn [forEach]. intros H. apply bind_Return_inv in H as (acc1 & Hstep & H).
  destruct (IH _ _ H) as [Hmissing Hdiff]. clear IH H.
  unfold baseline_tag_step in Hstep. rewrite get_object, bind_Return in Hstep.
  rewrite filter_cons.
  change (negb (truthy (default VUndefined (assoc k cur)))) with (absent_in cur k) in Hstep.
  destruct (absent_in cur k) eqn:E.
  - injection Hstep as <-. rewrite decide_True by reflexivity. simpl in *.
    split; [now rewrite Hmissing, <- app_assoc|].
    intros x Hx. destruct (Hdiff x Hx) as [?|[? ?]]; auto.
  - rewrite decide_False by discriminate.
    apply bind_Return_inv in Hstep as (bt & _ & Hstep).
    apply bind_Return_inv in Hstep as (bc & _ & Hstep).
    apply bind_Return_inv in Hstep as (cc & _ & Hstep).
    assert (H2 : acc1.2 = acc.2) by (destruct (strict_neq bc cc); now injection Hstep as <-).
    split; [now rewrite Hmissing, H2|].
    intros x Hx. destruct (Hdiff x Hx) as [Hx1|[? ?]];
      [|right; split; [now right|assumption]].
    destruct (strict_neq bc cc); injection Hstep as <-; [|auto].
    simpl in Hx1. rewrite assoc_set_prop in Hx1.
    destruct (String.eqb_spec x k) as [->|]; [|auto].
    right. split; [now left|exact E].
Qed.

(** X10: which tags the meta-tags comparison lists as missing and as new,
    for tag maps none of whose keys is a name inherited from
    [Object.prototype].
    The missing tags are the keys of the baseline whose current tag is
    falsy (absent or a falsy value), and the new tags the keys of the current
    tags whose baseline tag is falsy, both in key order; a content
    difference is recorded only under a key of the baseline whose current
    tag is truthy, so no key is both missing and different. *)
Theorem meta_tags_missing_and_new (metaTags baselineMetaTags : list (string * value))
  (r : MetaTagsResult) :
  own_names metaTags = true -> own_names baselineMetaTags = true ->
  compareMetaTagsWithBaseline (VObj metaTags) (VObj baselineMetaTags) = Return r ->
  missingTags r
  = filter (fun k => absent_in metaTags k = true) (map fst baselineMetaTags)
  /\ newTags r
     = filter (fun k => absent_in baselineMetaTags k = true) (map fst metaTags)
  /\ forall k, is_Some (assoc k (tag_differences r)) ->
               In k (map fst baselineMetaTags) /\ absent_in metaTags k = false
               /\ ~ In k (missingTags r).
Proof.
  intros _ _.
  unfold compareMetaTagsWithBaseline. cbn [Object_keys own_props].
  rewrite bind_Return.
  intros H. apply bind_Return_inv in H as ([diffs missing] & Hfirst & H).
  rewrite bind_Return, forEach_new_tags, bind_Return in H.
  injection H as <-. simpl.
  apply forEach_baseline_tags in Hfirst as [Hmissing Hdiff]. simpl in *.
  subst missing. repeat split; try reflexivity.
  - destruct (Hdiff k H) as [[? [=]]|[? ?]]; assumption.
  - destruct (Hdiff k H) as [[? [=]]|[? ?]]; assumption.
  - intros Hin. apply list_elem_of_In, list_elem_of_filter in Hin as [Habs _].
    destruct (Hdiff k H) as [[? [=]]|[? E]]. congruence.
Qed.

Lemma meta_tags_missing_and_new_witness :
  exists r,
    compareMetaTagsWithBaseline
      (VObj [("title", VObj [("content", VStr "B")]); ("meta_robots", VNull);
             ("meta_viewport", VObj [("content", VStr "width=device-width")])])
      (demo_tags "A") = Return r
    /\ missingTags r = ["meta_description"]
    /\ newTags r = ["meta_robots"; "meta_viewport"].
Proof.
  eexists. split; [vm_compute; reflexivity|].
  match goal with
  | |- missingTags ?r = _ /\ _ =>
      pose proof (meta_tags_missing_and_new
                    [("title", VObj [("content", VStr "B")]); ("meta_robots", VNull);
                     ("meta_viewport", VObj [("content", VStr "width=device-width")])]
                    [("meta_description",
                      VObj [("name", VStr "description"); ("content", VStr "Lessons")]);
                     ("title", VObj [("content", VStr "A")])]
                    r eq_refl eq_refl eq_refl) as (Hm & Hn & _)
  end.
  split; [exact Hm|exact Hn].
Defined.

Lemma filter_none (f : string -> bool) (keys : list string) :
  (forall k, In k keys -> f k = false) -> filter (fun k => f k = true) keys = [].
Proof.
  induction keys as [|k keys IH]; intros H; [reflexivity|].
  rewrite filter_cons, decide_False.
  - apply IH. intros x Hx. apply H. now right.
  - rewrite (H k) by now left. discriminate.
Qed.

Lemma comparable_tags_present (tags : list (string * value)) (key : string) :
  Forall (fun kt => comparable_tag kt.2 = true) tags ->
  In key (map fst tags) -> absent_in tags key = false.
Proof.
  intros Hall Hin. unfold absent_in.
  destruct (is_Some_assoc key tags Hin) as [tag Htag]. rewrite Htag. simpl.
  apply assoc_In in Htag. rewrite List.Forall_forall in Hall.
  specialize (Hall _ Htag). simpl in Hall.
  apply andb_true_iff in Hall as [-> _]. reflexivity.
Qed.

Lemma forEach_self_tags (tags : list (string * value)) (keys : list string) :
  Forall (fun kt => truthy kt.2 = true -> comparable_tag kt.2 = true) tags ->
  (forall k, In k keys -> In k (map fst tags)) ->
  forall acc,
  forEach (baseline_tag_step (VObj tags) (VObj tags)) keys acc
  = Return (acc.1, acc.2 ++ filter (fun k => absent_in tags k = true) keys).
Proof.
  intros Hall. induction keys as [|k keys IH]; intros Hkeys acc.
  { simpl. rewrite app_nil_r. now destruct acc. }
  cbn [forEach].
  assert (Hstep : baseline_tag_step (VObj tags) (VObj tags) acc k
                  = Return (if absent_in tags k then (acc.1, acc.2 ++ [k]) else acc)).
  { unfold baseline_tag_step, absent_in. rewrite get_object, bind_Return.
    destruct (is_Some_assoc k tags (Hkeys k (or_introl eq_refl))) as [tag Htag].
    rewrite Htag. simpl. destruct (truthy tag) eqn:Ht; [|reflexivity]. simpl.
    apply assoc_In in Htag. rewrite List.Forall_forall in Hall.
    specialize (Hall _ Htag Ht). simpl in Hall.
    apply andb_true_iff in Hall as [_ Hc].
    destruct (get tag "content") as [c| |]; try discriminate.
    rewrite !bind_Return. apply negb_true_iff in Hc.
    now rewrite (strict_neq_same _ Hc). }
  rewrite Hstep, bind_Return, IH by (intros x Hx; apply Hkeys; now right).
  rewrite filter_cons. destruct (absent_in tags k); simpl.
  - now rewrite <- app_assoc.
  - reflexivity.
Qed.

Lemma compareMetaTagsWithBaseline_same (tags : list (string * value)) :
  Forall (fun kt => comparable_tag kt.2 = true) tags ->
  compareMetaTagsWithBaseline (VObj tags) (VObj tags) = Return meta_tags_match.
Proof.
  intros Hall. unfold compareMetaTagsWithBaseline. cbn [Object_keys own_props].
  rewrite bind_Return, forEach_self_tags; [|eapply Forall_impl; eauto|auto].
  rewrite !bind_Return, forEach_new_tags, bind_Return. simpl.
  rewrite filter_none; [reflexivity|].
  intros k Hk. now apply comparable_tags_present.
Qed.

(** X11: comparing meta tags with themselves.  When the [content] of no
    truthy tag is an object, the comparison of the tags with the same tags
    records no content difference, and lists as missing and as new exactly
    the keys whose tag is falsy; when every tag is truthy there is none, and
    the result matches. *)
Theorem meta_tags_against_themselves (tags : list (string * value)) :
  Forall (fun kt => truthy kt.2 = true -> comparable_tag kt.2 = true) tags ->
  let falsy := filter (fun k => absent_in tags k = true) (map fst tags) in
  compareMetaTagsWithBaseline (VObj tags) (VObj tags)
  = Return {| tags_match := Nat.eqb (length falsy) 0; tag_differences := [];
              missingTags := falsy; newTags := falsy |}
  /\ (Forall (fun kt => truthy kt.2 = true) tags -> falsy = []).
Proof.
  intros Hall falsy. split.
  - unfold compareMetaTagsWithBaseline. cbn [Object_keys own_props].
    rewrite bind_Return, (forEach_self_tags _ _ Hall) by auto.
    rewrite !bind_Return, forEach_new_tags, bind_Return. simpl. fold falsy.
    now destruct (Nat.eqb (length falsy) 0).
  - subst falsy. intros Htruthy. apply filter_none. intros k Hk. unfold absent_in.
    destruct (is_Some_assoc k tags Hk) as [tag Htag]. rewrite Htag. simpl.
    apply assoc_In in Htag. rewrite List.Forall_forall in Htruthy.
    pose proof (Htruthy _ Htag) as E. simpl in E. now rewrite E.
Qed.

Lemma meta_tags_against_themselves_witness :
  compareMetaTagsWithBaseline
    (VObj [("meta_robots", VNull); ("title", VObj [("content", VStr "A")])])
    (VObj [("meta_robots", VNull); ("title", VObj [("content", VStr "A")])])
  = Return {| tags_match := false; tag_differences := [];
              missingTags := ["meta_robots"]; newTags := ["meta_robots"] |}.
Proof.
  refine (proj1 (meta_tags_against_themselves
                   [("meta_robots", VNull); ("title", VObj [("content", VStr "A")])] _)).
  repeat constructor; discriminate.
Defined.

(** ** Runs against a stored baseline *)

Lemma compareJsonLdWithBaseline_same (blocks : list value) :
  forallb comparable_block blocks = true ->
  compareJsonLdWithBaseline (VArr blocks) (VArr blocks) = Return json_ld_match.
Proof.
  intros H. unfold compareJsonLdWithBaseline. simpl.
  rewrite Nat.ltb_irrefl, !bind_Return, blocks_differences_same; [reflexivity|].
  apply List.Forall_forall. rewrite forallb_forall in H. exact H.
Qed.

Lemma compareWithBaseline_stored (extractedData : value) (pageName : string)
  (baselinePath : file_path) (baselineType : string) (fs : filesystem) (doc : value) :
  baselineType = "json-ld" \/ baselineType = "meta-tags" ->
  comparable baselineType extractedData = true ->
  loadBaseline fs (baselineFile baselinePath pageName) = Return doc ->
  get doc (payload_field baselineType) = Return extractedData ->
  compareWithBaseline extractedData pageName baselinePath baselineType fs
  = Return (first_result baselineType, fs).
Proof.
  intros Hkind Hcmp Hload Hget. unfold compareWithBaseline.
  assert (Hex : existsSync fs (baselineFile baselinePath pageName) = true).
  { unfold loadBaseline, readFileSync in Hload. unfold existsSync.
    destruct (fs !! baselineFile baselinePath pageName) as [nd|]; [|discriminate].
    apply bool_decide_eq_true. eauto. }
  rewrite Hex, Hload. simpl. outcome_simpl.
  unfold comparable, payload_field, first_result in *.
  destruct Hkind as [-> | ->]; simpl String.eqb in *; cbv iota in *.
  - rewrite Hget. outcome_simpl.
    destruct extractedData as [| | | | |blocks|]; try discriminate.
    now rewrite (compareJsonLdWithBaseline_same _ Hcmp).
  - rewrite Hget. outcome_simpl.
    destruct extractedData as [| | | | | |tags]; try discriminate.
    rewrite compareMetaTagsWithBaseline_same; [reflexivity|].
    apply List.Forall_forall. rewrite forallb_forall in Hcmp. exact Hcmp.
Qed.

Lemma comparable_not_nullish (baselineType : string) (data : value) :
  comparable baselineType data = true -> is_nullish data = false.
Proof.
  unfold comparable. destruct (String.eqb _ _); destruct data; (discriminate || reflexivity).
Qed.

Lemma comparable_json_ld_array (data : value) :
  comparable "json-ld" data = true -> isArray data = true.
Proof. destruct data; (discriminate || reflexivity). Qed.

(** The baseline document of the first run, once written, is what the next
    run loads. *)
Lemma first_run_stored (extractedData : value) (pageName : string)
  (baselinePath : file_path) (baselineType : string) (fs : filesystem) :
  existsSync fs (baselineFile baselinePath pageName) = false ->
  fs !! baselinePath = Some (Directory true) ->
  is_json extractedData = true ->
  comparable baselineType extractedData = true ->
  exists doc text,
    compareWithBaseline extractedData pageName baselinePath baselineType fs
    = Return (first_result baselineType,
              <[baselineFile baselinePath pageName := File text true]> fs)
    /\ loadBaseline (<[baselineFile baselinePath pageName := File text true]> fs)
         (baselineFile baselinePath pageName) = Return doc
    /\ get doc (payload_field baselineType) = Return extractedData
    /\ get doc (if String.eqb baselineType "json-ld" then "metaTags" else "jsonLdData")
       = Return VUndefined.
Proof.
  intros Hex Hdir Hj Hcmp.
  pose proof (comparable_not_nullish _ _ Hcmp) as Hn.
  assert (Hdoc : exists count,
             first_baseline extractedData baselineType
             = Return (VObj [(payload_field baselineType, extractedData);
                             (count_field baselineType, VNum count)])).
  { unfold first_baseline, payload_field, count_field, comparable in *.
    destruct (String.eqb baselineType "json-ld").
    - destruct extractedData; try discriminate. simpl. eauto.
    - destruct extractedData; try discriminate. simpl. eauto. }
  destruct Hdoc as (count & Hdoc).
  assert (Hjdoc : is_json (VObj [(payload_field baselineType, extractedData);
                                 (count_field baselineType, VNum count)]) = true).
  { simpl. rewrite Hj. unfold payload_field, count_field.
    destruct (String.eqb baselineType "json-ld"); reflexivity. }
  destruct (write_json_then_load fs (baselineFile baselinePath pageName) _ Hjdoc
              (can_write_new_file _ _ _ Hex Hdir)) as (text & _ & Hwrite & Hload).
  eexists _, text. split; [|split; [exact Hload|split]].
  - unfold compareWithBaseline. rewrite Hex, Hdoc. simpl.
    outcome_simpl. now rewrite Hwrite.
  - simpl. now rewrite String.eqb_refl.
  - unfold payload_field, count_field.
    destruct (String.eqb baselineType "json-ld"); reflexivity.
Qed.

(** X12: the run after the first run.  When a page with a plain name
    (short, without separators) has no baseline file
    yet and the extracted data is JSON data that compares equal to itself,
    the first run writes the baseline, and a second run on the same data
    finds it, changes nothing on disk and returns the matching result with
    empty buckets. *)
Theorem second_run_matches (extractedData : value) (pageName : string)
  (baselinePath : file_path) (baselineType : string) (fs : filesystem) :
  plain_name pageName = true ->
  baselineType = "json-ld" \/ baselineType = "meta-tags" ->
  existsSync fs (baselineFile baselinePath pageName) = false ->
  fs !! baselinePath = Some (Directory true) ->
  is_json extractedData = true ->
  comparable baselineType extractedData = true ->
  exists fs',
    compareWithBaseline extractedData pageName baselinePath baselineType fs
    = Return (first_result baselineType, fs')
    /\ existsSync fs' (baselineFile baselinePath pageName) = true
    /\ compareWithBaseline extractedData pageName baselinePath baselineType fs'
       = Return (first_result baselineType, fs').
Proof.
  intros _ Hkind Hex Hdir Hj Hcmp.
  destruct (first_run_stored _ pageName _ _ _ Hex Hdir Hj Hcmp)
    as (doc & text & Hfirst & Hload & Hget & _).
  eexists. split; [exact Hfirst|]. split.
  - unfold existsSync. rewrite lookup_insert_eq. now apply bool_decide_eq_true.
  - eapply compareWithBaseline_stored; eauto.
Qed.

Lemma second_run_matches_witness :
  exists fs',
    compareWithBaseline demo_blocks "home" ["baselines"] "json-ld" demo_dirs
    = Return (first_result "json-ld", fs')
    /\ existsSync fs' (baselineFile ["baselines"] "home") = true
    /\ compareWithBaseline demo_blocks "home" ["baselines"] "json-ld" fs'
       = Return (first_result "json-ld", fs').
Proof.
  apply (second_run_matches demo_blocks "home" ["baselines"] "json-ld" demo_dirs).
  - reflexivity.
  - now left.
  - vm_compute. reflexivity.
  - vm_compute. reflexivity.
  - vm_compute. reflexivity.
  - vm_compute. reflexivity.
Defined.

Lemma updateBaseline_stored (now : string) (extractedData : value) (pageName : string)
  (baselinePath : file_path) (baselineType : string) (fs : filesystem) :
  baselineType = "json-ld" \/ baselineType = "meta-tags" ->
  is_json extractedData = true ->
  comparable baselineType extractedData = true ->
  can_write fs (baselineFile baselinePath pageName) = true ->
  exists doc text,
    updateBaseline now extractedData pageName baselinePath baselineType fs
    = Return (<[baselineFile baselinePath pageName := File text true]> fs)
    /\ loadBaseline (<[baselineFile baselinePath pageName := File text true]> fs)
         (baselineFile baselinePath pageName) = Return doc
    /\ get doc (payload_field baselineType) = Return extractedData.
Proof.
  intros Hkind Hj Hcmp Hw. unfold updateBaseline.
  assert (Hdoc : exists count,
    (if String.eqb baselineType "json-ld"
     then count ← get extractedData "length";
          Return (VObj [("jsonLdData", extractedData); ("count", count);
                        ("lastUpdated", VStr now)])
     else keys ← Object_keys extractedData;
          Return (VObj [("metaTags", extractedData);
                        ("metaTagCount", VNum (Z.of_nat (length keys)));
                        ("lastUpdated", VStr now)]))
    = Return (VObj [(payload_field baselineType, extractedData);
                    (count_field baselineType, VNum count);
                    ("lastUpdated", VStr now)])).
  { unfold payload_field, count_field, comparable in *.
    destruct Hkind as [-> | ->]; simpl String.eqb in *; cbv iota in *;
      destruct extractedData; try discriminate; simpl; eauto. }
  destruct Hdoc as (count & ->). outcome_simpl.
  assert (Hjdoc : is_json (VObj [(payload_field baselineType, extractedData);
                                 (count_field baselineType, VNum count);
                                 ("lastUpdated", VStr now)]) = true).
  { simpl. rewrite Hj. unfold payload_field, count_field.
    destruct Hkind as [-> | ->]; reflexivity. }
  destruct (write_json_then_load fs (baselineFile baselinePath pageName) _ Hjdoc Hw)
    as (text & _ & Hwrite & Hload).
  eexists _, text. split; [exact Hwrite|]. split; [exact Hload|].
  simpl. now rewrite String.eqb_refl.
Qed.

(** X13: comparing right after an update, for a page with a plain name
    (short, without separators).  Once [updateBaseline] has
    stored JSON data that compares equal to itself, [compareWithBaseline] on
    the same data and page returns the matching result with empty buckets and
    leaves the file system as the update left it. *)
Theorem update_then_compare_matches (now : string) (extractedData : value)
  (pageName : string) (baselinePath : file_path) (baselineType : string)
  (fs : filesystem) :
  plain_name pageName = true ->
  baselineType = "json-ld" \/ baselineType = "meta-tags" ->
  is_json extractedData = true ->
  comparable baselineType extractedData = true ->
  can_write fs (baselineFile baselinePath pageName) = true ->
  exists fs',
    updateBaseline now extractedData pageName baselinePath baselineType fs = Return fs'
    /\ compareWithBaseline extractedData pageName baselinePath baselineType fs'
       = Return (first_result baselineType, fs').
Proof.
  intros _ Hkind Hj Hcmp Hw.
  destruct (updateBaseline_stored now _ pageName baselinePath _ fs Hkind Hj Hcmp Hw)
    as (doc & text & Hupdate & Hload & Hget).
  eexists. split; [exact Hupdate|].
  eapply compareWithBaseline_stored; eauto.
Qed.

Lemma update_then_compare_matches_witness :
  exists fs',
    updateBaseline "2024-05-01T10:00:00.000Z" (demo_tags "B") "home" ["baselines"]
      "meta-tags" demo_fs = Return fs'
    /\ compareWithBaseline (demo_tags "B") "home" ["baselines"] "meta-tags" fs'
       = Return (first_result "meta-tags", fs').
Proof.
  apply (update_then_compare_matches "2024-05-01T10:00:00.000Z" (demo_tags "B") "home"
           ["baselines"] "meta-tags" demo_fs).
  - reflexivity.
  - now right.
  - vm_compute. reflexivity.
  - vm_compute. reflexivity.
  - vm_compute. reflexivity.
Defined.

(** X14: a baseline of the other kind.  After a first run has written the
    baseline of a page with a plain name (short, without separators) for
    one kind, a comparison of the other kind for the
    same page finds a document without its payload field and throws a
    [TypeError], whatever data it is given. *)
Theorem baseline_of_other_kind (extractedData : value) (pageName : string)
  (baselinePath : file_path) (baselineType : string) (fs : filesystem) :
  plain_name pageName = true ->
  existsSync fs (baselineFile baselinePath pageName) = false ->
  fs !! baselinePath = Some (Directory true) ->
  is_json extractedData = true ->
  comparable baselineType extractedData = true ->
  exists fs',
    compareWithBaseline extractedData pageName baselinePath baselineType fs
    = Return (first_result baselineType, fs')
    /\ forall data,
         compareWithBaseline data pageName baselinePath (other_kind baselineType) fs'
         = Throw TypeError.
Proof.
  intros _ Hex Hdir Hj Hcmp.
  destruct (first_run_stored _ pageName _ _ _ Hex Hdir Hj Hcmp)
    as (doc & text & Hfirst & Hload & _ & Hother).
  eexists. split; [exact Hfirst|]. intros data.
  unfold compareWithBaseline, existsSync. rewrite lookup_insert_eq.
  rewrite bool_decide_eq_true_2 by eauto. simpl. rewrite Hload. outcome_simpl.
  unfold other_kind.
  destruct (String.eqb baselineType "json-ld"); simpl; rewrite Hother; outcome_simpl.
  - reflexivity.
  - unfold compareJsonLdWithBaseline. reflexivity.
Qed.

Lemma baseline_of_other_kind_witness :
  exists fs',
    compareWithBaseline demo_blocks "home" ["baselines"] "json-ld" demo_dirs
    = Return (first_result "json-ld", fs')
    /\ forall data,
         compareWithBaseline data "home" ["baselines"] "meta-tags" fs' = Throw TypeError.
Proof.
  apply (baseline_of_other_kind demo_blocks "home" ["baselines"] "json-ld" demo_dirs);
    vm_compute; reflexivity.
Defined.

Lemma writeFileSync_inv (fs fs' : filesystem) (p : file_path) (data : string) :
  writeFileSync fs p data = Return fs' -> fs' = <[p := File data true]> fs.
Proof.
  unfold writeFileSync. intros H.
  destruct (fs !! p) as [[? []|?]|]; try discriminate; [now injection H|].
  destruct (fs !! dirname p) as [[|[]]|]; try discriminate. now injection H.
Qed.

Lemma write_json_inv (fs fs' : filesystem) (file : file_path) (doc : value) :
  write_json fs file doc = Return fs' ->
  exists text, JSON_stringify doc 2 = Some text /\ fs' = <[file := File text true]> fs.
Proof.
  unfold write_json. destruct (JSON_stringify doc 2) as [text|]; [|discriminate].
  intros H. exists text. split; [reflexivity|]. now apply writeFileSync_inv.
Qed.

(** X15: what the two writers touch, for a page with a plain name (short,
    without separators).  A comparison that finds the baseline
    file of its page leaves the file system as it is; a first run and an
    update replace or create that one file, as a writable file, and leave
    every other path as it was. *)
Theorem only_the_baseline_file_is_written (now : string) (extractedData : value)
  (pageName : string) (baselinePath : file_path) (baselineType : string)
  (fs : filesystem) :
  plain_name pageName = true ->
  let file := baselineFile baselinePath pageName in
  (forall r fs',
      compareWithBaseline extractedData pageName baselinePath baselineType fs
      = Return (r, fs') ->
      if existsSync fs file then fs' = fs
      else (exists text, fs' !! file = Some (File text true))
           /\ forall p, p <> file -> fs' !! p = fs !! p)
  /\ (forall fs',
         updateBaseline now extractedData pageName baselinePath baselineType fs
         = Return fs' ->
         (exists text, fs' !! file = Some (File text true))
         /\ forall p, p <> file -> fs' !! p = fs !! p).
Proof.
  intros _ file. split.
  - intros r fs'. unfold compareWithBaseline. fold file.
    destruct (existsSync fs file); simpl; intros H.
    + apply bind_Return_inv in H as (doc & _ & H).
      destruct (String.eqb baselineType "json-ld").
      * apply bind_Return_inv in H as (stored & _ & H).
        apply bind_Return_inv in H as (res & _ & H). now injection H.
      * destruct (String.eqb baselineType "meta-tags"); [|discriminate].
        apply bind_Return_inv in H as (stored & _ & H).
        apply bind_Return_inv in H as (res & _ & H). now injection H.
    + apply bind_Return_inv in H as (doc & _ & H).
      apply bind_Return_inv in H as (fs1 & Hw & H). injection H as _ <-.
      apply write_json_inv in Hw as (text & _ & ->). split.
      * exists text. apply lookup_insert_eq.
      * intros p Hp. now apply lookup_insert_ne.
  - intros fs'. unfold updateBaseline. fold file. intros H.
    apply bind_Return_inv in H as (doc & _ & Hw).
    apply write_json_inv in Hw as (text & _ & ->). split.
    + exists text. apply lookup_insert_eq.
    + intros p Hp. now apply lookup_insert_ne.
Qed.

Lemma only_the_baseline_file_is_written_witness :
  exists fs',
    updateBaseline "2024-05-01T10:00:00.000Z" (demo_tags "B") "home" ["baselines"]
      "meta-tags" demo_fs = Return fs'
    /\ fs' !! ["baselines"] = demo_fs !! ["baselines"].
Proof.
  assert (H : exists fs',
             updateBaseline "2024-05-01T10:00:00.000Z" (demo_tags "B") "home"
               ["baselines"] "meta-tags" demo_fs = Return fs')
    by (eexists; reflexivity).
  destruct H as [fs' H]. exists fs'. split; [exact H|].
  refine (proj2 (proj2 (only_the_baseline_file_is_written
                          "2024-05-01T10:00:00.000Z" (demo_tags "B") "home"
                          ["baselines"] "meta-tags" demo_fs eq_refl) fs' H)
            ["baselines"] _).
  discriminate.
Defined.

Lemma append_inj_l (a b s : string) : a +:+ s = b +:+ s -> a = b.
Proof.
  revert b. induction a as [|c a IH]; intros [|d b] H.
  - reflexivity.
  - exfalso. apply (f_equal String.length) in H.
    rewrite append_nil_l, length_append in H. simpl in H. lia.
  - exfalso. apply (f_equal String.length) in H.
    rewrite append_nil_l, length_append in H. simpl in H. lia.
  - rewrite !append_cons in H. injection H as -> H. f_equal. now apply IH.
Qed.

Lemma baselineFile_inj (baselinePath : file_path) (page1 page2 : string) :
  baselineFile baselinePath page1 = baselineFile baselinePath page2 -> page1 = page2.
Proof.
  unfold baselineFile, path_join. intros H.
  apply app_inv_head in H. injection H as H. now apply append_inj_l in H.
Qed.

Lemma compareWithBaseline_agree (extractedData : value) (pageName : string)
  (baselinePath : file_path) (baselineType : string) (fs fs' : filesystem) :
  existsSync fs (baselineFile baselinePath pageName) = true ->
  fs' !! baselineFile baselinePath pageName = fs !! baselineFile baselinePath pageName ->
  compareWithBaseline extractedData pageName baselinePath baselineType fs'
  = (x ← compareWithBaseline extractedData pageName baselinePath baselineType fs;
     Return (x.1, fs')).
Proof.
  intros Hex Hsame. unfold compareWithBaseline.
  assert (Hex' : existsSync fs' (baselineFile baselinePath pageName) = true).
  { unfold existsSync in *. now rewrite Hsame. }
  rewrite Hex, Hex'. simpl.
  assert (Hload : loadBaseline fs' (baselineFile baselinePath pageName)
                  = loadBaseline fs (baselineFile baselinePath pageName)).
  { unfold loadBaseline, readFileSync. now rewrite Hsame. }
  rewrite Hload.
  destruct (loadBaseline fs _) as [doc| |]; [|reflexivity|reflexivity].
  outcome_simpl.
  destruct (String.eqb baselineType "json-ld").
  - destruct (get doc "jsonLdData") as [stored| |]; [|reflexivity|reflexivity].
    outcome_simpl.
    destruct (compareJsonLdWithBaseline _ _) as [r| |]; reflexivity.
  - destruct (String.eqb baselineType "meta-tags"); [|reflexivity].
    destruct (get doc "metaTags") as [stored| |]; [|reflexivity|reflexivity].
    outcome_simpl.
    destruct (compareMetaTagsWithBaseline _ _) as [r| |]; reflexivity.
Qed.

(** X16: pages do not interfere.  The baseline files of two pages with
    different plain names (short, without separators) are different files
    of the baseline directory, names being compared exactly, so a
    first run or an update for one page leaves the outcome of comparing
    another page, whose baseline exists, as it was. *)
Theorem other_pages_are_unaffected (now : string) (data1 data2 : value)
  (page1 page2 : string) (baselinePath : file_path) (kind1 kind2 : string)
  (fs fs' : filesystem) :
  plain_name page1 = true -> plain_name page2 = true ->
  page1 <> page2 ->
  existsSync fs (baselineFile baselinePath page2) = true ->
  updateBaseline now data1 page1 baselinePath kind1 fs = Return fs'
  \/ (exists r, compareWithBaseline data1 page1 baselinePath kind1 fs = Return (r, fs')) ->
  baselineFile baselinePath page1 <> baselineFile baselinePath page2
  /\ compareWithBaseline data2 page2 baselinePath kind2 fs'
     = (x ← compareWithBaseline data2 page2 baselinePath kind2 fs; Return (x.1, fs')).
Proof.
  intros _ _ Hne Hex Hrun.
  assert (Hfiles : baselineFile baselinePath page1 <> baselineFile baselinePath page2).
  { intros E. apply Hne. now apply baselineFile_inj in E. }
  split; [exact Hfiles|].
  apply compareWithBaseline_agree; [exact Hex|].
  destruct Hrun as [Hrun|[r Hrun]].
  - unfold updateBaseline in Hrun.
    apply bind_Return_inv in Hrun as (doc & _ & Hw).
    apply write_json_inv in Hw as (text & _ & ->). now apply lookup_insert_ne.
  - unfold compareWithBaseline in Hrun.
    destruct (existsSync fs (baselineFile baselinePath page1)); simpl in Hrun.
    + apply bind_Return_inv in Hrun as (doc & _ & H).
      destruct (String.eqb kind1 "json-ld").
      * apply bind_Return_inv in H as (stored & _ & H).
        apply bind_Return_inv in H as (res & _ & H). now injection H as _ <-.
      * destruct (String.eqb kind1 "meta-tags"); [|discriminate].
        apply bind_Return_inv in H as (stored & _ & H).
        apply bind_Return_inv in H as (res & _ & H). now injection H as _ <-.
    + apply bind_Return_inv in Hrun as (doc & _ & H).
      apply bind_Return_inv in H as (fs1 & Hw & H). injection H as _ <-.
      apply write_json_inv in Hw as (text & _ & ->). now apply lookup_insert_ne.
Qed.

Lemma other_pages_are_unaffected_witness :
  exists fs',
    compareWithBaseline demo_blocks "courses" ["baselines"] "json-ld" demo_fs
    = Return (first_result "json-ld", fs')
    /\ compareWithBaseline (demo_tags "B") "home" ["baselines"] "meta-tags" fs'
       = (x ← compareWithBaseline (demo_tags "B") "home" ["baselines"] "meta-tags" demo_fs;
          Return (x.1, fs')).
Proof.
  assert (H : exists fs',
             compareWithBaseline demo_blocks "courses" ["baselines"] "json-ld" demo_fs
             = Return (first_result "json-ld", fs'))
    by (eexists; reflexivity).
  assert (Hex : existsSync demo_fs (baselineFile ["baselines"] "home") = true)
    by (vm_compute; reflexivity).
  destruct H as [fs' H]. exists fs'. split; [exact H|].
  refine (proj2 (other_pages_are_unaffected "" demo_blocks (demo_tags "B")
                   "courses" "home" ["baselines"] "json-ld" "meta-tags"
                   demo_fs fs' eq_refl eq_refl _ Hex _)).
  - discriminate.
  - right. eexists. exact H.
Defined.

(** ** The baseline directory *)

Lemma mkdir_from_created (rest prefix : file_path) (fs fs' : filesystem) :
  mkdir_from fs prefix rest = Return fs' ->
  forall q, fs' !! q = fs !! q
            \/ (fs !! q = None /\ fs' !! q = Some (Directory true)
                /\ q `prefix_of` (prefix ++ rest) /\ length prefix < length q).
Proof.
  revert prefix fs. induction rest as [|c rest IH]; intros prefix fs; simpl.
  { intros [= <-] q. now left. }
  intros H q.
  assert (Hstep : forall fs1, mkdir_from fs1 (prefix ++ [c]) rest = Return fs' ->
            fs' !! q = fs1 !! q
            \/ (fs1 !! q = None /\ fs' !! q = Some (Directory true)
                /\ q `prefix_of` (prefix ++ c :: rest) /\ length prefix < length q)).
  { intros fs1 H1. destruct (IH _ _ H1 q) as [?|(? & ? & Hp & Hl)]; [now left|].
    right. rewrite <- app_assoc in Hp. simpl in Hp. rewrite length_app in Hl. simpl in Hl.
    repeat split; try assumption. lia. }
  destruct (fs !! (prefix ++ [c])) as [[|]|] eqn:Hp; try discriminate.
  { now apply Hstep. }
  destruct (fs !! prefix) as [[|[]]|]; try discriminate.
  destruct (Hstep _ H) as [Hq|(Hq & ? & ? & ?)].
  - destruct (decide (q = prefix ++ [c])) as [->|Hneq].
    + rewrite lookup_insert_eq in Hq. right. repeat split; try assumption.
      * exists rest. now rewrite <- app_assoc.
      * rewrite length_app. simpl. lia.
    + rewrite lookup_insert_ne in Hq by congruence. now left.
  - destruct (decide (q = prefix ++ [c])) as [->|Hneq].
    + rewrite lookup_insert_eq in Hq. discriminate.
    + rewrite lookup_insert_ne in Hq by congruence. right. repeat split; assumption.
Qed.

(** X17: what [ensureBaselineDirectory] leaves behind.  When it returns,
    every path is as before or is a missing, non-empty prefix of the baseline
    path created as a writable directory; and a baseline path that was
    missing is then a writable directory. *)
Theorem ensureBaselineDirectory_creates (baselinePath : file_path) (fs fs' : filesystem) :
  ensureBaselineDirectory baselinePath fs = Return fs' ->
  (forall q, fs' !! q = fs !! q
             \/ (fs !! q = None /\ fs' !! q = Some (Directory true)
                 /\ q `prefix_of` baselinePath /\ q <> []))
  /\ (baselinePath <> [] -> fs !! baselinePath = None ->
      fs' !! baselinePath = Some (Directory true)).
Proof.
  unfold ensureBaselineDirectory, mkdirSync_recursive.
  destruct (existsSync fs baselinePath) eqn:Hex; simpl.
  - intros [= <-]. split; [now left|].
    intros _ Hnone. unfold existsSync in Hex. rewrite Hnone in Hex.
    apply bool_decide_eq_true in Hex. now destruct Hex.
  - intros H. split.
    + intros q. destruct (mkdir_from_created _ _ _ _ H q) as [?|(? & ? & ? & Hl)];
        [now left|right].
      repeat split; try assumption. intros ->. simpl in Hl. lia.
    + intros Hne Hnone.
      destruct (mkdir_from_Return _ _ _ _ H) as [Hgrown Hdir].
      destruct (Hdir Hne) as [w Hw]. simpl in Hw.
      destruct (Hgrown baselinePath) as [E|[_ E]]; [|exact E].
      rewrite E, Hnone in Hw. discriminate.
Qed.

Lemma ensureBaselineDirectory_creates_witness :
  exists fs',
    ensureBaselineDirectory ["baselines"; "seo"] demo_dirs = Return fs'
    /\ fs' !! ["baselines"; "seo"] = Some (Directory true).
Proof.
  assert (H : exists fs', ensureBaselineDirectory ["baselines"; "seo"] demo_dirs = Return fs')
    by (eexists; reflexivity).
  assert (Hnone : demo_dirs !! ["baselines"; "seo"] = None) by (vm_compute; reflexivity).
  destruct H as [fs' H]. exists fs'. split; [exact H|].
  refine (proj2 (ensureBaselineDirectory_creates ["baselines"; "seo"] demo_dirs fs' H)
            _ Hnone).
  discriminate.
Defined.

(** X18: the directory first, then the first run.  Once
    [ensureBaselineDirectory] has created a missing baseline directory, the
    first comparison of a page, with a plain name, that has no
    baseline file finds no file, writes the baseline file into the new
    directory and returns the matching result. *)
Theorem ensured_directory_takes_first_run (extractedData : value) (pageName : string)
  (baselinePath : file_path) (baselineType : string) (fs fs' : filesystem) :
  plain_name pageName = true ->
  baselinePath <> [] -> fs !! baselinePath = None ->
  fs !! baselineFile baselinePath pageName = None ->
  is_nullish extractedData = false ->
  ensureBaselineDirectory baselinePath fs = Return fs' ->
  exists doc text,
    first_baseline extractedData baselineType = Return doc
    /\ compareWithBaseline extractedData pageName baselinePath baselineType fs'
       = Return (first_result baselineType,
                 <[baselineFile baselinePath pageName := File text true]> fs').
Proof.
  intros _ Hne Hnone Hfile Hn Hensure.
  unfold ensureBaselineDirectory, mkdirSync_recursive in Hensure.
  assert (Hex : existsSync fs baselinePath = false).
  { unfold existsSync. rewrite Hnone. apply bool_decide_eq_false. now intros [? ?]. }
  rewrite Hex in Hensure. simpl in Hensure.
  assert (Hdir : fs' !! baselinePath = Some (Directory true)).
  { destruct (mkdir_from_Return _ _ _ _ Hensure) as [Hgrown Hdir].
    destruct (Hdir Hne) as [w Hw]. simpl in Hw.
    destruct (Hgrown baselinePath) as [E|[_ E]]; [|exact E].
    rewrite E, Hnone in Hw. discriminate. }
  assert (Hex' : existsSync fs' (baselineFile baselinePath pageName) = false).
  { unfold existsSync. apply bool_decide_eq_false.
    destruct (mkdir_from_created _ _ _ _ Hensure (baselineFile baselinePath pageName))
      as [E|(_ & _ & Hp & _)].
    - rewrite E, Hfile. now intros [? ?].
    - exfalso. simpl in Hp. apply prefix_length in Hp.
      unfold baselineFile, path_join in Hp. rewrite length_app in Hp. simpl in Hp. lia. }
  destruct (first_baseline_Return extractedData baselineType Hn)
    as (payload & count & Hdoc & _).
  destruct (JSON_stringify_object [(payload, extractedData); count] 2) as [text Htext].
  eexists _, text. split; [exact Hdoc|].
  unfold compareWithBaseline. rewrite Hex', Hdoc. simpl. outcome_simpl.
  unfold baselineFile in *.
  now rewrite (write_json_new_file _ _ _ _ text Hex' Hdir Htext).
Qed.

Lemma ensured_directory_takes_first_run_witness :
  exists fs' doc text,
    ensureBaselineDirectory ["baselines"; "seo"] demo_dirs = Return fs'
    /\ first_baseline demo_blocks "json-ld" = Return doc
    /\ compareWithBaseline demo_blocks "home" ["baselines"; "seo"] "json-ld" fs'
       = Return (first_result "json-ld",
                 <[baselineFile ["baselines"; "seo"] "home" := File text true]> fs').
Proof.
  assert (H : exists fs', ensureBaselineDirectory ["baselines"; "seo"] demo_dirs = Return fs')
    by (eexists; reflexivity).
  assert (Hnone : demo_dirs !! ["baselines"; "seo"] = None) by (vm_compute; reflexivity).
  assert (Hfile : demo_dirs !! baselineFile ["baselines"; "seo"] "home" = None)
    by (vm_compute; reflexivity).
  destruct H as [fs' H].
  destruct (ensured_directory_takes_first_run demo_blocks "home" ["baselines"; "seo"]
              "json-ld" demo_dirs fs' eq_refl ltac:(discriminate) Hnone Hfile eq_refl H)
    as (doc & text & H1 & H2).
  exists fs', doc, text. repeat split; assumption.
Defined.

(** ** Assignments to a property *)

Lemma set_prop_keys_in {A} (k : string) (v : A) (props : list (string * A)) :
  In k (map fst props) -> map fst (set_prop k v props) = map fst props.
Proof.
  induction props as [|[k' w] props IH]; simpl; [tauto|].
  destruct (String.eqb_spec k k') as [->|Hne]; [reflexivity|].
  intros [E|Hin]; [congruence|]. simpl. now rewrite IH.
Qed.

Lemma set_prop_keys {A} (k : string) (v : A) (props : list (string * A)) :
  map fst (set_prop k v props) = map fst props
  \/ (~ In k (map fst props) /\ map fst (set_prop k v props) = map fst props ++ [k]).
Proof.
  induction props as [|[k' w] props IH]; simpl.
  - right. split; [tauto|reflexivity].
  - destruct (String.eqb_spec k k') as [->|Hne]; [now left|].
    simpl. destruct IH as [->|[Hnin ->]]; [now left|right].
    split; [|reflexivity]. intros [E|Hin]; [congruence|contradiction].
Qed.

Lemma set_prop_NoDup {A} (k : string) (v : A) (props : list (string * A)) :
  NoDup (map fst props) -> NoDup (map fst (set_prop k v props)).
Proof.
  intros H. destruct (set_prop_keys k v props) as [->|[Hnin ->]]; [exact H|].
  apply NoDup_app. split; [exact H|]. split.
  - intros x Hx Hk. apply list_elem_of_In in Hx. apply list_elem_of_In in Hk.
    destruct Hk as [<-|[]]. contradiction.
  - repeat constructor. set_solver.
Qed.

Lemma set_prop_In {A} (k : string) (v : A) (props : list (string * A)) (x : string * A) :
  In x (set_prop k v props) -> x = (k, v) \/ In x props.
Proof.
  induction props as [|[k' w] props IH]; simpl.
  - intros [<-|[]]. now left.
  - destruct (String.eqb_spec k k') as [->|Hne]; simpl.
    + intros [<-|Hin]; auto.
    + intros [<-|Hin]; auto. destruct (IH Hin); auto.
Qed.

Lemma set_prop_Forall {A} (P : string * A -> Prop) (k : string) (v : A)
  (props : list (string * A)) :
  P (k, v) -> Forall P props -> Forall P (set_prop k v props).
Proof.
  intros Hk Hall. apply List.Forall_forall. intros x Hx.
  destruct (set_prop_In _ _ _ _ Hx) as [->|Hin]; [exact Hk|].
  rewrite List.Forall_forall in Hall. now apply Hall.
Qed.

Lemma is_json_object (props : list (string * value)) :
  is_json (VObj props) = true
  <-> Forall (fun kv => is_json kv.2 = true) props /\ NoDup (map fst props).
Proof.
  simpl. rewrite andb_true_iff, forallb_forall, bool_decide_eq_true, List.Forall_forall.
  reflexivity.
Qed.

Lemma is_json_set_prop (k : string) (v : value) (props : list (string * value)) :
  is_json v = true -> is_json (VObj props) = true ->
  is_json (VObj (set_prop k v props)) = true.
Proof.
  rewrite !is_json_object. intros Hv [Hall Hnd]. split.
  - now apply set_prop_Forall.
  - now apply set_prop_NoDup.
Qed.

(** ** What [JSON.parse] returns *)

Lemma parse_number_is_json (s : string) (v : value) (r : string) :
  parse_number s = Return (v, r) -> is_json v = true.
Proof.
  unfold parse_number. intros H.
  assert (Hgen : forall f t,
             ('(n, rest) ← parse_digits t; Return (VNum (f n), rest)) = Return (v, r) ->
             is_json v = true).
  { intros f t Ht. apply bind_Return_inv in Ht as ([n rest] & _ & [= <- _]). reflexivity. }
  destruct s as [|c s]; [exact (Hgen (fun n => n) _ H)|].
  destruct (Ascii.eqb_spec c "-") as [->|Hne].
  - exact (Hgen Z.opp _ H).
  - assert (H' : ('(n, rest) ← parse_digits (String c s); Return (VNum n, rest))
                 = Return (v, r)).
    { rewrite <- H. destruct c as [[] [] [] [] [] [] [] []]; try reflexivity.
      now destruct Hne. }
    exact (Hgen (fun n => n) _ H').
Qed.

Lemma parse_literal_is_json (word : string) (x v : value) (s r : string) :
  is_json x = true -> parse_literal word x s = Return (v, r) -> is_json v = true.
Proof.
  unfold parse_literal. intros Hx. destruct (strip_prefix word s); [|discriminate].
  now intros [= <- _].
Qed.

Lemma parse_value_S (fuel : nat) (s : string) :
  parse_value (S fuel) s
  = match skip_ws s with
    | EmptyString => Throw SyntaxError
    | String c rest =>
        if Ascii.eqb c "{" then
          match head_is "}" (skip_ws rest) with
          | Some rest' => Return (VObj [], rest')
          | None => parse_members fuel rest []
          end
        else if Ascii.eqb c "[" then
          match head_is "]" (skip_ws rest) with
          | Some rest' => Return (VArr [], rest')
          | None => parse_elements fuel rest []
          end
        else if Ascii.eqb c dquote then
          '(text, r) ← parse_chars rest; Return (VStr text, r)
        else if Ascii.eqb c "-" || is_digit c then parse_number (String c rest)
        else if Ascii.eqb c "n" then parse_literal "null" VNull (String c rest)
        else if Ascii.eqb c "t" then parse_literal "true" (VBool true) (String c rest)
        else if Ascii.eqb c "f" then parse_literal "false" (VBool false) (String c rest)
        else Throw SyntaxError
    end.
Proof. reflexivity. Qed.

Lemma parse_is_json (fuel : nat) :
  (forall s v r, parse_value fuel s = Return (v, r) -> is_json v = true)
  /\ (forall s acc v r,
         forallb is_json acc = true ->
         parse_elements fuel s acc = Return (v, r) -> is_json v = true)
  /\ (forall s acc v r,
         is_json (VObj acc) = true ->
         parse_members fuel s acc = Return (v, r) -> is_json v = true).
Proof.
  induction fuel as [|fuel (IHv & IHe & IHm)].
  { repeat split; intros; discriminate. }
  repeat split.
  - intros s v r. rewrite parse_value_S.
    destruct (skip_ws s) as [|c rest]; [discriminate|].
    destruct (Ascii.eqb c "{").
    { destruct (head_is "}" (skip_ws rest)); [now intros [= <- _]|].
      now apply IHm. }
    destruct (Ascii.eqb c "[").
    { destruct (head_is "]" (skip_ws rest)); [now intros [= <- _]|].
      now apply IHe. }
    destruct (Ascii.eqb c dquote).
    { intros H. apply bind_Return_inv in H as ([text r'] & _ & [= <- _]). reflexivity. }
    destruct (Ascii.eqb c "-" || is_digit c); [apply parse_number_is_json|].
    destruct (Ascii.eqb c "n"); [now apply parse_literal_is_json|].
    destruct (Ascii.eqb c "t"); [now apply parse_literal_is_json|].
    destruct (Ascii.eqb c "f"); [now apply parse_literal_is_json|].
    discriminate.
  - intros s acc v r Hacc. rewrite parse_elements_S. intros H.
    apply bind_Return_inv in H as ([x rest] & Hx & H).
    apply IHv in Hx.
    assert (Hacc' : forallb is_json (acc ++ [x]) = true).
    { rewrite forallb_app, Hacc. simpl. now rewrite Hx. }
    destruct (head_is "," (skip_ws rest)); [now apply IHe in H|].
    destruct (head_is "]" (skip_ws rest)); [|discriminate].
    injection H as <- _. exact Hacc'.
  - intros s acc v r Hacc. rewrite parse_members_S.
    destruct (head_is dquote (skip_ws s)) as [rest|]; [|discriminate].
    intros H. apply bind_Return_inv in H as ([key rest1] & _ & H).
    destruct (head_is ":" (skip_ws rest1)) as [rest2|]; [|discriminate].
    apply bind_Return_inv in H as ([x rest3] & Hx & H).
    apply IHv in Hx.
    pose proof (is_json_set_prop key x acc Hx Hacc) as Hacc'.
    destruct (head_is "," (skip_ws rest3)); [now apply IHm in H|].
    destruct (head_is "}" (skip_ws rest3)); [|discriminate].
    injection H as <- _. exact Hacc'.
Qed.

Lemma JSON_parse_is_json (text : string) (v : value) :
  JSON_parse text = Return v -> is_json v = true.
Proof.
  unfold JSON_parse. intros H.
  apply bind_Return_inv in H as ([x rest] & Hx & H).
  destruct (String.eqb (skip_ws rest) ""); [|discriminate].
  injection H as <-. eapply (proj1 (parse_is_json _)). exact Hx.
Qed.

(** ** [extractJsonLdData] *)

Lemma jsonLdBlock_Return (message : string -> string) (index : nat) (text : string)
  (block : value) :
  jsonLdBlock message index text = Return block -> block_of message index text block.
Proof.
  unfold jsonLdBlock, block_of. destruct (JSON_parse text) as [v|e|]; intros [= <-]; eauto.
Qed.


Lemma jsonLdBlocks_Return (message : string -> string) (scripts : list string) :
  forall index blocks,
  jsonLdBlocks message index scripts = Return blocks ->
  Forall2 (fun it block => block_of message it.1 it.2 block)
    (zip (seq index (length scripts)) scripts) blocks.
Proof.
  induction scripts as [|text scripts IH]; intros index blocks; simpl.
  { intros [= <-]. constructor. }
  intros H. apply bind_Return_inv in H as (block & Hb & H).
  apply bind_Return_inv in H as (rest & Hrest & [= <-]).
  constructor; [now apply jsonLdBlock_Return|now apply IH].
Qed.



Lemma block_of_json (message : string -> string) (index : nat) (text : string)
  (block : value) :
  block_of message index text block ->
  is_json block = true /\ comparable_block block = true.
Proof.
  intros [(v & Hv & ->)|(e & _ & ->)].
  - apply JSON_parse_is_json in Hv. simpl. rewrite Hv. split; reflexivity.
  - split; reflexivity.
Qed.

Lemma extractJsonLdData_comparable (message : string -> string) (scripts : list string)
  (v : value) :
  extractJsonLdData message scripts = Return v ->
  is_json v = true /\ comparable "json-ld" v = true.
Proof.
  unfold extractJsonLdData. intros H.
  apply bind_Return_inv in H as (blocks & Hb & [= <-]).
  apply jsonLdBlocks_Return in Hb. unfold comparable. simpl.
  induction Hb as [|it block its blocks Hblock _ [IH1 IH2]]; [split; reflexivity|].
  apply block_of_json in Hblock as [H1 H2]. simpl in *.
  rewrite H1, H2, IH1, IH2. split; reflexivity.
Qed.

(** X20: from the page to the baseline and back, for JSON-LD.  Whatever
    [extractJsonLdData] returns for a page with a plain name (short,
    without separators) can be stored as its first
    baseline, and the same extraction compared against that baseline matches:
    the first run creates the file, the second run leaves it and returns the
    matching result. *)
Theorem extracted_json_ld_matches_its_baseline (message : string -> string)
  (scripts : list string) (jsonLdData : value) (pageName : string)
  (baselinePath : file_path) (fs : filesystem) :
  plain_name pageName = true ->
  extractJsonLdData message scripts = Return jsonLdData ->
  existsSync fs (baselineFile baselinePath pageName) = false ->
  fs !! baselinePath = Some (Directory true) ->
  exists fs',
    compareWithBaseline jsonLdData pageName baselinePath "json-ld" fs
    = Return (JsonLdComparison json_ld_match, fs')
    /\ compareWithBaseline jsonLdData pageName baselinePath "json-ld" fs'
       = Return (JsonLdComparison json_ld_match, fs').
Proof.
  intros _ Hextract Hex Hdir.
  apply extractJsonLdData_comparable in Hextract as [Hj Hcmp].
  destruct (first_run_stored _ pageName _ _ _ Hex Hdir Hj Hcmp)
    as (doc & text & Hfirst & Hload & Hget & _).
  eexists. split; [exact Hfirst|].
  apply (compareWithBaseline_stored _ _ _ "json-ld" _ doc); auto.
Qed.

Lemma extracted_json_ld_matches_its_baseline_witness :
  exists fs',
    compareWithBaseline
      (VArr [VObj [("index", VNum 0); ("data", VObj [("@type", VStr "Course")])];
             VObj [("index", VNum 1); ("error", VStr "Invalid JSON: unexpected");
                   ("rawContent", VStr "{oops")]])
      "home" ["baselines"] "json-ld" demo_dirs
    = Return (JsonLdComparison json_ld_match, fs').
Proof.
  assert (H : extractJsonLdData (fun _ => "unexpected")
                [String "{" (String dquote "@type" +:+ String dquote ":"
                             +:+ String dquote "Course" +:+ String dquote "}");
                 "{oops"]
              = Return (VArr [VObj [("index", VNum 0);
                                    ("data", VObj [("@type", VStr "Course")])];
                              VObj [("index", VNum 1);
                                    ("error", VStr "Invalid JSON: unexpected");
                                    ("rawContent", VStr "{oops")]]))
    by (vm_compute; reflexivity).
  destruct (extracted_json_ld_matches_its_baseline _ _ _ "home" ["baselines"] demo_dirs
              eq_refl H eq_refl eq_refl) as (fs' & Hfirst & _).
  exists fs'. exact Hfirst.
Defined.

Lemma append_inj_r (s a b : string) : s +:+ a = s +:+ b -> a = b.
Proof.
  induction s as [|c s IH]; [now rewrite !append_nil_l|].
  rewrite !append_cons. intros [= H]. now apply IH.
Qed.

(** X21: blocks whose text does not parse.  Two blocks that
    [extractJsonLdData] built from unparsable texts are compared by their
    error message alone: an entry without field differences is recorded when
    the messages differ, and nothing is recorded when they agree, whatever
    the raw texts are; such a block against a block that parsed is always
    recorded. *)
Theorem failed_blocks_compare_by_message (message : string -> string)
  (i j k : nat) (text1 text2 : string) (b c : value) (e1 e2 : js_error) :
  jsonLdBlock message j text1 = Return b ->
  jsonLdBlock message k text2 = Return c ->
  JSON_parse text1 = Throw e1 ->
  (JSON_parse text2 = Throw e2 ->
   block_differences i b c
   = Return (if bool_decide (message text1 = message text2) then []
             else [{| index := i; baseline := b; current := c;
                      fieldDifferences := None |}]))
  /\ (forall jsonContent, JSON_parse text2 = Return jsonContent ->
        block_differences i b c
        = Return [{| index := i; baseline := b; current := c;
                     fieldDifferences := None |}]
        /\ block_differences i c b
           = Return [{| index := i; baseline := c; current := b;
                        fieldDifferences := None |}]).
Proof.
  unfold jsonLdBlock. intros Hb Hc H1. rewrite H1 in Hb. injection Hb as <-. split.
  - intros H2. rewrite H2 in Hc. injection Hc as <-.
    remember ("Invalid JSON: " +:+ message text1) as m1 eqn:He1.
    remember ("Invalid JSON: " +:+ message text2) as m2 eqn:He2.
    assert (Ht : truthy (VStr m1) = true) by (subst m1; reflexivity).
    unfold block_differences.
    change (get (VObj [("index", VNum (Z.of_nat j)); ("error", VStr m1);
                       ("rawContent", VStr text1)]) "error") with (Return (VStr m1)).
    change (get (VObj [("index", VNum (Z.of_nat k)); ("error", VStr m2);
                       ("rawContent", VStr text2)]) "error") with (Return (VStr m2)).
    outcome_simpl. rewrite Ht. cbn [orb]. unfold strict_neq, strict_eq.
    destruct (String.eqb_spec m1 m2) as [E|E]; cbn [negb].
    + subst m1 m2. apply append_inj_r in E. now rewrite bool_decide_eq_true_2.
    + rewrite bool_decide_eq_false_2; [reflexivity|]. intros E'. apply E.
      subst m1 m2. now rewrite E'.
  - intros v H2. rewrite H2 in Hc. injection Hc as <-.
    unfold block_differences. simpl. outcome_simpl. split; reflexivity.
Qed.

Lemma failed_blocks_compare_by_message_witness :
  block_differences 0
    (VObj [("index", VNum 0); ("error", VStr "Invalid JSON: unexpected");
           ("rawContent", VStr "{oops")])
    (VObj [("index", VNum 3); ("error", VStr "Invalid JSON: unexpected");
           ("rawContent", VStr "[1,")])
  = Return [].
Proof.
  exact (proj1 (failed_blocks_compare_by_message (fun _ => "unexpected") 0 0 3
                  "{oops" "[1," _ _ SyntaxError SyntaxError eq_refl eq_refl eq_refl)
           eq_refl).
Defined.

(** ** [extractMetaTags] *)

(** *** Keys of the extracted meta tags *)

Lemma clean_key_chars (s : string) :
  all_chars is_key_char (toLowerCase (replace_non_word s)) = true.
Proof.
  induction s as [|c s IH]; [reflexivity|]. simpl. rewrite IH, andb_true_r.
  destruct c as [[] [] [] [] [] [] [] []]; reflexivity.
Qed.

Lemma clean_append (a b : string) :
  toLowerCase (replace_non_word (a +:+ b))
  = toLowerCase (replace_non_word a) +:+ toLowerCase (replace_non_word b).
Proof.
  induction a as [|c a IH]; [reflexivity|]. rewrite append_cons. simpl.
  rewrite IH. reflexivity.
Qed.

Lemma all_chars_append (f : ascii -> bool) (a b : string) :
  all_chars f (a +:+ b) = all_chars f a && all_chars f b.
Proof.
  induction a as [|c a IH]; [reflexivity|]. rewrite append_cons. simpl.
  now rewrite IH, andb_assoc.
Qed.

Lemma meta_key_form (index : nat) (meta : attributes) :
  exists x, meta_key index meta = "meta_" +:+ x /\ all_chars is_key_char x = true.
Proof.
  unfold meta_key.
  assert (H : forall x, exists y,
             toLowerCase (replace_non_word ("meta_" +:+ x)) = "meta_" +:+ y
             /\ all_chars is_key_char y = true).
  { intros x. exists (toLowerCase (replace_non_word x)).
    split; [now rewrite clean_append|apply clean_key_chars]. }
  destruct (truthy_attribute "name" meta); [apply H|].
  destruct (truthy_attribute "property" meta); [apply H|].
  destruct (truthy_attribute "http-equiv" meta); [apply H|].
  destruct (truthy_attribute "charset" meta); [|apply H].
  exists "charset". split; reflexivity.
Qed.

Lemma meta_key_not_title (index : nat) (meta : attributes) :
  meta_key index meta <> "title".
Proof.
  destruct (meta_key_form index meta) as (x & -> & _). discriminate.
Qed.

Lemma store_metas_keys (P : string -> Prop) (metas : list attributes) :
  (forall index meta, P (meta_key index meta)) ->
  forall index metaTags,
    Forall P (map fst metaTags) -> NoDup (map fst metaTags) ->
    Forall P (map fst (store_metas index metas metaTags))
    /\ NoDup (map fst (store_metas index metas metaTags)).
Proof.
  intros HP. induction metas as [|meta metas IH]; intros index metaTags Hall Hnd; simpl.
  { split; assumption. }
  apply IH.
  - destruct (set_prop_keys (meta_key index meta) (VObj (meta_info meta)) metaTags)
      as [->|[_ ->]]; [exact Hall|].
    apply Forall_app. split; [exact Hall|]. repeat constructor. apply HP.
  - now apply set_prop_NoDup.
Qed.

(** X22: the keys of the extracted meta tags.  [extractMetaTags] returns
    an object whose keys are pairwise distinct and made of lower-case
    letters, digits and underscores only; every key is [title] or starts
    with [meta_]. *)
Theorem extractMetaTags_keys (h : head) :
  exists metaTags,
    extractMetaTags h = VObj metaTags
    /\ NoDup (map fst metaTags)
    /\ Forall (fun key =>
                 all_chars is_key_char key = true
                 /\ (key = "title" \/ exists x, key = "meta_" +:+ x))
         (map fst metaTags).
Proof.
  unfold extractMetaTags. eexists. split; [reflexivity|].
  set (P := fun key => all_chars is_key_char key = true
                       /\ (key = "title" \/ exists x, key = "meta_" +:+ x)).
  assert (HP : forall index meta, P (meta_key index meta)).
  { intros index meta. destruct (meta_key_form index meta) as (x & -> & Hx).
    split; [|right; now exists x].
    now rewrite all_chars_append, Hx. }
  pose proof (store_metas_keys P (head_metas h) HP 0 []
                ltac:(constructor) ltac:(constructor)) as [Hall Hnd].
  destruct (head_title h) as [text|]; [|split; assumption].
  split; [now apply set_prop_NoDup|].
  destruct (set_prop_keys "title" (VObj [("content", VStr text)])
              (store_metas 0 (head_metas h) [])) as [->|[_ ->]]; [exact Hall|].
  apply Forall_app. split; [exact Hall|].
  constructor; [|constructor]. split; [reflexivity|now left].
Qed.

(** *** The object stored for a [meta] element *)

Lemma foldl_set_prop_fresh (meta : attributes) :
  forall info,
    NoDup (map fst info ++ map fst meta) ->
    foldl (fun info attr => set_prop attr.1 (VStr attr.2) info) info meta
    = info ++ attributes_object meta.
Proof.
  induction meta as [|[name text] meta IH]; intros info Hnd; simpl.
  { now rewrite app_nil_r. }
  rewrite set_prop_fresh.
  - rewrite IH.
    + now rewrite <- app_assoc.
    + rewrite map_app. simpl. rewrite <- app_assoc. exact Hnd.
  - apply NoDup_app in Hnd as (_ & Hdisj & _). intros Hin.
    apply (Hdisj _ Hin). now left.
Qed.

Lemma set_prop_same {A} (k : string) (v : A) (props : list (string * A)) :
  NoDup (map fst props) -> In (k, v) props -> set_prop k v props = props.
Proof.
  induction props as [|[k' w] props IH]; simpl; [tauto|].
  intros Hnd Hin. apply NoDup_cons in Hnd as [Hk' Hnd].
  destruct (String.eqb_spec k k') as [->|Hne].
  - destruct Hin as [[= ->]|Hin]; [reflexivity|].
    exfalso. apply Hk'. apply list_elem_of_In, in_map_iff. now exists (k', v).
  - destruct Hin as [[= ? ?]|Hin]; [congruence|]. now rewrite IH.
Qed.

(** X23: the object stored for a [meta] element.  For an element whose
    attribute names are pairwise distinct, as in a parsed document, none
    being [__proto__] or starting with a digit, the
    stored object lists the attributes in order, each with its value; the
    extra assignment of a truthy [content] changes nothing. *)
Theorem meta_info_lists_the_attributes (meta : attributes) :
  Forall (fun attr => ordinary_name attr.1 = true) meta ->
  NoDup (map fst meta) ->
  meta_info meta = attributes_object meta
  /\ forall name text,
       assoc name meta = Some text -> assoc name (meta_info meta) = Some (VStr text).
Proof.
  intros _ Hnd.
  assert (Hfold : foldl (fun info attr => set_prop attr.1 (VStr attr.2) info) [] meta
                  = attributes_object meta)
    by (rewrite foldl_set_prop_fresh; [reflexivity|exact Hnd]).
  assert (Hkeys : map fst (attributes_object meta) = map fst meta).
  { unfold attributes_object. rewrite map_map. reflexivity. }
  assert (Hlookup : forall name text,
             assoc name meta = Some text ->
             In (name, VStr text) (attributes_object meta)).
  { intros name text H. apply assoc_In in H. unfold attributes_object.
    apply in_map_iff. now exists (name, text). }
  assert (Hinfo : meta_info meta = attributes_object meta).
  { unfold meta_info. rewrite Hfold. unfold truthy_attribute.
    destruct (assoc "content" meta) as [text|] eqn:Hc; [|reflexivity].
    destruct (String.eqb text ""); [reflexivity|].
    apply set_prop_same; [now rewrite Hkeys|now apply Hlookup]. }
  split; [exact Hinfo|].
  intros name text H. rewrite Hinfo.
  apply assoc_Some_iff; [now rewrite Hkeys|now apply Hlookup].
Qed.

Lemma meta_info_lists_the_attributes_witness :
  meta_info [("name", "description"); ("content", "Lessons")]
  = [("name", VStr "description"); ("content", VStr "Lessons")].
Proof.
  refine (proj1 (meta_info_lists_the_attributes
                   [("name", "description"); ("content", "Lessons")] _ _)).
  - repeat constructor.
  - compute_done.
Defined.

Lemma store_metas_app (pre post : list attributes) :
  forall index metaTags,
    store_metas index (pre ++ post) metaTags
    = store_metas (index + length pre) post (store_metas index pre metaTags).
Proof.
  induction pre as [|m pre IH]; intros index metaTags; simpl.
  - now rewrite Nat.add_0_r.
  - rewrite IH. f_equal. lia.
Qed.

Lemma store_metas_other (key : string) (metas : list attributes) :
  forall index metaTags,
    (forall j meta, metas !! j = Some meta -> meta_key (index + j) meta <> key) ->
    assoc key (store_metas index metas metaTags) = assoc key metaTags.
Proof.
  induction metas as [|m metas IH]; intros index metaTags Hkeys; simpl; [reflexivity|].
  rewrite IH.
  - rewrite assoc_set_prop.
    destruct (String.eqb_spec key (meta_key index m)) as [E|_]; [|reflexivity].
    exfalso. apply (Hkeys 0 m eq_refl). now rewrite Nat.add_0_r.
  - intros j meta Hj. replace (S index + j) with (index + S j) by lia.
    now apply Hkeys.
Qed.

(** X24: what is stored under a key.  In the object returned by
    [extractMetaTags], [title] holds the text of the title element and is
    there only when the page has one, whatever the [meta] elements are; and
    the key of a [meta] element holds the object of that element, unless a
    later element has the same key, in which case the later one replaces
    it. *)
Theorem extractMetaTags_stores_the_last (h : head) (metaTags : list (string * value)) :
  extractMetaTags h = VObj metaTags ->
  assoc "title" metaTags = title_tag <$> head_title h
  /\ forall pre meta post,
       head_metas h = pre ++ meta :: post ->
       (forall j later, post !! j = Some later ->
                        meta_key (S (length pre) + j) later <> meta_key (length pre) meta) ->
       assoc (meta_key (length pre) meta) metaTags = Some (VObj (meta_info meta)).
Proof.
  unfold extractMetaTags. intros [= <-]. split.
  - assert (Hnone : assoc "title" (store_metas 0 (head_metas h) []) = None).
    { rewrite store_metas_other; [reflexivity|].
      intros j meta _. apply meta_key_not_title. }
    destruct (head_title h) as [text|]; simpl; [|exact Hnone].
    rewrite assoc_set_prop. now rewrite String.eqb_refl.
  - intros pre meta post Hsplit Hlater.
    assert (Hstored : assoc (meta_key (length pre) meta)
                        (store_metas 0 (head_metas h) [])
                      = Some (VObj (meta_info meta))).
    { rewrite Hsplit, store_metas_app. simpl.
      rewrite store_metas_other by exact Hlater.
      rewrite assoc_set_prop. now rewrite String.eqb_refl. }
    destruct (head_title h) as [text|]; [|exact Hstored].
    rewrite assoc_set_prop.
    destruct (String.eqb_spec (meta_key (length pre) meta) "title") as [E|_];
      [|exact Hstored].
    now destruct (meta_key_not_title _ _ E).
Qed.

Lemma extractMetaTags_stores_the_last_witness :
  assoc "meta_og_title"
    [("meta_og_title", VObj [("name", VStr "og_title"); ("content", VStr "second")])]
  = Some (VObj (meta_info [("name", "og_title"); ("content", "second")])).
Proof.
  refine (proj2 (extractMetaTags_stores_the_last
                   {| head_metas := [[("property", "og:title"); ("content", "first")];
                                     [("name", "og_title"); ("content", "second")]];
                      head_title := None |} _ eq_refl)
            [[("property", "og:title"); ("content", "first")]]
            [("name", "og_title"); ("content", "second")] [] eq_refl _).
  intros j later Hj. destruct j; discriminate.
Defined.

Lemma meta_info_string_object (meta : attributes) : string_object (VObj (meta_info meta)).
Proof.
  exists (meta_info meta). split; [reflexivity|].
  assert (Hfold : forall info,
             Forall (fun p : string * value => exists s, p.2 = VStr s) info ->
             NoDup (map fst info) ->
             Forall (fun p : string * value => exists s, p.2 = VStr s)
               (foldl (fun info attr => set_prop attr.1 (VStr attr.2) info) info meta)
             /\ NoDup (map fst (foldl (fun info attr => set_prop attr.1 (VStr attr.2) info)
                                  info meta))).
  { induction meta as [|[name text] meta IH]; intros info Hall Hnd; simpl.
    - split; assumption.
    - apply IH; [apply set_prop_Forall; [simpl; eauto|exact Hall]
                |now apply set_prop_NoDup]. }
  destruct (Hfold [] ltac:(constructor) ltac:(constructor)) as [Hall Hnd].
  unfold meta_info. destruct (truthy_attribute "content" meta) as [content|].
  - split; [apply set_prop_Forall; [simpl; eauto|exact Hall]|now apply set_prop_NoDup].
  - split; assumption.
Qed.

Lemma string_object_comparable (tag : value) :
  string_object tag -> is_json tag = true /\ comparable_tag tag = true.
Proof.
  intros (props & -> & Hall & Hnd). split.
  - apply is_json_object. split; [|exact Hnd].
    eapply Forall_impl; [exact Hall|]. intros p [s ->]. reflexivity.
  - unfold comparable_tag. simpl.
    destruct (assoc "content" props) as [c|] eqn:Hc; [|reflexivity].
    apply assoc_In in Hc. rewrite List.Forall_forall in Hall.
    destruct (Hall _ Hc) as [s Hs]. simpl in Hs. now subst c.
Qed.

Lemma store_metas_string_objects (metas : list attributes) :
  forall index metaTags,
    Forall (fun kt : string * value => string_object kt.2) metaTags ->
    Forall (fun kt : string * value => string_object kt.2)
      (store_metas index metas metaTags).
Proof.
  induction metas as [|meta metas IH]; intros index metaTags Hall; simpl; [exact Hall|].
  apply IH. apply set_prop_Forall; [apply meta_info_string_object|exact Hall].
Qed.

Lemma extractMetaTags_shape (h : head) :
  exists metaTags,
    extractMetaTags h = VObj metaTags
    /\ NoDup (map fst metaTags)
    /\ Forall (fun kt : string * value => string_object kt.2) metaTags.
Proof.
  unfold extractMetaTags. eexists. split; [reflexivity|].
  pose proof (store_metas_keys (fun _ => True) (head_metas h) (fun _ _ => I) 0 []
                ltac:(constructor) ltac:(constructor)) as [_ Hnd].
  pose proof (store_metas_string_objects (head_metas h) 0 [] ltac:(constructor)) as Hall.
  destruct (head_title h) as [text|]; [|split; assumption].
  split; [now apply set_prop_NoDup|].
  apply set_prop_Forall; [|exact Hall].
  exists [("content", VStr text)]. split; [reflexivity|].
  split; [repeat constructor; simpl; eauto|].
  simpl. apply NoDup_singleton.
Qed.

Lemma extractMetaTags_comparable (h : head) :
  is_json (extractMetaTags h) = true /\ comparable "meta-tags" (extractMetaTags h) = true.
Proof.
  destruct (extractMetaTags_shape h) as (metaTags & Hshape & Hnd & Hall).
  rewrite Hshape. split.
  - apply is_json_object. split; [|exact Hnd].
    eapply Forall_impl; [exact Hall|]. intros kt Hkt.
    now apply string_object_comparable in Hkt as [? _].
  - unfold comparable. simpl. apply forallb_forall. rewrite List.Forall_forall in Hall.
    intros kt Hkt. now apply string_object_comparable, Hall.
Qed.

(** X25: from the page to the baseline and back, for meta tags.  Whatever
    [extractMetaTags] returns for a page with a plain name (short, without
    separators) can be stored as its first baseline,
    and the same extraction compared against that baseline matches: the first
    run creates the file, the second run leaves it and returns the matching
    result. *)
Theorem extracted_meta_tags_match_their_baseline (h : head) (pageName : string)
  (baselinePath : file_path) (fs : filesystem) :
  plain_name pageName = true ->
  existsSync fs (baselineFile baselinePath pageName) = false ->
  fs !! baselinePath = Some (Directory true) ->
  exists fs',
    compareWithBaseline (extractMetaTags h) pageName baselinePath "meta-tags" fs
    = Return (MetaTagsComparison meta_tags_match, fs')
    /\ compareWithBaseline (extractMetaTags h) pageName baselinePath "meta-tags" fs'
       = Return (MetaTagsComparison meta_tags_match, fs').
Proof.
  intros _ Hex Hdir.
  destruct (extractMetaTags_comparable h) as [Hj Hcmp].
  destruct (first_run_stored _ pageName _ _ _ Hex Hdir Hj Hcmp)
    as (doc & text & Hfirst & Hload & Hget & _).
  eexists. split; [exact Hfirst|].
  apply (compareWithBaseline_stored _ _ _ "meta-tags" _ doc); auto.
Qed.

Lemma extracted_meta_tags_match_their_baseline_witness :
  exists fs',
    compareWithBaseline (demo_tags "A") "courses" ["baselines"] "meta-tags" demo_fs
    = Return (MetaTagsComparison meta_tags_match, fs').
Proof.
  destruct (extracted_meta_tags_match_their_baseline
              {| head_metas := [[("name", "description"); ("content", "Lessons")]];
                 head_title := Some "A" |}
              "courses" ["baselines"] demo_fs eq_refl eq_refl eq_refl)
    as (fs' & Hfirst & _).
  exists fs'. exact Hfirst.
Defined.

(** ** When the comparisons throw *)

Lemma block_differences_outcome (i : nat) (baselineItem currentItem : value) :
  is_nullish baselineItem = false -> is_nullish currentItem = false ->
  if block_clash baselineItem currentItem
  then block_differences i baselineItem currentItem = Throw TypeError
  else exists ds, block_differences i baselineItem currentItem = Return ds.
Proof.
  intros Hb Hc. unfold block_clash, block_differences.
  destruct (get_object_Return baselineItem "error" Hb) as [be ->].
  destruct (get_object_Return currentItem "error" Hc) as [ce ->].
  destruct (get_object_Return baselineItem "data" Hb) as [bd ->].
  destruct (get_object_Return currentItem "data" Hc) as [cd ->].
  outcome_simpl.
  destruct (truthy be || truthy ce); simpl.
  { destruct (strict_neq be ce); eauto. }
  destruct (bool_decide (JSON_stringify bd 0 ≠ JSON_stringify cd 0)); simpl; [|eauto].
  pose proof (findFieldDifferences_at_root bd cd "") as H.
  destruct (throws_at_root bd cd).
  - now rewrite H.
  - destruct H as [ds ->]. outcome_simpl. eauto.
Qed.

Lemma trailing_entries_returns (items : list value) :
  Forall (fun b => is_nullish b = false) items ->
  forall i, exists entries, trailing_entries i items = Return entries.
Proof.
  induction 1 as [|item items Hitem _ IH]; intros i; simpl; [eauto|].
  destruct (get_object_Return item "data" Hitem) as [d ->].
  destruct (IH (S i)) as [es ->]. outcome_simpl. eauto.
Qed.

Lemma blocks_differences_outcome (bs : list value) :
  Forall (fun b => is_nullish b = false) bs ->
  forall cs i,
    Forall (fun b => is_nullish b = false) cs ->
    if existsb (fun bc => block_clash bc.1 bc.2) (zip bs cs)
    then blocks_differences i bs cs = Throw TypeError
    else exists ds, blocks_differences i bs cs = Return ds.
Proof.
  induction 1 as [|b bs Hb _ IH]; intros cs i Hcs; simpl; [eauto|].
  destruct Hcs as [|c cs Hc Hcs]; simpl; [eauto|].
  pose proof (block_differences_outcome i b c Hb Hc) as H.
  destruct (block_clash b c); simpl.
  { now rewrite H. }
  destruct H as [d ->]. outcome_simpl.
  specialize (IH cs (S i) Hcs).
  destruct (existsb _ (zip bs cs)).
  - now rewrite IH.
  - destruct IH as [ds ->]. outcome_simpl. eauto.
Qed.

(** X26: when the JSON-LD comparison throws.  On two arrays of blocks none
    of which is [null] or [undefined], [compareJsonLdWithBaseline] throws a
    [TypeError] exactly when some position held by both arrays carries two
    blocks without a truthy [error] whose [data] serialise differently and
    make the differ throw at its root call (a changed string, say);
    otherwise it returns a result. *)
Theorem json_ld_comparison_throws_on_clash (cur base : list value) :
  Forall (fun b => is_nullish b = false) base ->
  Forall (fun b => is_nullish b = false) cur ->
  if existsb (fun bc => block_clash bc.1 bc.2) (zip base cur)
  then compareJsonLdWithBaseline (VArr cur) (VArr base) = Throw TypeError
  else exists r, compareJsonLdWithBaseline (VArr cur) (VArr base) = Return r.
Proof.
  intros Hbase Hcur. unfold compareJsonLdWithBaseline. simpl.
  assert (Hmissing : exists missing,
             (if Nat.ltb (length cur) (length base)
              then trailing_entries (length cur) (drop (length cur) base)
              else Return []) = Return missing).
  { destruct (Nat.ltb (length cur) (length base)); [|eauto].
    apply trailing_entries_returns. now apply Forall_drop. }
  assert (Hnew : exists new,
             (if Nat.ltb (length base) (length cur)
              then trailing_entries (length base) (drop (length base) cur)
              else Return []) = Return new).
  { destruct (Nat.ltb (length base) (length cur)); [|eauto].
    apply trailing_entries_returns. now apply Forall_drop. }
  destruct Hmissing as [missing ->], Hnew as [new ->]. outcome_simpl.
  pose proof (blocks_differences_outcome base Hbase cur 0 Hcur) as H.
  destruct (existsb _ (zip base cur)).
  - now rewrite H.
  - destruct H as [ds ->]. outcome_simpl. eauto.
Qed.

Lemma json_ld_comparison_throws_on_clash_witness :
  compareJsonLdWithBaseline
    (VArr [VObj [("index", VNum 0); ("data", VStr "Biology 2")]])
    (VArr [VObj [("index", VNum 0); ("data", VStr "Biology")]])
  = Throw TypeError.
Proof.
  apply (json_ld_comparison_throws_on_clash
           [VObj [("index", VNum 0); ("data", VStr "Biology 2")]]
           [VObj [("index", VNum 0); ("data", VStr "Biology")]]);
    repeat constructor.
Defined.

Lemma baseline_tag_step_outcome (cur base : list (string * value))
  (acc : list (string * ContentChange) * list string) (key : string) :
  if tag_clash cur base key
  then baseline_tag_step (VObj cur) (VObj base) acc key = Throw TypeError
  else exists acc', baseline_tag_step (VObj cur) (VObj base) acc key = Return acc'.
Proof.
  unfold tag_clash, baseline_tag_step. rewrite !get_object. outcome_simpl.
  destruct (truthy (default VUndefined (assoc key cur))) eqn:Ht; simpl; [|eauto].
  assert (Hcur : is_nullish (default VUndefined (assoc key cur)) = false)
    by (destruct (default VUndefined (assoc key cur)); (discriminate || reflexivity)).
  destruct (get_object_Return _ "content" Hcur) as [cc Hcc].
  destruct (is_nullish (default VUndefined (assoc key base))) eqn:Hn.
  - destruct (default VUndefined (assoc key base)); try discriminate; reflexivity.
  - destruct (get_object_Return _ "content" Hn) as [bc ->]. rewrite Hcc. outcome_simpl.
    destruct (strict_neq bc cc); eauto.
Qed.

Lemma forEach_baseline_outcome (cur base : list (string * value)) (keys : list string) :
  forall acc,
    if existsb (tag_clash cur base) keys
    then forEach (baseline_tag_step (VObj cur) (VObj base)) keys acc = Throw TypeError
    else exists acc', forEach (baseline_tag_step (VObj cur) (VObj base)) keys acc
                      = Return acc'.
Proof.
  induction keys as [|k keys IH]; intros acc; [simpl; eauto|].
  cbn [forEach existsb].
  pose proof (baseline_tag_step_outcome cur base acc k) as H.
  destruct (tag_clash cur base k); simpl.
  { now rewrite H. }
  destruct H as [acc1 ->]. outcome_simpl. apply IH.
Qed.

(** X27: when the meta-tags comparison throws.  On two objects, the keys
    of the baseline being none of the names inherited from
    [Object.prototype], [compareMetaTagsWithBaseline] throws a [TypeError] exactly when some key
    of the baseline holds [null] there while the current tag under that key
    is truthy; otherwise it returns a result. *)
Theorem meta_tags_comparison_throws_on_null_baseline_tag
  (metaTags baselineMetaTags : list (string * value)) :
  own_names baselineMetaTags = true ->
  if existsb (tag_clash metaTags baselineMetaTags) (map fst baselineMetaTags)
  then compareMetaTagsWithBaseline (VObj metaTags) (VObj baselineMetaTags)
       = Throw TypeError
  else exists r, compareMetaTagsWithBaseline (VObj metaTags) (VObj baselineMetaTags)
                 = Return r.
Proof.
  intros _.
  unfold compareMetaTagsWithBaseline. cbn [Object_keys own_props]. rewrite bind_Return.
  pose proof (forEach_baseline_outcome metaTags baselineMetaTags
                (map fst baselineMetaTags) ([], [])) as H.
  destruct (existsb (tag_clash metaTags baselineMetaTags) (map fst baselineMetaTags)).
  - now rewrite H.
  - destruct H as [[diffs missing] ->].
    rewrite !bind_Return, forEach_new_tags, bind_Return. eauto.
Qed.

Lemma meta_tags_comparison_throws_on_null_baseline_tag_witness :
  compareMetaTagsWithBaseline (demo_tags "B")
    (VObj [("meta_description", VNull); ("title", VObj [("content", VStr "A")])])
  = Throw TypeError.
Proof.
  apply (meta_tags_comparison_throws_on_null_baseline_tag
           [("meta_description",
             VObj [("name", VStr "description"); ("content", VStr "Lessons")]);
            ("title", VObj [("content", VStr "B")])]
           [("meta_description", VNull); ("title", VObj [("content", VStr "A")])]).
  reflexivity.
Defined.

(** ** The stored baseline as the second operand *)

Lemma updateBaseline_payload (now : string) (stored : value) (pageName : string)
  (baselinePath : file_path) (baselineType : string) (fs : filesystem) :
  (baselineType = "json-ld" /\ isArray stored = true)
  \/ (baselineType = "meta-tags" /\ is_nullish stored = false) ->
  is_json stored = true ->
  can_write fs (baselineFile baselinePath pageName) = true ->
  exists doc text,
    updateBaseline now stored pageName baselinePath baselineType fs
    = Return (<[baselineFile baselinePath pageName := File text true]> fs)
    /\ loadBaseline (<[baselineFile baselinePath pageName := File text true]> fs)
         (baselineFile baselinePath pageName) = Return doc
    /\ get doc (payload_field baselineType) = Return stored.
Proof.
  intros Hkind Hj Hw. unfold updateBaseline.
  assert (Hdoc : exists count,
    (if String.eqb baselineType "json-ld"
     then count ← get stored "length";
          Return (VObj [("jsonLdData", stored); ("count", count);
                        ("lastUpdated", VStr now)])
     else keys ← Object_keys stored;
          Return (VObj [("metaTags", stored);
                        ("metaTagCount", VNum (Z.of_nat (length keys)));
                        ("lastUpdated", VStr now)]))
    = Return (VObj [(payload_field baselineType, stored);
                    (count_field baselineType, VNum count);
                    ("lastUpdated", VStr now)])).
  { unfold payload_field, count_field.
    destruct Hkind as [[-> H]|[-> H]]; simpl String.eqb; cbv iota;
      destruct stored; try discriminate; simpl; eauto. }
  destruct Hdoc as (count & ->). outcome_simpl.
  assert (Hjdoc : is_json (VObj [(payload_field baselineType, stored);
                                 (count_field baselineType, VNum count);
                                 ("lastUpdated", VStr now)]) = true).
  { simpl. rewrite Hj. unfold payload_field, count_field.
    destruct Hkind as [[-> _]|[-> _]]; reflexivity. }
  destruct (write_json_then_load fs (baselineFile baselinePath pageName) _ Hjdoc Hw)
    as (text & _ & Hwrite & Hload).
  eexists _, text. split; [exact Hwrite|]. split; [exact Hload|].
  simpl. now rewrite String.eqb_refl.
Qed.

(** X28: the orchestrator after an update is the comparison on the data.
    Once [updateBaseline] has stored JSON-compatible data for a page with a
    plain name (a list
    for the json-ld kind), [compareWithBaseline] for that page and kind on
    any extracted data behaves as the kind's comparison of the extracted data
    with the stored data: same result, same exception, and the file system
    left as the update left it. *)
Theorem compare_after_update_is_pure (now : string) (stored : value) (pageName : string)
  (baselinePath : file_path) (baselineType : string) (fs : filesystem) :
  plain_name pageName = true ->
  (baselineType = "json-ld" /\ isArray stored = true)
  \/ (baselineType = "meta-tags" /\ is_nullish stored = false) ->
  is_json stored = true ->
  can_write fs (baselineFile baselinePath pageName) = true ->
  exists fs',
    updateBaseline now stored pageName baselinePath baselineType fs = Return fs'
    /\ forall extractedData,
         compareWithBaseline extractedData pageName baselinePath baselineType fs'
         = (r ← compare_kind baselineType extractedData stored; Return (r, fs')).
Proof.
  intros _ Hkind Hj Hw.
  destruct (updateBaseline_payload now _ pageName baselinePath _ fs Hkind Hj Hw)
    as (doc & text & Hupdate & Hload & Hget).
  eexists. split; [exact Hupdate|]. intros extractedData.
  unfold compareWithBaseline, existsSync. rewrite lookup_insert_eq.
  rewrite bool_decide_eq_true_2 by eauto. simpl. rewrite Hload. outcome_simpl.
  unfold compare_kind, payload_field in *.
  destruct Hkind as [[-> _]|[-> _]]; simpl String.eqb in *; cbv iota in *;
    rewrite Hget; outcome_simpl.
  - destruct (compareJsonLdWithBaseline extractedData stored); reflexivity.
  - destruct (compareMetaTagsWithBaseline extractedData stored); reflexivity.
Qed.

Lemma compare_after_update_is_pure_witness :
  exists fs',
    updateBaseline "2024-05-01T10:00:00.000Z" (demo_tags "A") "home" ["baselines"]
      "meta-tags" demo_fs = Return fs'
    /\ compareWithBaseline (demo_tags "B") "home" ["baselines"] "meta-tags" fs'
       = (r ← compare_kind "meta-tags" (demo_tags "B") (demo_tags "A"); Return (r, fs')).
Proof.
  assert (Hw : can_write demo_fs (baselineFile ["baselines"] "home") = true)
    by (vm_compute; reflexivity).
  destruct (compare_after_update_is_pure "2024-05-01T10:00:00.000Z" (demo_tags "A") "home"
              ["baselines"] "meta-tags" demo_fs eq_refl
              (or_intror (conj eq_refl eq_refl)) eq_refl Hw) as (fs' & Hupdate & Hcmp).
  exists fs'. split; [exact Hupdate|apply Hcmp].
Defined.

Lemma first_run_payload (stored : value) (pageName : string)
  (baselinePath : file_path) (baselineType : string) (fs : filesystem) :
  (baselineType = "json-ld" /\ isArray stored = true)
  \/ (baselineType = "meta-tags" /\ is_nullish stored = false) ->
  is_json stored = true ->
  existsSync fs (baselineFile baselinePath pageName) = false ->
  fs !! baselinePath = Some (Directory true) ->
  exists doc text,
    compareWithBaseline stored pageName baselinePath baselineType fs
    = Return (first_result baselineType,
              <[baselineFile baselinePath pageName := File text true]> fs)
    /\ loadBaseline (<[baselineFile baselinePath pageName := File text true]> fs)
         (baselineFile baselinePath pageName) = Return doc
    /\ get doc (payload_field baselineType) = Return stored.
Proof.
  intros Hkind Hj Hex Hdir.
  assert (Hdoc : exists count,
             first_baseline stored baselineType
             = Return (VObj [(payload_field baselineType, stored);
                             (count_field baselineType, VNum count)])).
  { unfold first_baseline, payload_field, count_field.
    destruct Hkind as [[-> H]|[-> H]]; simpl String.eqb; cbv iota;
      destruct stored; try discriminate; simpl; eauto. }
  destruct Hdoc as (count & Hdoc).
  assert (Hjdoc : is_json (VObj [(payload_field baselineType, stored);
                                 (count_field baselineType, VNum count)]) = true).
  { simpl. rewrite Hj. unfold payload_field, count_field.
    destruct Hkind as [[-> _]|[-> _]]; reflexivity. }
  destruct (write_json_then_load fs (baselineFile baselinePath pageName) _ Hjdoc
              (can_write_new_file _ _ _ Hex Hdir)) as (text & _ & Hwrite & Hload).
  eexists _, text. split; [|split; [exact Hload|]].
  - unfold compareWithBaseline. rewrite Hex, Hdoc. simpl.
    outcome_simpl. now rewrite Hwrite.
  - simpl. now rewrite String.eqb_refl.
Qed.

(** X29: the first run fixes the second operand.  After the first run has
    written the baseline of a page with a plain name from
    JSON-compatible data (a list for the
    json-ld kind), every later [compareWithBaseline] for that page and kind
    behaves as the kind's comparison of the newly extracted data with the
    data of the first run, and leaves the file system as the first run left
    it. *)
Theorem compare_after_first_run_is_pure (stored : value) (pageName : string)
  (baselinePath : file_path) (baselineType : string) (fs : filesystem) :
  plain_name pageName = true ->
  (baselineType = "json-ld" /\ isArray stored = true)
  \/ (baselineType = "meta-tags" /\ is_nullish stored = false) ->
  is_json stored = true ->
  existsSync fs (baselineFile baselinePath pageName) = false ->
  fs !! baselinePath = Some (Directory true) ->
  exists fs',
    compareWithBaseline stored pageName baselinePath baselineType fs
    = Return (first_result baselineType, fs')
    /\ forall extractedData,
         compareWithBaseline extractedData pageName baselinePath baselineType fs'
         = (r ← compare_kind baselineType extractedData stored; Return (r, fs')).
Proof.
  intros _ Hkind Hj Hex Hdir.
  destruct (first_run_payload _ pageName _ _ _ Hkind Hj Hex Hdir)
    as (doc & text & Hfirst & Hload & Hget).
  eexists. split; [exact Hfirst|]. intros extractedData.
  unfold compareWithBaseline, existsSync. rewrite lookup_insert_eq.
  rewrite bool_decide_eq_true_2 by eauto. simpl. rewrite Hload. outcome_simpl.
  unfold compare_kind, payload_field in *.
  destruct Hkind as [[-> _]|[-> _]]; simpl String.eqb in *; cbv iota in *;
    rewrite Hget; outcome_simpl.
  - destruct (compareJsonLdWithBaseline extractedData stored); reflexivity.
  - destruct (compareMetaTagsWithBaseline extractedData stored); reflexivity.
Qed.

Lemma compare_after_first_run_is_pure_witness :
  exists fs',
    compareWithBaseline (demo_tags "A") "courses" ["baselines"] "meta-tags" demo_fs
    = Return (first_result "meta-tags", fs')
    /\ compareWithBaseline (demo_tags "B") "courses" ["baselines"] "meta-tags" fs'
       = (r ← compare_kind "meta-tags" (demo_tags "B") (demo_tags "A"); Return (r, fs')).
Proof.
  assert (Hex : existsSync demo_fs (baselineFile ["baselines"] "courses") = false)
    by (vm_compute; reflexivity).
  assert (Hdir : demo_fs !! ["baselines"] = Some (Directory true))
    by (vm_compute; reflexivity).
  destruct (compare_after_first_run_is_pure (demo_tags "A") "courses" ["baselines"]
              "meta-tags" demo_fs eq_refl (or_intror (conj eq_refl eq_refl)) eq_refl
              Hex Hdir)
    as (fs' & Hfirst & Hcmp).
  exists fs'. split; [exact Hfirst|apply Hcmp].
Defined.
